(** * AscentViewer: navigation list and adaptive render pipeline

    A shallow embedding of the parts of [ascv_main.py] (class [MainUi]) that
    build the image list of a directory, step through it, and render the
    selected image at two qualities with a debounce timer:

      [updateFunction], [updateTimerFunc], [openImage], [openDir],
      [dirMakeImageList], [prevImage], [nextImage].

    Conventions of the model.
    - Paths are byte strings ([string]), text beyond ASCII being held in
      UTF-8, under which comparing byte by byte orders two strings as
      Python orders them by code point.  [str.lower] is spelled out on
      ASCII text and taken from the interpreter beyond it.  POSIX rules are
      used for [os.path] and [glob].
    - A Python exception is a value of [exn]; a handler returns [Ok s] or
      [Raise e s] where [s] is the state of [self] at the moment the
      exception left the handler (assignments made before the raise stay).
    - Instance attributes that are created only later than [__init__] are
      [option]s; reading one that is unset raises [AttributeError].
    - The Qt widgets touched by the handlers are fields of the state.  The
      history of [label.setPixmap] calls and the number of directory walks
      are recorded in two instrumentation fields ([shown], [scans]). *)

From Stdlib Require Import List String Ascii ZArith Lia Bool Sorted Permutation.
Import ListNotations.
Local Open Scope string_scope.
Local Open Scope Z_scope.

(* ================================================================== *)
(** ** Strings and paths *)

Module Str.

(** [s.isascii()]: every character is below 128. *)
Definition isascii (s : string) : bool :=
  forallb (fun c => (N_of_ascii c <? 128)%N) (list_ascii_of_string s).

(** [c.lower()] for an ASCII character: the letters A to Z move to a to z. *)
Definition lower_ascii (c : ascii) : ascii :=
  let n := N_of_ascii c in
  if (65 <=? n)%N && (n <=? 90)%N then ascii_of_N (n + 32) else c.

(** [s.lower()] for ASCII text [s]. *)
Fixpoint ascii_lower (s : string) : string :=
  match s with
  | EmptyString => EmptyString
  | String c s' => String (lower_ascii c) (ascii_lower s')
  end.

(** The characters [glob.has_magic] looks for ([magic_check], the regular
    expression made of the three characters star, question mark and
    opening bracket). *)
Definition is_magic (c : ascii) : bool :=
  Ascii.eqb c "*" || Ascii.eqb c "?" || Ascii.eqb c "[".

(** [glob.has_magic(s)] *)
Definition has_magic (s : string) : bool := existsb is_magic (list_ascii_of_string s).

(** [s[n:]] *)
Fixpoint drop (n : nat) (s : string) : string :=
  match n, s with
  | O, _ => s
  | S _, EmptyString => EmptyString
  | S k, String _ s' => drop k s'
  end.

(** [s.endswith(suf)] *)
Definition endswith (suf s : string) : bool :=
  String.eqb (drop (String.length s - String.length suf) s) suf
  && (String.length suf <=? String.length s)%nat.

(** [s.replace(old, new)] for a non-empty [old]: non-overlapping occurrences,
    scanned from the left.  [skip] counts the characters of an occurrence
    that was just replaced and are still to be stepped over. *)
Fixpoint replace_from (old new : string) (skip : nat) (s : string) : string :=
  match s with
  | EmptyString => EmptyString
  | String c s' =>
      match skip with
      | S k => replace_from old new k s'
      | O =>
          if String.prefix old s
          then new ++ replace_from old new (String.length old - 1) s'
          else String c (replace_from old new O s')
      end
  end.

(** [s.replace("", new)]: [new] before every character and at the end. *)
Fixpoint intersperse (new s : string) : string :=
  match s with
  | EmptyString => new
  | String c s' => new ++ String c (intersperse new s')
  end.

(** [s.replace(old, new)] *)
Definition replace (old new s : string) : string :=
  match old with
  | EmptyString => intersperse new s
  | String _ _ => replace_from old new O s
  end.

(** [os.path.basename(s)]: the part of [s] after its last ["/"] (all of
    [s] when it has none). *)
Fixpoint basename (s : string) : string :=
  match s with
  | EmptyString => EmptyString
  | String c s' =>
      if Ascii.eqb c "/"
      then basename s'
      else if existsb (Ascii.eqb "/") (list_ascii_of_string s')
           then basename s'
           else s
  end.

(** [s.rstrip("/")] *)
Fixpoint rstrip_slash (s : string) : string :=
  match s with
  | EmptyString => EmptyString
  | String c s' =>
      match rstrip_slash s' with
      | EmptyString => if Ascii.eqb c "/" then EmptyString else String c EmptyString
      | r => String c r
      end
  end.

(** [os.path.split(d + "/" + pattern)[0]] for a pattern without ["/"]: the
    head [d + "/"], with trailing slashes removed unless it consists of
    slashes only. *)
Definition split_head (d : string) : string :=
  let head := d ++ "/" in
  match rstrip_slash head with
  | EmptyString => head
  | r => r
  end.

(** [os.path.join(d, name)] for a [name] that does not start with ["/"]. *)
Definition join (d name : string) : string :=
  match d with
  | EmptyString => name
  | _ => if endswith "/" d then d ++ name else d ++ "/" ++ name
  end.

(** [fnmatch.fnmatchcase(name, pat)] for patterns made of literal
    characters, [*] and [?] (no bracket expressions). *)
Fixpoint fnmatch (pat : string) : string -> bool :=
  match pat with
  | EmptyString => fun name => match name with EmptyString => true | _ => false end
  | String p pat' =>
      if Ascii.eqb p "*" then
        fix star (name : string) : bool :=
          fnmatch pat' name ||
          match name with
          | EmptyString => false
          | String _ name' => star name'
          end
      else if Ascii.eqb p "?" then
        fun name => match name with
                    | EmptyString => false
                    | String _ name' => fnmatch pat' name'
                    end
      else
        fun name => match name with
                    | EmptyString => false
                    | String c name' => Ascii.eqb p c && fnmatch pat' name'
                    end
  end.

(** [glob._ishidden] *)
Definition ishidden (name : string) : bool := String.prefix "." name.

End Str.

(* ================================================================== *)
(** ** Lists as Python uses them *)

Module Py.

(** [l.index(x)]: the first position of [x], [None] where Python raises
    [ValueError]. *)
Fixpoint index (x : string) (l : list string) : option Z :=
  match l with
  | [] => None
  | y :: l' =>
      if String.eqb y x then Some 0
      else match index x l' with
           | Some i => Some (i + 1)
           | None => None
           end
  end.

(** [l[i]] with Python's negative indices, [None] where Python raises
    [IndexError]. *)
Definition getitem (l : list string) (i : Z) : option string :=
  let n := Z.of_nat (List.length l) in
  if (0 <=? i) && (i <? n) then nth_error l (Z.to_nat i)
  else if (- n <=? i) && (i <? 0) then nth_error l (Z.to_nat (n + i))
  else None.

(** The order used by [list.sort(key=key)]: the keys are compared as
    strings. *)
Definition key_le (key : string -> string) (a b : string) : bool :=
  String.leb (key a) (key b).

(** One step of a stable insertion: [x], which stood before every element
    of [l] in the input, goes before the first element whose key is not
    smaller. *)
Fixpoint insert (key : string -> string) (x : string) (l : list string) : list string :=
  match l with
  | [] => [x]
  | y :: l' => if key_le key x y then x :: l else y :: insert key x l'
  end.

(** [l.sort(key=key)].  Python's sort is stable, and a stable sort has one
    possible result, so a stable insertion sort computes the same list. *)
Fixpoint sort (key : string -> string) (l : list string) : list string :=
  match l with
  | [] => []
  | x :: l' => insert key x (sort key l')
  end.

End Py.

(* ================================================================== *)
(** ** The world outside the program, exceptions, and the state of [MainUi] *)

(** The exceptions the modelled code can raise. *)
Inductive exn : Type :=
| AttributeError          (* an attribute of [self] read before it was set *)
| ValueError              (* [list.index] of an absent element *)
| IndexError              (* [list[i]] out of range *)
| UnidentifiedImageError  (* [PIL.Image.open] on data that is no image *)
| FileNotFoundError       (* a path that does not exist *)
| OSError.                (* truncated image data, a mode that PNG cannot
                             hold, a file that cannot be written or read *)

(** How [imThumb.save(self.imTOut, "PNG")] (line 440) ends: the preview is
    written, or an exception is raised; [slot_kept] tells whether the
    preview file is then still as it was ([save] raised before it opened
    the file) or is lost ([save] raised after it had opened the file for
    writing, which truncates it). *)
Inductive SaveResult : Type :=
| Saved
| SaveFailed (e : exn) (slot_kept : bool).

(** What the model takes from outside the program: the file system, the
    image library, and the Unicode tables of the interpreter.
    - [listdir d]: the names in directory [d], in the order the operating
      system enumerates them (nothing for a directory that cannot be read);
    - [iglob_dirs pat]: the directories that [pat], a directory part with a
      wildcard character in it, stands for: what the inner call
      [_iglob(dirname, recursive, True)] of [glob.glob] yields, in its
      order;
    - [unicode_lower s]: [s.lower()] for text [s] that is not ASCII only;
    - [image_open p]: [Image.open(p)], the size of the image or the
      exception raised;
    - [thumbnail p]: [thumbnail((500, 500))] on the image opened from [p]
      (line 437), which decodes it: the exception raised, if any;
    - [save p]: saving the preview of that image (line 440);
    - [getmtime p]: line 445, [os.path.getmtime(p)] turned into a date:
      the time, or the exception raised (the file has gone, the date
      cannot be formatted). *)
Record Env : Type := MkEnv {
  listdir : string -> list string;
  iglob_dirs : string -> list string;
  unicode_lower : string -> string;
  image_open : string -> exn + (Z * Z);
  thumbnail : string -> option exn;
  save : string -> SaveResult;
  getmtime : string -> exn + Z
}.

(** [s.lower()] *)
Definition lower (E : Env) (s : string) : string :=
  if Str.isascii s then Str.ascii_lower s else unicode_lower E s.

(** A world given by its directories, by what [Image.open] does and by the
    modification times: no directory part with a wildcard character
    stands for any directory, and an image that opens is decoded, saved
    and dated without error.  It is meant for names in ASCII, for which
    [unicode_lower] is not consulted. *)
Definition plain_env (ls : string -> list string) (op : string -> exn + (Z * Z))
    (mtime : string -> Z) : Env :=
  MkEnv ls (fun _ => []) (fun s => s) op (fun _ => None) (fun _ => Saved)
        (fun p => inr (mtime p)).

(** Where the pixels of a [QPixmap] came from: the preview slot, at a time
    when it held the preview of [origin] (nothing when the slot held no
    image: it was never written, or a failed [save] left it damaged), or
    an image file. *)
Inductive Source : Type :=
| Preview (origin : option string)
| Original (path : string).

(** A [QPixmap] after [scaled(w, h, KeepAspectRatio, mode)]: the box it was
    fitted to, and whether [SmoothTransformation] was asked for. *)
Record Pixmap : Type := MkPixmap {
  pix_src : Source;
  pix_w : Z;
  pix_h : Z;
  pix_smooth : bool
}.

Inductive Quality : Type := LowFidelity | HighFidelity.

Definition quality (p : Pixmap) : Quality :=
  match pix_src p with
  | Preview _ => LowFidelity
  | Original _ => HighFidelity
  end.

(** The texts of [fileLabel], [dateModifiedLabel] and [dimensionsLabel]. *)
Record Details : Type := MkDetails {
  det_name : string;
  det_mtime : Z;
  det_dims : Z * Z
}.

(** The log lines of the modelled handlers ([ascvLogger.info] and [.debug]). *)
Inductive LogMsg : Type :=
| LogOpenedImage (p : string)
| LogImageDir (d : string)
| LogDirPaths (d d_ : string)
| LogNotBlank
| LogDiffer
| LogSame
| LogBlank
| LogImgPathEmpty
| LogOpenedDir (d : string)
| LogDirBlank
| LogListNotEmpty
| LogList (l : list string)
| LogListLen (n : nat)
| LogSetList
| LogListEmpty
| LogPrev (n : Z)
| LogNext (n : Z).

(** The state: the attributes of [self] (under their names), the widgets,
    the clock, the preview file on disk, the log, and the two
    instrumentation fields.
    [dirPath_] and [dirImageList_], which every function that reads them
    assigns first, are local [let]s of the functions below.
    [timer] holds the deadline of the [QTimer] when it is active.
    [thumbFile] tells what the preview file holds: the image it is the
    preview of, or nothing when it holds no image.
    [mwWidth] and [mwHeight] are assigned by [updateFunction] before any
    code reads them, so they are plain numbers. *)
Record State : Type := MkState {
  dirPath : string;
  imgFilePath : string;
  dirImageList : option (list string);
  imageNumber : option Z;
  mwWidth : Z;
  mwHeight : Z;
  imWidth : option Z;
  imTOut : option string;
  timer : option Z;
  label : option Pixmap;
  details : option Details;
  navEnabled : bool;
  frame : Z * Z;
  clock : Z;
  thumbFile : option string;
  log : list LogMsg;
  shown : list (Z * Pixmap);
  scans : nat
}.

Definition set_dirPath (v : string) (s : State) : State :=
  MkState v (imgFilePath s) (dirImageList s) (imageNumber s) (mwWidth s) (mwHeight s)
    (imWidth s) (imTOut s) (timer s) (label s) (details s) (navEnabled s) (frame s)
    (clock s) (thumbFile s) (log s) (shown s) (scans s).

Definition set_imgFilePath (v : string) (s : State) : State :=
  MkState (dirPath s) v (dirImageList s) (imageNumber s) (mwWidth s) (mwHeight s)
    (imWidth s) (imTOut s) (timer s) (label s) (details s) (navEnabled s) (frame s)
    (clock s) (thumbFile s) (log s) (shown s) (scans s).

Definition set_dirImageList (v : option (list string)) (s : State) : State :=
  MkState (dirPath s) (imgFilePath s) v (imageNumber s) (mwWidth s) (mwHeight s)
    (imWidth s) (imTOut s) (timer s) (label s) (details s) (navEnabled s) (frame s)
    (clock s) (thumbFile s) (log s) (shown s) (scans s).

Definition set_imageNumber (v : option Z) (s : State) : State :=
  MkState (dirPath s) (imgFilePath s) (dirImageList s) v (mwWidth s) (mwHeight s)
    (imWidth s) (imTOut s) (timer s) (label s) (details s) (navEnabled s) (frame s)
    (clock s) (thumbFile s) (log s) (shown s) (scans s).

Definition set_mw (w h : Z) (s : State) : State :=
  MkState (dirPath s) (imgFilePath s) (dirImageList s) (imageNumber s) w h
    (imWidth s) (imTOut s) (timer s) (label s) (details s) (navEnabled s) (frame s)
    (clock s) (thumbFile s) (log s) (shown s) (scans s).

Definition set_imWidth (v : option Z) (s : State) : State :=
  MkState (dirPath s) (imgFilePath s) (dirImageList s) (imageNumber s) (mwWidth s) (mwHeight s)
    v (imTOut s) (timer s) (label s) (details s) (navEnabled s) (frame s)
    (clock s) (thumbFile s) (log s) (shown s) (scans s).

Definition set_imTOut (v : option string) (s : State) : State :=
  MkState (dirPath s) (imgFilePath s) (dirImageList s) (imageNumber s) (mwWidth s) (mwHeight s)
    (imWidth s) v (timer s) (label s) (details s) (navEnabled s) (frame s)
    (clock s) (thumbFile s) (log s) (shown s) (scans s).

Definition set_timer (v : option Z) (s : State) : State :=
  MkState (dirPath s) (imgFilePath s) (dirImageList s) (imageNumber s) (mwWidth s) (mwHeight s)
    (imWidth s) (imTOut s) v (label s) (details s) (navEnabled s) (frame s)
    (clock s) (thumbFile s) (log s) (shown s) (scans s).

(** [self.label.setPixmap(p)], recorded in [shown] with the time. *)
Definition setPixmap (p : Pixmap) (s : State) : State :=
  MkState (dirPath s) (imgFilePath s) (dirImageList s) (imageNumber s) (mwWidth s) (mwHeight s)
    (imWidth s) (imTOut s) (timer s) (Some p) (details s) (navEnabled s) (frame s)
    (clock s) (thumbFile s) (log s) (shown s ++ [(clock s, p)]) (scans s).

Definition set_details (v : option Details) (s : State) : State :=
  MkState (dirPath s) (imgFilePath s) (dirImageList s) (imageNumber s) (mwWidth s) (mwHeight s)
    (imWidth s) (imTOut s) (timer s) (label s) v (navEnabled s) (frame s)
    (clock s) (thumbFile s) (log s) (shown s) (scans s).

Definition set_navEnabled (v : bool) (s : State) : State :=
  MkState (dirPath s) (imgFilePath s) (dirImageList s) (imageNumber s) (mwWidth s) (mwHeight s)
    (imWidth s) (imTOut s) (timer s) (label s) (details s) v (frame s)
    (clock s) (thumbFile s) (log s) (shown s) (scans s).

Definition set_frame (v : Z * Z) (s : State) : State :=
  MkState (dirPath s) (imgFilePath s) (dirImageList s) (imageNumber s) (mwWidth s) (mwHeight s)
    (imWidth s) (imTOut s) (timer s) (label s) (details s) (navEnabled s) v
    (clock s) (thumbFile s) (log s) (shown s) (scans s).

Definition set_clock (v : Z) (s : State) : State :=
  MkState (dirPath s) (imgFilePath s) (dirImageList s) (imageNumber s) (mwWidth s) (mwHeight s)
    (imWidth s) (imTOut s) (timer s) (label s) (details s) (navEnabled s) (frame s)
    v (thumbFile s) (log s) (shown s) (scans s).

Definition set_thumbFile (v : option string) (s : State) : State :=
  MkState (dirPath s) (imgFilePath s) (dirImageList s) (imageNumber s) (mwWidth s) (mwHeight s)
    (imWidth s) (imTOut s) (timer s) (label s) (details s) (navEnabled s) (frame s)
    (clock s) v (log s) (shown s) (scans s).

(** [ascvLogger.info(m)] or [ascvLogger.debug(m)] *)
Definition logmsg (m : LogMsg) (s : State) : State :=
  MkState (dirPath s) (imgFilePath s) (dirImageList s) (imageNumber s) (mwWidth s) (mwHeight s)
    (imWidth s) (imTOut s) (timer s) (label s) (details s) (navEnabled s) (frame s)
    (clock s) (thumbFile s) (log s ++ [m]) (shown s) (scans s).

(** One more directory walk (instrumentation). *)
Definition count_scan (s : State) : State :=
  MkState (dirPath s) (imgFilePath s) (dirImageList s) (imageNumber s) (mwWidth s) (mwHeight s)
    (imWidth s) (imTOut s) (timer s) (label s) (details s) (navEnabled s) (frame s)
    (clock s) (thumbFile s) (log s) (shown s) (S (scans s)).

(** The outcome of a handler. *)
Inductive Result : Type :=
| Ok (s : State)
| Raise (e : exn) (s : State).

Definition bind (r : Result) (k : State -> Result) : Result :=
  match r with
  | Ok s => k s
  | Raise e s => Raise e s
  end.

Notation "r >>= k" := (bind r k) (at level 50, left associativity).

(** The state the program is left in, whether or not the handler raised. *)
Definition state_of (r : Result) : State :=
  match r with
  | Ok s => s
  | Raise _ s => s
  end.

Definition raised (r : Result) : option exn :=
  match r with
  | Ok _ => None
  | Raise e _ => Some e
  end.

(** [MainUi.__init__]: the attributes it sets, with a window of the given
    size and no widget content. *)
Definition init (geom : Z * Z) : State :=
  MkState "" "" None None 0 0 None None None None None false geom 0 None [] [] 0.

(** Reading a field through the setters. *)
Ltac fields :=
  cbn [dirPath imgFilePath dirImageList imageNumber mwWidth mwHeight imWidth imTOut
       timer label details navEnabled frame clock thumbFile log shown scans
       set_dirPath set_imgFilePath set_dirImageList set_imageNumber set_mw set_imWidth
       set_imTOut set_timer setPixmap set_details set_navEnabled set_frame set_clock
       set_thumbFile logmsg count_scan].

(* ================================================================== *)
(** ** The handlers of [MainUi] *)

(** The one preview slot (line 439). *)
Definition thumb_path : string := "data/user/temp/thumbnails/tn_current-thumb.png".

(** The debounce delay (line 462). *)
Definition debounce : Z := 250.

(** [fileTypes] (line 531). *)
Definition fileTypes : list string := ["*.png"; "*.jpg"; "*.jpeg"; "*.bmp"; "*.gif"].

(** [QtGui.QPixmap(path)]: reading the preview slot gives what it holds now. *)
Definition QPixmap (path : string) (s : State) : Source :=
  if String.eqb path thumb_path then Preview (thumbFile s) else Original path.

(** [self.timer.isActive()], [self.timer.start(ms)], [self.timer.stop()] *)
Definition timer_isActive (s : State) : bool :=
  match timer s with
  | Some _ => true
  | None => false
  end.

Definition timer_start (ms : Z) (s : State) : State := set_timer (Some (clock s + ms)) s.

Definition timer_stop (s : State) : State := set_timer None s.

Section Handlers.

Variable E : Env.

(** [glob._glob1(dir, pat, False)] joined to [dir], for a pattern that
    does not start with a dot: the names of [dir] that are not hidden and
    match [pat]. *)
Definition glob_in_dir (pat dir : string) : list string :=
  map (Str.join dir)
      (filter (fun name => negb (Str.ishidden name) && Str.fnmatch pat name) (listdir E dir)).

(** [glob.glob(f"{d}/{pat}")] for a pattern [pat] of [fileTypes].  The
    part before the last slash names the directory to list, unless it
    holds a wildcard character itself: then [glob] lists every directory
    it stands for. *)
Definition glob (d pat : string) : list string :=
  let dirname := Str.split_head d in
  let dirs := if Str.has_magic dirname then iglob_dirs E dirname else [dirname] in
  flat_map (glob_in_dir pat) dirs.

(** Lines 532-538: the list a scan of [d] builds. *)
Definition scan (d : string) : list string :=
  Py.sort (lower E) (map (Str.replace "\" "/") (flat_map (glob d) fileTypes)).

(** [updateFunction(self, i)], lines 416-466. *)
Definition updateFunction (i : Z) (s0 : State) : Result :=
  let s := set_mw (fst (frame s0)) (snd (frame s0)) s0 in
  if negb (String.eqb (imgFilePath s) "") then
    if i =? 0 then
      match image_open E (imgFilePath s) with
      | inl e => Raise e s
      | inr (w, h) =>
          let s := set_imWidth (Some w) s in
          let imName := Str.basename (imgFilePath s) in
          match thumbnail E (imgFilePath s) with
          | Some e => Raise e s
          | None =>
              let s := set_imTOut (Some thumb_path) s in
              match save E (imgFilePath s) with
              | SaveFailed e slot_kept =>
                  Raise e (if slot_kept then s else set_thumbFile None s)
              | Saved =>
                  let s := set_thumbFile (Some (imgFilePath s)) s in
                  let s := setPixmap (MkPixmap (QPixmap thumb_path s)
                                        (mwWidth s) (mwHeight s) true) s in
                  match getmtime E (imgFilePath s) with
                  | inl e => Raise e s
                  | inr mtime =>
                      let s := set_details (Some (MkDetails imName mtime (w, h))) s in
                      let s := setPixmap (MkPixmap (QPixmap (imgFilePath s) s)
                                            (mwWidth s) (mwHeight s) true) s in
                      Ok s
                  end
              end
          end
      end
    else if i =? 1 then
      let s := if negb (timer_isActive s) then timer_start debounce s else s in
      match imTOut s with
      | None => Raise AttributeError s
      | Some out =>
          Ok (setPixmap (MkPixmap (QPixmap out s) (mwWidth s) (mwHeight s) false) s)
      end
    else Ok s
  else Ok s.

(** [updateTimerFunc(self)], lines 468-472.  Nothing in it can raise. *)
Definition updateTimerFunc (s : State) : State :=
  let s := setPixmap (MkPixmap (QPixmap (imgFilePath s) s) (mwWidth s) (mwHeight s) true) s in
  timer_stop s.

(** The selection step every caller performs (lines 553-555, 570-571 and
    580-581): [self.imgFilePath = p] followed by [self.updateFunction(0)]. *)
Definition selectImage (p : string) (s : State) : Result :=
  updateFunction 0 (set_imgFilePath p s).

(** [dirMakeImageList(self, hasOpenedImage)], lines 530-560. *)
Definition dirMakeImageList (hasOpenedImage : Z) (s : State) : Result :=
  let s := count_scan s in
  let dirImageList_ := scan (dirPath s) in
  if negb (Nat.eqb (List.length dirImageList_) 0) then
    let s := logmsg LogListNotEmpty s in
    let s := logmsg (LogList dirImageList_) s in
    let s := logmsg (LogListLen (List.length dirImageList_)) s in
    let s := logmsg LogSetList s in
    let s := set_dirImageList (Some dirImageList_) s in
    let show (n : Z) : Result :=
      let s := set_imageNumber (Some n) s in
      match Py.getitem dirImageList_ n with
      | None => Raise IndexError s
      | Some p => selectImage p s >>= fun s => Ok (set_navEnabled true s)
      end in
    if hasOpenedImage =? 1 then
      match Py.index (imgFilePath s) dirImageList_ with
      | None => Raise ValueError s
      | Some n => show n
      end
    else show 0
  else Ok (logmsg LogListEmpty s).

(** The directory part [openImage] computes (line 484). *)
Definition image_dir (path : string) : string :=
  Str.replace (Str.basename path) "" path.

(** [openImage(self)], lines 475-504; [chosen] is what the file dialog
    returned (the empty string when it was cancelled). *)
Definition openImage (chosen : string) (s : State) : Result :=
  let s := set_imgFilePath chosen s in
  if negb (String.eqb (imgFilePath s) "") then
    let s := logmsg (LogOpenedImage (imgFilePath s)) s in
    let dirPath_ := image_dir (imgFilePath s) in
    let s := logmsg (LogImageDir dirPath_) s in
    let s := logmsg (LogDirPaths (dirPath s) dirPath_) s in
    if negb (String.eqb (dirPath s) "") then
      let s := logmsg LogNotBlank s in
      if negb (String.eqb (dirPath s) dirPath_) then
        let s := logmsg LogDiffer s in
        dirMakeImageList 1 (set_dirPath dirPath_ s)
      else
        let s := logmsg LogSame s in
        match dirImageList s with
        | None => Raise AttributeError s
        | Some l =>
            match Py.index (imgFilePath s) l with
            | None => Raise ValueError s
            | Some n => Ok (set_imageNumber (Some n) s)
            end
        end
    else
      let s := logmsg LogBlank s in
      dirMakeImageList 1 (set_dirPath dirPath_ s)
  else Ok (logmsg LogImgPathEmpty s).

(** [openDir(self)], lines 506-528; [chosen] is what the directory dialog
    returned. *)
Definition openDir (chosen : string) (s : State) : Result :=
  let dirPath_ := chosen in
  if negb (String.eqb dirPath_ "") then
    let s := logmsg (LogOpenedDir dirPath_) s in
    let s := logmsg (LogDirPaths (dirPath s) dirPath_) s in
    if negb (String.eqb (dirPath s) "") then
      let s := logmsg LogNotBlank s in
      if negb (String.eqb (dirPath s) dirPath_) then
        let s := logmsg LogDiffer s in
        dirMakeImageList 0 (set_dirPath dirPath_ s)
      else Ok (logmsg LogSame s)
    else
      let s := logmsg LogBlank s in
      dirMakeImageList 0 (set_dirPath dirPath_ s)
  else Ok (logmsg LogDirBlank s).

(** Lines 570-571 and 580-581: show [dirImageList[imageNumber]]. *)
Definition show_current (s : State) : Result :=
  match dirImageList s, imageNumber s with
  | Some l, Some n =>
      match Py.getitem l n with
      | None => Raise IndexError s
      | Some p => selectImage p s
      end
  | _, _ => Raise AttributeError s
  end.

(** [prevImage(self)], lines 563-571. *)
Definition prevImage (s : State) : Result :=
  match imageNumber s with
  | None => Raise AttributeError s
  | Some n =>
      let s := logmsg (LogPrev n) s in
      (if negb (n =? 0) then Ok (set_imageNumber (Some (n - 1)) s)
       else match dirImageList s with
            | None => Raise AttributeError s
            | Some l => Ok (set_imageNumber (Some (Z.of_nat (List.length l) - 1)) s)
            end)
      >>= show_current
  end.

(** [nextImage(self)], lines 573-581. *)
Definition nextImage (s : State) : Result :=
  match imageNumber s with
  | None => Raise AttributeError s
  | Some n =>
      let s := logmsg (LogNext n) s in
      match dirImageList s with
      | None => Raise AttributeError s
      | Some l =>
          let s := if negb (n =? Z.of_nat (List.length l) - 1)
                   then set_imageNumber (Some (n + 1)) s
                   else set_imageNumber (Some 0) s in
          show_current s
      end
  end.

(** The wrapper installed on [label.resizeEvent] (line 397): the label has
    its new geometry when [updateFunction(1)] runs. *)
Definition resizeEvent (w h : Z) (s : State) : Result :=
  updateFunction 1 (set_frame (w, h) s).

(** *** The event loop

    Qt runs every handler to its end before the next one starts.  A timer
    that is due runs [updateTimerFunc] at its deadline; when an event and
    the deadline fall on the same instant the timer is served first. *)

Definition fire_due (t : Z) (s : State) : State :=
  match timer s with
  | Some d => if d <=? t then updateTimerFunc (set_clock d s) else s
  | None => s
  end.

(** A resize notification delivered at time [t].  An exception that leaves
    the handler goes to [except_hook] (line 92) and the loop carries on
    with the state the handler left. *)
Definition deliver_resize (t : Z) (wh : Z * Z) (s : State) : State :=
  state_of (resizeEvent (fst wh) (snd wh) (set_clock t (fire_due t s))).

(** A sequence of resize notifications, each with its time. *)
Fixpoint run_resizes (evs : list (Z * (Z * Z))) (s : State) : State :=
  match evs with
  | [] => s
  | (t, wh) :: evs' => run_resizes evs' (deliver_resize t wh s)
  end.

(** No further event arrives: a pending timer runs out. *)
Definition settle (s : State) : State :=
  match timer s with
  | Some d => updateTimerFunc (set_clock d s)
  | None => s
  end.

End Handlers.

(** The times at which the display went from a low-fidelity pixmap to a
    high-fidelity one, in a chronological list of [setPixmap] calls. *)
Fixpoint upgrade_times (h : list (Z * Pixmap)) : list Z :=
  match h with
  | [] => []
  | (_, p1) :: h' =>
      match h' with
      | [] => []
      | (t2, p2) :: _ =>
          match quality p1, quality p2 with
          | LowFidelity, HighFidelity => t2 :: upgrade_times h'
          | _, _ => upgrade_times h'
          end
      end
  end.

(** What was shown between two states of one run. *)
Definition shown_since (s s' : State) : list (Z * Pixmap) :=
  skipn (List.length (shown s)) (shown s').

(* ================================================================== *)
(** ** A sample world *)

Module Sample.

(** One directory, [/d], with three images ([C.gif] holds no image data), a
    text file and a hidden image. *)
Definition env : Env :=
  plain_env
    (fun d => if String.eqb d "/d"
              then ["B.png"; "notes.txt"; "a.jpg"; ".h.png"; "C.gif"]
              else [])
    (fun p => if String.eqb p "/d/C.gif" then inl UnidentifiedImageError
              else inr (1000, 800))
    (fun _ => 7).

(** The session after [/d/B.png] was opened in an 800 x 600 label. *)
Definition opened : State := state_of (openImage env "/d/B.png" (init (800, 600))).

(** The same session a moment after a first resize armed the timer. *)
Definition resizing : State := deliver_resize env 10 (640, 480) opened.

(** A world with a directory whose name is also a pattern: [/v/p[1]]
    holds [b.png], and read as a pattern it stands for [/v/p1], which
    holds [a.png]. *)
Definition bracket_env : Env :=
  MkEnv
    (fun d => if String.eqb d "/v/p1" then ["a.png"]
              else if String.eqb d "/v/p[1]" then ["b.png"]
              else [])
    (fun pat => if String.eqb pat "/v/p[1]" then ["/v/p1"] else [])
    (fun s => s)
    (fun _ => inr (640, 480))
    (fun _ => None)
    (fun _ => Saved)
    (fun _ => inr 0).

(** A world like [env] in which [/d/a.jpg] opens but cannot be written as
    PNG: [save] raises after it has opened the preview file. *)
Definition cmyk_env : Env :=
  MkEnv (listdir env) (iglob_dirs env) (unicode_lower env) (image_open env)
        (thumbnail env)
        (fun p => if String.eqb p "/d/a.jpg" then SaveFailed OSError false else Saved)
        (getmtime env).

End Sample.

(* ================================================================== *)
(** ** Notions used in the statements *)

(** Every pixmap of a history is a low-fidelity one. *)
Definition all_low (h : list (Z * Pixmap)) : Prop :=
  Forall (fun e => quality (snd e) = LowFidelity) h.

(** The time of the last event of a burst. *)
Definition last_time (evs : list (Z * (Z * Z))) : Z := fst (List.last evs (0, (0, 0))).

(** What stays fixed while resize events arrive. *)
Definition same_selection (s s' : State) : Prop :=
  imgFilePath s' = imgFilePath s /\ imTOut s' = imTOut s /\ thumbFile s' = thumbFile s.

(** A character-wise map. *)
Fixpoint smap (f : ascii -> ascii) (s : string) : string :=
  match s with
  | EmptyString => EmptyString
  | String c s' => String (f c) (smap f s')
  end.

(** What [replace("\", "/")] does to one character. *)
Definition unbackslash (c : ascii) : ascii := if Ascii.eqb c "\" then "/"%char else c.

(** The character of a sort key that a character of a listed name gives. *)
Definition key_char (c : ascii) : ascii := Str.lower_ascii (unbackslash c).

(** A pattern without wildcard characters. *)
Fixpoint literal (p : string) : bool :=
  match p with
  | EmptyString => true
  | String c p' => negb (Ascii.eqb c "*") && negb (Ascii.eqb c "?") && literal p'
  end.

(** The path [p] has the sort key [k]. *)
Definition same_key (E : Env) (k p : string) : bool := String.eqb (lower E p) k.

(** [a] may stand before [b] in a list sorted with [key=str.lower]. *)
Definition key_ordered (E : Env) (a b : string) : Prop := Py.key_le (lower E) a b = true.

(** Every name of the list is ASCII text. *)
Definition all_ascii (names : list string) : Prop :=
  Forall (fun n => Str.isascii n = true) names.

(** The image at [p] goes through the whole of lines 432 to 454: it opens,
    [thumbnail] and [save] succeed, and its modification time is read. *)
Definition loads (E : Env) (p : string) : bool :=
  match image_open E p, thumbnail E p, save E p, getmtime E p with
  | inr _, None, Saved, inr _ => true
  | _, _, _, _ => false
  end.

(** The extensions of [fileTypes]. *)
Definition extensions : list string := [".png"; ".jpg"; ".jpeg"; ".bmp"; ".gif"].

(** The name ends in one of the extensions, letter case included. *)
Definition has_supported_ext (name : string) : bool :=
  existsb (fun e => Str.endswith e name) extensions.

Section Listing.

Variable E : Env.

(** The path under which the name [n] of directory [d] is listed. *)
Definition entry_of (d n : string) : string :=
  Str.replace "\" "/" (Str.join (Str.split_head d) n).

(** The names a scan of [d] keeps, in the order of the directory. *)
Definition kept (d : string) : list string :=
  filter (fun n => negb (Str.ishidden n) && has_supported_ext n) (listdir E (Str.split_head d)).

(** What the five [glob] calls return, after the backslashes are replaced. *)
Definition globbed (d : string) (pats : list string) : list string :=
  map (Str.replace "\" "/") (flat_map (glob E d) pats).

End Listing.

(* ================================================================== *)
(** ** Sequences of user actions *)

(** [k] activations of one handler, each run to its end; an exception ends
    that activation only. *)
Fixpoint presses (h : State -> Result) (k : nat) (s : State) : State :=
  match k with
  | O => s
  | S k' => presses h k' (state_of (h s))
  end.

(** What the user and the window system can make happen: the two dialogs
    with their answers (lines 184-189), the two navigation actions (lines
    204 and 210), a resize of the label (line 397) and the expiry of the
    timer (line 394). *)
Inductive Event : Type :=
| EvOpenImage (chosen : string)
| EvOpenDir (chosen : string)
| EvPrev
| EvNext
| EvResize (w h : Z)
| EvTimeout.

Section Events.

Variable E : Env.

(** A navigation action does nothing while it is disabled (lines 205, 211
    and 556-557); the timer calls back only while it is active. *)
Definition handle (ev : Event) (s : State) : State :=
  match ev with
  | EvOpenImage chosen => state_of (openImage E chosen s)
  | EvOpenDir chosen => state_of (openDir E chosen s)
  | EvPrev => if navEnabled s then state_of (prevImage E s) else s
  | EvNext => if navEnabled s then state_of (nextImage E s) else s
  | EvResize w h => state_of (resizeEvent E w h s)
  | EvTimeout => if timer_isActive s then updateTimerFunc s else s
  end.

(** The states a session can be in. *)
Inductive reachable : State -> Prop :=
| reach_init (geom : Z * Z) : reachable (init geom)
| reach_step (ev : Event) (s : State) : reachable s -> reachable (handle ev s).

End Events.

(* ================================================================== *)
(** ** Outcomes of a step *)

(** What a step to index [n'] leaves behind: the index and the path of
    the entry, the image on the label when the entry loads, an exception
    when it does not, and the previous image and preview when it does not
    even open. *)
Definition stepped (E : Env) (s : State) (l : list string) (n' : Z) (r : Result) : Prop :=
  let s' := state_of r in
  exists p,
    nth_error l (Z.to_nat n') = Some p /\
    0 <= n' < Z.of_nat (List.length l) /\
    imageNumber s' = Some n' /\ dirImageList s' = Some l /\ imgFilePath s' = p /\
    (p <> "" -> loads E p = true ->
       raised r = None /\ thumbFile s' = Some p /\
       label s' = Some (MkPixmap (QPixmap p s') (fst (frame s)) (snd (frame s)) true)) /\
    (p <> "" -> loads E p = false -> raised r <> None) /\
    (forall e, p <> "" -> image_open E p = inl e ->
       raised r = Some e /\ label s' = label s /\ thumbFile s' = thumbFile s).

(* ================================================================== *)
(** ** What holds in every state *)

(** What holds of the navigation attributes in every state of a session:
    a list that is in place is not empty, and while the navigation actions
    are enabled the list and the index are set. *)
Definition nav_ready (s : State) : Prop :=
  (forall l, dirImageList s = Some l -> l <> []) /\
  (navEnabled s = true -> dirImageList s <> None /\ imageNumber s <> None).

(* ================================================================== *)
(** ** Parts of a path *)

(** The character [c] stands somewhere in [s]. *)
Definition has_char (c : ascii) (s : string) : bool :=
  existsb (Ascii.eqb c) (list_ascii_of_string s).

(** The string [x] stands somewhere in [s]. *)
Definition occurs (x s : string) : Prop := exists a b, s = a ++ x ++ b.

(** A world whose root directory holds one image. *)
Definition root_env : Env :=
  plain_env (fun d => if String.eqb d "//" then ["x.png"] else [])
            (fun _ => inr (640, 480))
            (fun _ => 0).

(* ================================================================== *)
(** ** Histories of pixmaps *)

(** The pixmap is a low-fidelity one. *)
Definition is_low (e : Z * Pixmap) : bool :=
  match quality (snd e) with
  | LowFidelity => true
  | HighFidelity => false
  end.

(** The low-fidelity pixmap a resize event asks for. *)
Definition redraw_of (origin : option string) (ev : Z * (Z * Z)) : Z * Pixmap :=
  (fst ev, MkPixmap (Preview origin) (fst (snd ev)) (snd (snd ev)) false).

(** The size given by the last event of a burst. *)
Definition last_size (evs : list (Z * (Z * Z))) : Z * Z := snd (List.last evs (0, (0, 0))).

(** The times at which a high-fidelity pixmap was set. *)
Definition high_times (h : list (Z * Pixmap)) : list Z :=
  map fst (filter (fun e => negb (is_low e)) h).

(** Every two times of the list, in order, are at least the debounce delay
    apart. *)
Definition spaced (l : list Z) : Prop :=
  StronglySorted (fun a b => a + debounce <= b) l.

(** What the resize events seen so far guarantee: [hs] are the times of
    the high-fidelity pixmaps, [now] the time of the last event. *)
Definition paced (s : State) (hs : list Z) (now : Z) : Prop :=
  spaced hs /\ Forall (fun a => a <= now) hs /\
  (forall d, timer s = Some d -> Forall (fun a => a + debounce <= d) hs).

(* ================================================================== *)
(** ** Closing the window and the configuration file *)

Module Shell.

(** [config["windowProperties"]] *)
Record WindowProperties : Type := MkWP {
  wp_width : Z;
  wp_height : Z;
  wp_x : Z;
  wp_y : Z;
  wp_bottomSplitterPanelH : Z
}.

(** The global [config]: the entries the modelled handlers read or write,
    and [cfg_rest] for all the others, which they leave alone. *)
Record Config : Type := MkConfig {
  windowProperties : WindowProperties;
  enableExitPrompt : bool;
  enableExperimentalUI : bool;
  cfg_rest : string
}.

Inductive LogLine : Type :=
| LogDisablingPrompt
| LogNotDisablingPrompt
| LogExiting
| LogNotExiting
| LogPromptDisabledExiting
| LogCritical.

(** The state these handlers work on.
    - [config]: the global dictionary;
    - [saveConfigOnExit]: the attribute of that name;
    - [geometry]: what [self.width()], [self.height()], [self.x()],
      [self.y()] and [self.bottom.height()] return;
    - [blur]: whether [blur_effect] is enabled (the effect exists when the
      experimental UI is on, and only then is it touched);
    - [userConfig]: the file [data/user/config.json], identified with the
      configuration [json.dump] wrote into it;
    - [closed]: a close event was accepted. *)
Record State : Type := MkState {
  config : Config;
  saveConfigOnExit : bool;
  geometry : WindowProperties;
  blur : bool;
  userConfig : Config;
  closed : bool;
  log : list LogLine
}.

Definition set_config (v : Config) (s : State) : State :=
  MkState v (saveConfigOnExit s) (geometry s) (blur s) (userConfig s) (closed s) (log s).

Definition set_saveConfigOnExit (v : bool) (s : State) : State :=
  MkState (config s) v (geometry s) (blur s) (userConfig s) (closed s) (log s).

Definition set_geometry (v : WindowProperties) (s : State) : State :=
  MkState (config s) (saveConfigOnExit s) v (blur s) (userConfig s) (closed s) (log s).

Definition set_blur (v : bool) (s : State) : State :=
  MkState (config s) (saveConfigOnExit s) (geometry s) v (userConfig s) (closed s) (log s).

Definition set_userConfig (v : Config) (s : State) : State :=
  MkState (config s) (saveConfigOnExit s) (geometry s) (blur s) v (closed s) (log s).

Definition set_closed (v : bool) (s : State) : State :=
  MkState (config s) (saveConfigOnExit s) (geometry s) (blur s) (userConfig s) v (log s).

Definition logline (m : LogLine) (s : State) : State :=
  MkState (config s) (saveConfigOnExit s) (geometry s) (blur s) (userConfig s) (closed s)
    (log s ++ [m]).

Definition with_windowProperties (w : WindowProperties) (c : Config) : Config :=
  MkConfig w (enableExitPrompt c) (enableExperimentalUI c) (cfg_rest c).

Definition with_enableExitPrompt (b : bool) (c : Config) : Config :=
  MkConfig (windowProperties c) b (enableExperimentalUI c) (cfg_rest c).

(** [self.blur_effect.setEnabled(b)] under [if config["experimental"]["enableExperimentalUI"]] *)
Definition blur_if_experimental (b : bool) (s : State) : State :=
  if enableExperimentalUI (config s) then set_blur b s else s.

(** [dumpJson], lines 583-586. *)
Definition dumpJson (s : State) : State := set_userConfig (config s) s.

(** [onCloseActions], lines 588-596. *)
Definition onCloseActions (s : State) : State :=
  let s := set_config (with_windowProperties (geometry s) (config s)) s in
  if saveConfigOnExit s then dumpJson s else s.

(** [closeEvent], lines 598-642.  [yes] tells whether the dialog was
    answered with Yes, [checked] whether its box was ticked; neither is
    looked at when the prompt is disabled. *)
Definition closeEvent (yes checked : bool) (s : State) : State :=
  if enableExitPrompt (config s) then
    let s := blur_if_experimental true s in
    let s := if checked
             then set_config (with_enableExitPrompt false (config (logline LogDisablingPrompt s)))
                    (logline LogDisablingPrompt s)
             else logline LogNotDisablingPrompt s in
    if yes then
      let s := logline LogExiting s in
      let s := onCloseActions s in
      set_closed true s
    else
      let s := logline LogNotExiting s in
      blur_if_experimental false s
  else
    let s := logline LogPromptDisabledExiting s in
    let s := onCloseActions s in
    set_closed true s.

Section Reset.

(** The content of [data/assets/default_config/config.json]. *)
Variable default : Config.

(** [resetConfigDialog], lines 644-683.  [self.close()] delivers a close
    event, which [closeEvent] handles at once, the prompt being disabled by
    the line before. *)
Definition resetConfigDialog (yes checked : bool) (s : State) : State :=
  let s := blur_if_experimental true s in
  let s := if checked then
             let s := set_config (with_enableExitPrompt false (config s)) s in
             let s := onCloseActions s in
             closeEvent false false s
           else s in
  if yes then
    let s := set_userConfig default s in
    set_saveConfigOnExit false s
  else blur_if_experimental false s.

(** [except_hook], lines 686-690. *)
Definition except_hook (s : State) : State :=
  onCloseActions (logline LogCritical s).

(** What can happen to the window: it is moved or resized, a close is
    requested, the reset dialog is answered, an exception reaches the
    hook. *)
Inductive Event : Type :=
| EvGeometry (w : WindowProperties)
| EvClose (yes checked : bool)
| EvReset (yes checked : bool)
| EvException.

Definition handle (ev : Event) (s : State) : State :=
  match ev with
  | EvGeometry w => set_geometry w s
  | EvClose yes checked => closeEvent yes checked s
  | EvReset yes checked => resetConfigDialog yes checked s
  | EvException => except_hook s
  end.

Fixpoint run (evs : list Event) (s : State) : State :=
  match evs with
  | [] => s
  | ev :: evs' => run evs' (handle ev s)
  end.

End Reset.

(** A session with the exit prompt on, as [__init__] leaves it. *)
Definition sample : State :=
  MkState (MkConfig (MkWP 1280 720 0 0 150) true true "theme")
          true (MkWP 1024 768 40 30 120) false
          (MkConfig (MkWP 1280 720 0 0 150) true true "theme") false [].

Definition sample_default : Config := MkConfig (MkWP 800 600 100 100 200) true false "theme".

End Shell.

(* ================================================================== *)
(** ** [StreamToLogger]

    The text written to [sys.stderr] is modelled for ASCII characters;
    [str.isspace] and the line boundaries of [str.splitlines] are the ASCII
    ones. *)

Module Stream.

(** [c.isspace()] for an ASCII character: tab, line feed, vertical tab,
    form feed, carriage return, the separators 28 to 31, and space. *)
Definition isspace (c : ascii) : bool :=
  let n := N_of_ascii c in
  ((9 <=? n) && (n <=? 13) || (28 <=? n) && (n <=? 31) || (n =? 32))%N.

(** The ASCII characters at which [str.splitlines] ends a line: line feed,
    vertical tab, form feed, carriage return, and the separators 28 to
    30. *)
Definition is_linebreak (c : ascii) : bool :=
  let n := N_of_ascii c in
  ((10 <=? n) && (n <=? 13) || (28 <=? n) && (n <=? 30))%N.

(** The text is white space only. *)
Definition blank (s : string) : bool := forallb isspace (list_ascii_of_string s).

(** The text holds no line end. *)
Definition one_line (s : string) : bool :=
  forallb (fun c => negb (is_linebreak c)) (list_ascii_of_string s).

(** Every character of the text is an ASCII character. *)
Definition ascii_only (s : string) : bool :=
  forallb (fun c => (N_of_ascii c <? 128)%N) (list_ascii_of_string s).

(** [s.rstrip()] *)
Fixpoint rstrip (s : string) : string :=
  match s with
  | EmptyString => EmptyString
  | String c s' =>
      match rstrip s' with
      | EmptyString => if isspace c then EmptyString else String c EmptyString
      | r => String c r
      end
  end.

(** [s.splitlines()], [cur] being the line read so far: a carriage return
    followed by a line feed ends one line, and no empty line is added
    after the last line end. *)
Fixpoint splitlines_from (cur s : string) : list string :=
  match s with
  | EmptyString => match cur with EmptyString => [] | _ => [cur] end
  | String c s' =>
      if Ascii.eqb c "013" then
        match s' with
        | String c' s'' =>
            if Ascii.eqb c' "010" then cur :: splitlines_from "" s''
            else cur :: splitlines_from "" s'
        | EmptyString => cur :: splitlines_from "" s'
        end
      else if is_linebreak c then cur :: splitlines_from "" s'
      else splitlines_from (cur ++ String c "") s'
  end.

Definition splitlines (s : string) : list string := splitlines_from "" s.

(** [StreamToLogger.write], lines 1143-1145: the records handed to
    [self.logger.log], each with [self.level]. *)
Definition write (level : Z) (buf : string) (records : list (Z * string)) : list (Z * string) :=
  (records ++ map (fun line => (level, rstrip line)) (splitlines (rstrip buf)))%list.

End Stream.

(* ================================================================== *)
(** ** The model at work *)

Example lower_ex : lower Sample.env "/Pics/B.PNG" = "/pics/b.png".
Proof. reflexivity. Qed.

Example has_magic_ex :
  Str.has_magic "/v/p[1]" = true /\ Str.has_magic "/home/u/pics" = false.
Proof. split; reflexivity. Qed.

Example basename_ex : Str.basename "/home/u/pics/a.png" = "a.png".
Proof. reflexivity. Qed.

Example replace_ex : Str.replace "a.png" "" "/a.png/a.png" = "//".
Proof. reflexivity. Qed.

Example replace_bs_ex : Str.replace "\" "/" "C:\pics\a.png" = "C:/pics/a.png".
Proof. reflexivity. Qed.

Example split_head_ex :
  Str.split_head "/home/u/pics/" = "/home/u/pics" /\ Str.split_head "" = "/".
Proof. split; reflexivity. Qed.

Example fnmatch_ex :
  Str.fnmatch "*.png" "a.png" = true /\ Str.fnmatch "*.png" "a.PNG" = false /\
  Str.fnmatch "*.jpg" "a.jpeg" = false.
Proof. repeat split; reflexivity. Qed.

Example sort_ex :
  Py.sort (lower Sample.env) ["/d/B.png"; "/d/a.jpg"; "/d/C.gif"]
  = ["/d/a.jpg"; "/d/B.png"; "/d/C.gif"].
Proof. reflexivity. Qed.

Example sort_stable_ex :
  Py.sort (lower Sample.env) ["/d/A.png"; "/d/b.png"; "/d/a.png"]
  = ["/d/A.png"; "/d/a.png"; "/d/b.png"].
Proof. reflexivity. Qed.

Example getitem_ex : Py.getitem ["a"; "b"; "c"] (-1) = Some "c" /\ Py.getitem ["a"; "b"; "c"] 3 = None.
Proof. split; reflexivity. Qed.

Example scan_ex : scan Sample.env "/d/" = ["/d/a.jpg"; "/d/B.png"; "/d/C.gif"].
Proof. reflexivity. Qed.

(** A directory whose name holds a wildcard character is read as a
    pattern: the scan of [/v/p[1]] lists the image of [/v/p1] and not the
    one of [/v/p[1]]. *)
Example scan_pattern_directory_ex :
  listdir Sample.bracket_env "/v/p[1]" = ["b.png"] /\
  scan Sample.bracket_env "/v/p[1]" = ["/v/p1/a.png"].
Proof. split; reflexivity. Qed.

(** An image that opens and cannot be saved as PNG: the selection raises
    after [imWidth] and [imTOut] were assigned, the preview of the image
    shown before is lost, and the label still shows that image. *)
Example save_failure_ex :
  let r := selectImage Sample.cmyk_env "/d/a.jpg" Sample.opened in
  image_open Sample.cmyk_env "/d/a.jpg" = inr (1000, 800) /\
  raised r = Some OSError /\
  imgFilePath (state_of r) = "/d/a.jpg" /\
  thumbFile Sample.opened = Some "/d/B.png" /\ thumbFile (state_of r) = None /\
  label (state_of r) = label Sample.opened.
Proof. vm_compute. repeat split. Qed.

Example opened_ex :
  dirImageList Sample.opened = Some ["/d/a.jpg"; "/d/B.png"; "/d/C.gif"] /\
  imageNumber Sample.opened = Some 1 /\
  imgFilePath Sample.opened = "/d/B.png" /\
  option_map quality (label Sample.opened) = Some HighFidelity /\
  timer Sample.opened = None.
Proof. repeat split; reflexivity. Qed.

Example resizing_ex :
  timer Sample.resizing = Some 260 /\
  option_map quality (label Sample.resizing) = Some LowFidelity.
Proof. split; reflexivity. Qed.

(* ================================================================== *)
(** ** What [updateFunction] touches *)

Section Frames.

Variable E : Env.

Lemma updateFunction_blank (i : Z) (s : State) :
  imgFilePath s = "" ->
  updateFunction E i s = Ok (set_mw (fst (frame s)) (snd (frame s)) s).
Proof.
  intros H. unfold updateFunction. cbn [imgFilePath set_mw]. rewrite H. reflexivity.
Qed.

Lemma updateFunction_0_fails (s : State) (e : exn) :
  imgFilePath s <> "" ->
  image_open E (imgFilePath s) = inl e ->
  updateFunction E 0 s = Raise e (set_mw (fst (frame s)) (snd (frame s)) s).
Proof.
  intros Hp He. unfold updateFunction. cbn [imgFilePath set_mw].
  apply String.eqb_neq in Hp. rewrite Hp. cbn. rewrite He. reflexivity.
Qed.

(** [updateFunction] never writes the navigation attributes, the log or
    the scan counter, and with [i = 0] it never touches the timer. *)
Lemma updateFunction_nav (i : Z) (s : State) :
  let s' := state_of (updateFunction E i s) in
  dirPath s' = dirPath s /\ imgFilePath s' = imgFilePath s /\
  dirImageList s' = dirImageList s /\ imageNumber s' = imageNumber s /\
  log s' = log s /\ scans s' = scans s /\ clock s' = clock s /\
  (i = 0 -> timer s' = timer s).
Proof.
  unfold updateFunction. cbn [imgFilePath set_mw].
  destruct (String.eqb (imgFilePath s) ""); cbn; [ repeat split; reflexivity | ].
  destruct (i =? 0) eqn:Hi.
  - destruct (image_open E (imgFilePath s)) as [e | [w h]]; cbn;
      [ repeat split; reflexivity | ].
    destruct (thumbnail E (imgFilePath s)); cbn; [ repeat split; reflexivity | ].
    destruct (save E (imgFilePath s)) as [ | e [ | ]]; cbn;
      [ | repeat split; reflexivity | repeat split; reflexivity ].
    destruct (getmtime E (imgFilePath s)); cbn; repeat split; reflexivity.
  - apply Z.eqb_neq in Hi.
    destruct (i =? 1).
    + unfold timer_isActive, timer_start. cbn.
      destruct (timer s); cbn; destruct (imTOut s); cbn;
        repeat split; intros; try reflexivity; contradiction.
    + cbn. repeat split; intros; reflexivity.
Qed.

Lemma selectImage_nav (p : string) (s : State) :
  let s' := state_of (selectImage E p s) in
  dirPath s' = dirPath s /\ imgFilePath s' = p /\
  dirImageList s' = dirImageList s /\ imageNumber s' = imageNumber s /\
  log s' = log s /\ scans s' = scans s /\ clock s' = clock s /\ timer s' = timer s.
Proof.
  unfold selectImage.
  destruct (updateFunction_nav 0 (set_imgFilePath p s)) as (A & B & C & D & F & G & H & I).
  cbn in *. repeat split; auto.
Qed.

Lemma show_current_nav (s : State) :
  let s' := state_of (show_current E s) in
  dirPath s' = dirPath s /\ dirImageList s' = dirImageList s /\
  imageNumber s' = imageNumber s /\ scans s' = scans s /\ timer s' = timer s.
Proof.
  unfold show_current.
  destruct (dirImageList s) as [l|] eqn:Hl; [ | cbn; rewrite Hl; auto ].
  destruct (imageNumber s) as [n|] eqn:Hn; [ | cbn; rewrite Hl, Hn; auto ].
  destruct (Py.getitem l n) as [p|]; [ | cbn; rewrite Hl, Hn; auto ].
  destruct (selectImage_nav p s) as (A & B & C & D & F & G & H & I).
  cbn in *. rewrite A, C, D, G, I, Hl, Hn. auto.
Qed.

End Frames.

(* ================================================================== *)
(** ** Stepping through the list *)

Section Stepping.

Variable E : Env.

Lemma nextImage_index (s : State) (l : list string) (n : Z) :
  dirImageList s = Some l ->
  imageNumber s = Some n ->
  let s' := state_of (nextImage E s) in
  imageNumber s' = Some (if n =? Z.of_nat (List.length l) - 1 then 0 else n + 1) /\
  dirImageList s' = Some l.
Proof.
  intros Hl Hn. unfold nextImage. rewrite Hn. cbn [dirImageList logmsg]. rewrite Hl.
  match goal with |- context [show_current E ?t] =>
    destruct (show_current_nav E t) as (_ & B & C & _) end.
  cbv zeta. rewrite B, C.
  destruct (n =? Z.of_nat (List.length l) - 1); cbn; auto.
Qed.

Lemma prevImage_index (s : State) (l : list string) (n : Z) :
  dirImageList s = Some l ->
  imageNumber s = Some n ->
  let s' := state_of (prevImage E s) in
  imageNumber s' = Some (if n =? 0 then Z.of_nat (List.length l) - 1 else n - 1) /\
  dirImageList s' = Some l.
Proof.
  intros Hl Hn. unfold prevImage. rewrite Hn. cbn [dirImageList logmsg]. rewrite Hl.
  destruct (n =? 0); cbn [negb bind];
    match goal with |- context [show_current E ?t] =>
      destruct (show_current_nav E t) as (_ & B & C & _) end;
    cbv zeta; rewrite B, C; cbn; auto.
Qed.

End Stepping.

(** C8. With a non-empty list, [nextImage] moves the index from the last
    position to 0 and otherwise adds one; [prevImage] moves it from 0 to
    the last position and otherwise subtracts one.  The index is written
    before the image is loaded, so this holds whether or not the load
    raises. *)
Theorem next_prev_wraparound (E : Env) (s : State) (l : list string) (n : Z) :
  dirImageList s = Some l ->
  l <> [] ->
  imageNumber s = Some n ->
  let last := Z.of_nat (List.length l) - 1 in
  imageNumber (state_of (nextImage E s)) = Some (if n =? last then 0 else n + 1) /\
  imageNumber (state_of (prevImage E s)) = Some (if n =? 0 then last else n - 1).
Proof.
  intros Hl _ Hn last. split.
  - apply (nextImage_index E s l n Hl Hn).
  - apply (prevImage_index E s l n Hl Hn).
Qed.

Lemma next_prev_wraparound_witness :
  dirImageList Sample.opened = Some ["/d/a.jpg"; "/d/B.png"; "/d/C.gif"] /\
  imageNumber Sample.opened = Some 1 /\
  imageNumber (state_of (nextImage Sample.env Sample.opened)) = Some 2 /\
  imageNumber (state_of (prevImage Sample.env Sample.opened)) = Some 0.
Proof.
  split; [ reflexivity | split; [ reflexivity | ] ].
  apply (next_prev_wraparound Sample.env Sample.opened
           ["/d/a.jpg"; "/d/B.png"; "/d/C.gif"] 1); [ reflexivity | discriminate | reflexivity ].
Defined.

(** C9. With a non-empty list and a valid index, [nextImage] followed by
    [prevImage] brings the index back, and so does [prevImage] followed by
    [nextImage]. *)
Theorem next_prev_roundtrip (E : Env) (s : State) (l : list string) (n : Z) :
  dirImageList s = Some l ->
  imageNumber s = Some n ->
  0 <= n < Z.of_nat (List.length l) ->
  imageNumber (state_of (prevImage E (state_of (nextImage E s)))) = Some n /\
  imageNumber (state_of (nextImage E (state_of (prevImage E s)))) = Some n.
Proof.
  intros Hl Hn Hr. split.
  - destruct (nextImage_index E s l n Hl Hn) as [A B].
    destruct (prevImage_index E _ l _ B A) as [C _]. rewrite C. f_equal.
    destruct (n =? Z.of_nat (List.length l) - 1) eqn:H1.
    + apply Z.eqb_eq in H1. rewrite Z.eqb_refl. lia.
    + apply Z.eqb_neq in H1. destruct (n + 1 =? 0) eqn:H2; [ apply Z.eqb_eq in H2 | ]; lia.
  - destruct (prevImage_index E s l n Hl Hn) as [A B].
    destruct (nextImage_index E _ l _ B A) as [C _]. rewrite C. f_equal.
    destruct (n =? 0) eqn:H1.
    + apply Z.eqb_eq in H1. rewrite Z.eqb_refl. lia.
    + apply Z.eqb_neq in H1.
      destruct (n - 1 =? Z.of_nat (List.length l) - 1) eqn:H2; [ apply Z.eqb_eq in H2 | ]; lia.
Qed.

Lemma next_prev_roundtrip_witness :
  0 <= 2 < Z.of_nat (List.length ["/d/a.jpg"; "/d/B.png"; "/d/C.gif"]) /\
  imageNumber
    (state_of (prevImage Sample.env
       (state_of (nextImage Sample.env (set_imageNumber (Some 2) Sample.opened))))) = Some 2 /\
  imageNumber
    (state_of (nextImage Sample.env
       (state_of (prevImage Sample.env (set_imageNumber (Some 2) Sample.opened))))) = Some 2.
Proof.
  split; [ cbn; lia | ].
  apply (next_prev_roundtrip Sample.env (set_imageNumber (Some 2) Sample.opened)
           ["/d/a.jpg"; "/d/B.png"; "/d/C.gif"] 2); [ reflexivity | reflexivity | cbn; lia ].
Defined.

(* ================================================================== *)
(** ** Updates without an image *)

(** C10. While [imgFilePath] is the empty string, [updateFunction(i)]
    raises nothing and only records the size of the label in [mwWidth] and
    [mwHeight]: no pixmap is set, the preview file and [imTOut] are not
    written, and the timer is not started. *)
Theorem updateFunction_no_image_is_noop (E : Env) (i : Z) (s : State) :
  imgFilePath s = "" ->
  let r := updateFunction E i s in
  raised r = None /\
  state_of r = set_mw (fst (frame s)) (snd (frame s)) s /\
  label (state_of r) = label s /\
  shown (state_of r) = shown s /\
  thumbFile (state_of r) = thumbFile s /\
  imTOut (state_of r) = imTOut s /\
  timer (state_of r) = timer s.
Proof.
  intros H r. subst r. rewrite (updateFunction_blank E i s H). cbn. repeat split.
Qed.

Lemma updateFunction_no_image_is_noop_witness :
  imgFilePath (init (800, 600)) = "" /\
  raised (updateFunction Sample.env 1 (init (800, 600))) = None /\
  shown (state_of (updateFunction Sample.env 1 (init (800, 600)))) = [] /\
  timer (state_of (updateFunction Sample.env 1 (init (800, 600)))) = None.
Proof.
  split; [ reflexivity | ].
  destruct (updateFunction_no_image_is_noop Sample.env 1 (init (800, 600)) eq_refl)
    as (A & _ & _ & B & _ & _ & C).
  split; [ exact A | split; [ exact B | exact C ] ].
Defined.

(* ================================================================== *)
(** ** Selecting an image *)




(* ================================================================== *)
(** ** Rescans *)

Section Rescans.

Variable E : Env.

Lemma dirMakeImageList_empty (h : Z) (s : State) :
  scan E (dirPath s) = [] ->
  dirMakeImageList E h s = Ok (logmsg LogListEmpty (count_scan s)).
Proof.
  intros H. unfold dirMakeImageList. cbn [dirPath count_scan]. rewrite H. reflexivity.
Qed.

Lemma dirMakeImageList_absent (s : State) :
  scan E (dirPath s) <> [] ->
  Py.index (imgFilePath s) (scan E (dirPath s)) = None ->
  let r := dirMakeImageList E 1 s in
  raised r = Some ValueError /\
  dirImageList (state_of r) = Some (scan E (dirPath s)) /\
  imageNumber (state_of r) = imageNumber s.
Proof.
  intros Hne Hidx. unfold dirMakeImageList. cbn [dirPath count_scan].
  destruct (scan E (dirPath s)) as [|x l] eqn:Hs; [ congruence | ].
  cbn. cbn in Hidx. rewrite Hidx. cbn. auto.
Qed.

Lemma dirMakeImageList_timer (h : Z) (s : State) :
  timer (state_of (dirMakeImageList E h s)) = timer s.
Proof.
  unfold dirMakeImageList. cbn [dirPath count_scan].
  destruct (scan E (dirPath s)) as [|x l]; [ reflexivity | ].
  cbn [List.length Nat.eqb negb].
  assert (Hshow : forall n s1,
    timer (state_of
      match Py.getitem (x :: l) n with
      | Some p => selectImage E p (set_imageNumber (Some n) s1)
                    >>= fun s2 => Ok (set_navEnabled true s2)
      | None => Raise IndexError (set_imageNumber (Some n) s1)
      end) = timer s1).
  { intros n s1. destruct (Py.getitem (x :: l) n) as [p|]; [ | reflexivity ].
    pose proof (selectImage_nav E p (set_imageNumber (Some n) s1)) as H.
    destruct H as (_ & _ & _ & _ & _ & _ & _ & H).
    destruct (selectImage E p (set_imageNumber (Some n) s1)); cbn in *; exact H. }
  cbv zeta. destruct (h =? 1).
  - match goal with |- context [Py.index ?a ?b] => destruct (Py.index a b) end;
      [ rewrite Hshow | ]; reflexivity.
  - rewrite Hshow. reflexivity.
Qed.

End Rescans.

(** C5. When a rescan finds no image while a list with a valid index is in
    place, [dirMakeImageList] raises nothing, leaves [dirImageList] and
    [imageNumber] as they were, and reports the empty result in the log
    (the line "Succesfully created dirImageList_, but it's empty! ..."). *)
Theorem empty_rescan_keeps_selection
    (E : Env) (hasOpenedImage : Z) (s : State) (l : list string) (n : Z) :
  dirImageList s = Some l ->
  l <> [] ->
  imageNumber s = Some n ->
  0 <= n < Z.of_nat (List.length l) ->
  scan E (dirPath s) = [] ->
  let r := dirMakeImageList E hasOpenedImage s in
  raised r = None /\
  dirImageList (state_of r) = Some l /\
  imageNumber (state_of r) = Some n /\
  log (state_of r) = (log s ++ [LogListEmpty])%list.
Proof.
  intros Hl _ Hn _ Hs r. subst r. rewrite (dirMakeImageList_empty E _ s Hs).
  cbn. auto.
Qed.

Lemma empty_rescan_keeps_selection_witness :
  scan Sample.env (dirPath (set_dirPath "/x" Sample.opened)) = [] /\
  raised (dirMakeImageList Sample.env 0 (set_dirPath "/x" Sample.opened)) = None /\
  dirImageList (state_of (dirMakeImageList Sample.env 0 (set_dirPath "/x" Sample.opened)))
    = Some ["/d/a.jpg"; "/d/B.png"; "/d/C.gif"] /\
  imageNumber (state_of (dirMakeImageList Sample.env 0 (set_dirPath "/x" Sample.opened)))
    = Some 1.
Proof.
  split; [ reflexivity | ].
  destruct (empty_rescan_keeps_selection Sample.env 0 (set_dirPath "/x" Sample.opened)
              ["/d/a.jpg"; "/d/B.png"; "/d/C.gif"] 1) as (A & B & C & _);
    [ reflexivity | discriminate | reflexivity | cbn; lia | reflexivity | ].
  split; [ exact A | split; [ exact B | exact C ] ].
Defined.

(* ================================================================== *)
(** ** The timer across a selection *)

Section TimerFrames.

Variable E : Env.

Lemma openImage_timer (chosen : string) (s : State) :
  timer (state_of (openImage E chosen s)) = timer s.
Proof.
  unfold openImage. cbn [imgFilePath set_imgFilePath dirPath logmsg].
  destruct (String.eqb chosen ""); [ reflexivity | ]. cbn [negb].
  destruct (String.eqb (dirPath s) ""); cbn [negb].
  - rewrite dirMakeImageList_timer. reflexivity.
  - destruct (String.eqb (dirPath s) (image_dir chosen)); cbn [negb].
    + fields. destruct (dirImageList s) as [l|]; [ | reflexivity ].
      destruct (Py.index chosen l); reflexivity.
    + rewrite dirMakeImageList_timer. reflexivity.
Qed.

Lemma openDir_timer (chosen : string) (s : State) :
  timer (state_of (openDir E chosen s)) = timer s.
Proof.
  unfold openDir. cbn [dirPath logmsg].
  destruct (String.eqb chosen ""); [ reflexivity | ]. cbn [negb].
  destruct (String.eqb (dirPath s) ""); cbn [negb].
  - rewrite dirMakeImageList_timer. reflexivity.
  - destruct (String.eqb (dirPath s) chosen); cbn [negb]; [ reflexivity | ].
    rewrite dirMakeImageList_timer. reflexivity.
Qed.

Lemma nextImage_timer (s : State) :
  timer (state_of (nextImage E s)) = timer s.
Proof.
  unfold nextImage. destruct (imageNumber s) as [n|]; [ | reflexivity ].
  cbn [dirImageList logmsg]. destruct (dirImageList s) as [l|]; [ | reflexivity ].
  match goal with |- context [show_current E ?t] =>
    destruct (show_current_nav E t) as (_ & _ & _ & _ & T) end.
  cbv zeta. rewrite T. destruct (n =? Z.of_nat (List.length l) - 1); reflexivity.
Qed.

Lemma prevImage_timer (s : State) :
  timer (state_of (prevImage E s)) = timer s.
Proof.
  unfold prevImage. destruct (imageNumber s) as [n|]; [ | reflexivity ].
  destruct (n =? 0); cbn [negb bind].
  - cbn [dirImageList logmsg]. destruct (dirImageList s) as [l|]; [ | reflexivity ].
    cbn [bind].
    match goal with |- context [show_current E ?t] =>
      destruct (show_current_nav E t) as (_ & _ & _ & _ & T) end.
    cbv zeta. rewrite T. reflexivity.
  - match goal with |- context [show_current E ?t] =>
      destruct (show_current_nav E t) as (_ & _ & _ & _ & T) end.
    cbv zeta. rewrite T. reflexivity.
Qed.

End TimerFrames.

(** C4 (as the code has it).  No selection disarms the timer:
    [selectImage] and the four handlers that reach it ([openImage],
    [openDir], [nextImage], [prevImage]) leave the timer exactly as it was,
    so a timer armed before the selection is still armed, with the same
    deadline, after the new image is loaded.  When it expires,
    [updateTimerFunc] shows the image now selected, scaled smoothly to the
    last recorded size of the label, and stops the timer. *)
Theorem selection_keeps_timer (E : Env) (s : State) (p : string) :
  timer (state_of (selectImage E p s)) = timer s /\
  timer (state_of (openImage E p s)) = timer s /\
  timer (state_of (openDir E p s)) = timer s /\
  timer (state_of (nextImage E s)) = timer s /\
  timer (state_of (prevImage E s)) = timer s /\
  label (updateTimerFunc s)
    = Some (MkPixmap (QPixmap (imgFilePath s) s) (mwWidth s) (mwHeight s) true) /\
  timer (updateTimerFunc s) = None.
Proof.
  split; [ apply (selectImage_nav E p s) | ].
  split; [ apply openImage_timer | ].
  split; [ apply openDir_timer | ].
  split; [ apply nextImage_timer | ].
  split; [ apply prevImage_timer | ].
  split; reflexivity.
Qed.

(** A timer armed while [/d/B.png] was shown is still armed after
    [prevImage] has selected and loaded [/d/a.jpg], and then fires for
    [/d/a.jpg]. *)
Lemma armed_timer_survives_selection :
  timer Sample.resizing = Some 260 /\
  imgFilePath Sample.resizing = "/d/B.png" /\
  raised (prevImage Sample.env Sample.resizing) = None /\
  imgFilePath (state_of (prevImage Sample.env Sample.resizing)) = "/d/a.jpg" /\
  timer (state_of (prevImage Sample.env Sample.resizing)) <> None /\
  option_map pix_src
    (label (settle (state_of (prevImage Sample.env Sample.resizing))))
    = Some (Original "/d/a.jpg").
Proof. repeat split; try reflexivity. cbv. discriminate. Qed.

(* ================================================================== *)
(** ** Opening an image *)

Lemma index_first (x : string) (l : list string) (i : Z) :
  Py.index x l = Some i ->
  0 <= i < Z.of_nat (List.length l) /\
  nth_error l (Z.to_nat i) = Some x /\
  forall j, (j < Z.to_nat i)%nat -> nth_error l j <> Some x.
Proof.
  revert i. induction l as [|y l IH]; intros i H; [ discriminate | ].
  cbn [Py.index] in H. destruct (String.eqb y x) eqn:Hy.
  - apply String.eqb_eq in Hy. inversion H; subst. cbn. repeat split; lia.
  - destruct (Py.index x l) as [k|] eqn:Hk; [ | discriminate ].
    inversion H; subst. destruct (IH k eq_refl) as (A & B & C).
    replace (Z.to_nat (k + 1)) with (S (Z.to_nat k)) by lia.
    cbn [List.length nth_error]. repeat split; try lia; [ exact B | ].
    intros [|j] Hj; cbn.
    + apply String.eqb_neq in Hy. congruence.
    + apply C. lia.
Qed.

Lemma index_absent (x : string) (l : list string) :
  Py.index x l = None <-> ~ In x l.
Proof.
  induction l as [|y l IH]; cbn; [ tauto | ].
  destruct (String.eqb y x) eqn:Hy.
  - apply String.eqb_eq in Hy. split; [ discriminate | tauto ].
  - apply String.eqb_neq in Hy. destruct (Py.index x l).
    + split; [ discriminate | ]. intros H. exfalso. apply H. right.
      destruct IH as [_ IH]. destruct (in_dec string_dec x l); [ assumption | ].
      specialize (IH n). discriminate.
    + split; [ | reflexivity ]. intros _ [H | H]; [ congruence | ].
      destruct IH as [IH _]. exact (IH eq_refl H).
Qed.

Lemma image_dir_blank : image_dir "" = "".
Proof. reflexivity. Qed.

(** The branch that walks no directory (lines 497-498): it is taken when
    [dirPath] is, character by character, the string of line 484. *)
Lemma openImage_same_dir (E : Env) (p : string) (s : State) (l : list string) :
  dirPath s <> "" ->
  image_dir p = dirPath s ->
  dirImageList s = Some l ->
  let r := openImage E p s in
  scans (state_of r) = scans s /\
  dirImageList (state_of r) = Some l /\
  match Py.index p l with
  | Some i => raised r = None /\ imageNumber (state_of r) = Some i
  | None => raised r = Some ValueError /\ imageNumber (state_of r) = imageNumber s
  end.
Proof.
  intros Hd Hp Hl r. subst r.
  assert (Hne : p <> "") by (intros ->; rewrite image_dir_blank in Hp; congruence).
  unfold openImage. cbn [imgFilePath set_imgFilePath dirPath logmsg].
  apply String.eqb_neq in Hne. rewrite Hne. cbn [negb].
  apply String.eqb_neq in Hd. rewrite Hd. cbn [negb].
  rewrite <- Hp, String.eqb_refl. cbn [negb]. fields. rewrite Hl.
  destruct (Py.index p l); cbn; auto.
Qed.

(** C7 (where the code departs from it).  The directory part that
    [openImage] compares with [dirPath] is the string of line 484, which
    ends in a slash, while [openDir] stores the directory as the dialog
    gives it, without one.  After [openDir] of [/d], opening [/d/a.jpg],
    an image of that very directory, finds two different strings, takes
    the branch "dirPath and dirPath_ aren't the same" and walks the
    directory again, building the same list; the index is set to the
    position of the path.  Only the image opened after that, with
    [dirPath] now [/d/], is found without a walk. *)
Theorem openImage_after_openDir_rescans :
  let s := state_of (openDir Sample.env "/d" (init (800, 600))) in
  let r := openImage Sample.env "/d/a.jpg" s in
  dirPath s = "/d" /\ Str.join (dirPath s) "a.jpg" = "/d/a.jpg" /\
  dirImageList s = Some ["/d/a.jpg"; "/d/B.png"; "/d/C.gif"] /\
  scans s = 1%nat /\
  image_dir "/d/a.jpg" = "/d/" /\
  raised r = None /\
  scans (state_of r) = 2%nat /\
  dirPath (state_of r) = "/d/" /\
  dirImageList (state_of r) = dirImageList s /\
  imageNumber (state_of r) = Some 0 /\
  scans (state_of (openImage Sample.env "/d/B.png" (state_of r))) = 2%nat /\
  imageNumber (state_of (openImage Sample.env "/d/B.png" (state_of r))) = Some 1.
Proof. vm_compute. repeat split. Qed.

Lemma openImage_rescans (E : Env) (p : string) (s : State) :
  p <> "" ->
  dirPath s = "" \/ dirPath s <> image_dir p ->
  exists s1,
    openImage E p s = dirMakeImageList E 1 s1 /\
    dirPath s1 = image_dir p /\ imgFilePath s1 = p /\
    dirImageList s1 = dirImageList s /\ imageNumber s1 = imageNumber s.
Proof.
  intros Hp Hd. unfold openImage. fields.
  apply String.eqb_neq in Hp. rewrite Hp. cbn [negb].
  destruct (String.eqb (dirPath s) "") eqn:H0; cbn [negb].
  - eexists. split; [ reflexivity | ]. fields. auto.
  - destruct Hd as [Hd | Hd]; [ apply String.eqb_neq in H0; congruence | ].
    apply String.eqb_neq in Hd. rewrite Hd. cbn [negb].
    eexists. split; [ reflexivity | ]. fields. auto.
Qed.

(** C6 (as the code has it).  For a chosen path that the list in the end
    does not hold:
    - when the rescan finds images but not the path, [list.index] raises
      [ValueError], which [openImage] does not catch; the new list is
      already in place and [imageNumber] keeps its old value;
    - when the rescan finds no image at all, [openImage] returns normally
      and leaves list and index untouched;
    - when no rescan is made and the list in place lacks the path,
      [list.index] raises [ValueError] likewise. *)
Theorem openImage_absent_path (E : Env) (p : string) (s : State) :
  p <> "" ->
  let r := openImage E p s in
  let d := image_dir p in
  (dirPath s = "" \/ dirPath s <> d ->
     (scan E d <> [] -> ~ In p (scan E d) ->
        raised r = Some ValueError /\
        dirImageList (state_of r) = Some (scan E d) /\
        imageNumber (state_of r) = imageNumber s) /\
     (scan E d = [] ->
        raised r = None /\
        dirImageList (state_of r) = dirImageList s /\
        imageNumber (state_of r) = imageNumber s)) /\
  (dirPath s <> "" -> dirPath s = d ->
     forall l, dirImageList s = Some l -> ~ In p l ->
        raised r = Some ValueError /\
        dirImageList (state_of r) = Some l /\
        imageNumber (state_of r) = imageNumber s).
Proof.
  intros Hp r d. split.
  - intros Hd. destruct (openImage_rescans E p s Hp Hd) as (s1 & Hr & A & B & C & D).
    subst r d. rewrite Hr. split.
    + intros Hne Hin. apply index_absent in Hin.
      rewrite <- A, <- B in Hin. rewrite <- A in Hne.
      destruct (dirMakeImageList_absent E s1 Hne Hin) as (X & Y & Z).
      rewrite X, Y, Z, A, D. auto.
    + intros Hs. rewrite <- A in Hs. rewrite (dirMakeImageList_empty E 1 s1 Hs).
      cbn. auto.
  - intros Hd Hsame l Hl Hin. apply index_absent in Hin.
    destruct (openImage_same_dir E p s l Hd (eq_sym Hsame) Hl) as (_ & A & B).
    fold r in A, B. rewrite Hin in B. destruct B as [B1 B2]. auto.
Qed.

Lemma openImage_absent_path_witness :
  "/d/notes.txt" <> "" /\
  ~ In "/d/notes.txt" (scan Sample.env (image_dir "/d/notes.txt")) /\
  raised (openImage Sample.env "/d/notes.txt" (init (800, 600))) = Some ValueError.
Proof.
  assert (Hp : "/d/notes.txt" <> "") by discriminate.
  assert (Hin : ~ In "/d/notes.txt" (scan Sample.env (image_dir "/d/notes.txt"))).
  { apply index_absent. reflexivity. }
  split; [ exact Hp | split; [ exact Hin | ] ].
  destruct (openImage_absent_path Sample.env "/d/notes.txt" (init (800, 600)) Hp) as [A _].
  destruct (A (or_introl eq_refl)) as [B _].
  apply B; [ discriminate | exact Hin ].
Defined.

(** A path the list does not hold, and no error of any kind: after
    [/d/B.png] was opened, choosing [/x/notes.txt] (a directory without
    images) makes [openImage] return normally. *)
Lemma openImage_absent_path_no_error :
  dirImageList (state_of (openImage Sample.env "/x/notes.txt" Sample.opened))
    = Some ["/d/a.jpg"; "/d/B.png"; "/d/C.gif"] /\
  ~ In "/x/notes.txt" ["/d/a.jpg"; "/d/B.png"; "/d/C.gif"] /\
  raised (openImage Sample.env "/x/notes.txt" Sample.opened) = None.
Proof.
  split; [ reflexivity | split; [ | reflexivity ] ].
  apply index_absent. reflexivity.
Qed.

(* ================================================================== *)
(** ** Bursts of resize events *)

Lemma upgrade_times_lows (lows : list (Z * Pixmap)) (d : Z) (hi : Pixmap) :
  lows <> [] ->
  all_low lows ->
  quality hi = HighFidelity ->
  upgrade_times (lows ++ [(d, hi)]) = [d].
Proof.
  intros Hne Hlow Hhi. induction lows as [|[t1 p1] lows IH]; [ congruence | ].
  inversion Hlow as [|? ? H1 Hrest]; subst. cbn in H1.
  destruct lows as [|[t2 p2] lows'].
  - cbn. rewrite H1, Hhi. reflexivity.
  - inversion Hrest as [|? ? H2 _]; subst. cbn in H2.
    change (upgrade_times (((t1, p1) :: (t2, p2) :: lows') ++ [(d, hi)]))
      with (match quality p1, quality p2 with
            | LowFidelity, HighFidelity => t2 :: upgrade_times (((t2, p2) :: lows') ++ [(d, hi)])
            | _, _ => upgrade_times (((t2, p2) :: lows') ++ [(d, hi)])
            end).
    rewrite H1, H2. apply IH; [ discriminate | assumption ].
Qed.

Lemma shown_since_app (s s' : State) (h : list (Z * Pixmap)) :
  shown s' = (shown s ++ h)%list -> shown_since s s' = h.
Proof.
  intros H. unfold shown_since. rewrite H.
  rewrite skipn_app, skipn_all, Nat.sub_diag. reflexivity.
Qed.

Section Burst.

Variable E : Env.

Lemma deliver_resize_arms (t : Z) (wh : Z * Z) (s : State) :
  imgFilePath s <> "" ->
  imTOut s = Some thumb_path ->
  timer s = None ->
  let s' := deliver_resize E t wh s in
  timer s' = Some (t + debounce) /\ same_selection s s' /\
  shown s' = (shown s ++ [(t, MkPixmap (Preview (thumbFile s)) (fst wh) (snd wh) false)])%list.
Proof.
  intros Hp Ho Ht. unfold deliver_resize, fire_due, resizeEvent, updateFunction. rewrite Ht.
  fields. apply String.eqb_neq in Hp. rewrite Hp. cbn [negb Z.eqb].
  unfold timer_isActive, timer_start. fields. rewrite Ht. cbn [negb]. fields. rewrite Ho.
  cbn. unfold same_selection. fields. auto.
Qed.

Lemma deliver_resize_armed (t : Z) (wh : Z * Z) (s : State) (d : Z) :
  imgFilePath s <> "" ->
  imTOut s = Some thumb_path ->
  timer s = Some d ->
  t < d ->
  let s' := deliver_resize E t wh s in
  timer s' = Some d /\ same_selection s s' /\
  shown s' = (shown s ++ [(t, MkPixmap (Preview (thumbFile s)) (fst wh) (snd wh) false)])%list.
Proof.
  intros Hp Ho Ht Hlt. unfold deliver_resize, fire_due, resizeEvent, updateFunction. rewrite Ht.
  assert (Hd : (d <=? t) = false) by (apply Z.leb_gt; lia). rewrite Hd.
  fields. apply String.eqb_neq in Hp. rewrite Hp. cbn [negb Z.eqb].
  unfold timer_isActive, timer_start. fields. rewrite Ht. cbn [negb]. fields. rewrite Ho.
  cbn. unfold same_selection. fields. auto.
Qed.

Lemma run_resizes_armed (evs : list (Z * (Z * Z))) (s : State) (d : Z) :
  imgFilePath s <> "" ->
  imTOut s = Some thumb_path ->
  timer s = Some d ->
  Forall (fun e => fst e < d) evs ->
  let s' := run_resizes E evs s in
  timer s' = Some d /\ same_selection s s' /\
  exists lows, shown s' = (shown s ++ lows)%list /\ all_low lows /\
               List.length lows = List.length evs.
Proof.
  revert s. induction evs as [|[t wh] evs IH]; intros s Hp Ho Ht Hall.
  - cbn. unfold same_selection. repeat split; auto. exists []. rewrite app_nil_r.
    repeat split; constructor.
  - inversion Hall as [|? ? Hlt Hrest]; subst. cbn [fst] in Hlt. cbn [run_resizes].
    destruct (deliver_resize_armed t wh s d Hp Ho Ht Hlt) as (T1 & (P1 & O1 & F1) & S1).
    destruct (IH (deliver_resize E t wh s)) as (T2 & (P2 & O2 & F2) & (lows & S2 & L2 & N2));
      [ congruence | congruence | assumption | assumption | ].
    split; [ exact T2 | ]. split; [ unfold same_selection; repeat split; congruence | ].
    exists ((t, MkPixmap (Preview (thumbFile s)) (fst wh) (snd wh) false) :: lows).
    split; [ rewrite S2, S1, <- app_assoc; reflexivity | ].
    split; [ constructor; [ reflexivity | exact L2 ] | cbn; congruence ].
Qed.

(** A burst that starts with the timer idle and stays inside the window
    opened by its first event, followed by quiet. *)
Lemma burst_history (t0 : Z) (wh0 : Z * Z) (rest : list (Z * (Z * Z))) (s : State) :
  imgFilePath s <> "" ->
  imTOut s = Some thumb_path ->
  timer s = None ->
  Forall (fun e => fst e < t0 + debounce) rest ->
  let s' := settle (run_resizes E ((t0, wh0) :: rest) s) in
  timer s' = None /\
  exists lows hi,
    shown s' = (shown s ++ lows ++ [(t0 + debounce, hi)])%list /\
    all_low lows /\ List.length lows = S (List.length rest) /\
    pix_src hi = QPixmap (imgFilePath s) s' /\ pix_smooth hi = true.
Proof.
  intros Hp Ho Ht Hall. cbn [run_resizes].
  destruct (deliver_resize_arms t0 wh0 s Hp Ho Ht) as (T1 & (P1 & O1 & F1) & S1).
  destruct (run_resizes_armed rest (deliver_resize E t0 wh0 s) (t0 + debounce))
    as (T2 & (P2 & O2 & F2) & (lows & S2 & L2 & N2));
    [ congruence | congruence | assumption | assumption | ].
  cbv zeta. unfold settle. rewrite T2. unfold updateTimerFunc, timer_stop. fields.
  split; [ reflexivity | ].
  eexists ((t0, MkPixmap (Preview (thumbFile s)) (fst wh0) (snd wh0) false) :: lows), _.
  split; [ rewrite S2, S1, <- !app_assoc; reflexivity | ].
  split; [ constructor; [ reflexivity | exact L2 ] | ].
  split; [ cbn; congruence | ].
  split; [ | reflexivity ].
  cbn [pix_src]. unfold QPixmap. fields. rewrite P2, P1. reflexivity.
Qed.

End Burst.

(** C1 (as the code has it).  A burst of N >= 1 resize events that starts
    with the timer idle and whose events all come before the timer armed by
    the first one expires (less than 250 after the first event) is shown
    with N low-fidelity pixmaps and is followed by exactly one
    low-to-high upgrade, 250 after the FIRST event of the burst; the timer
    is idle afterwards.  (An image is selected and its preview exists.) *)
Theorem burst_upgrades_once
    (E : Env) (s : State) (t0 : Z) (wh0 : Z * Z) (rest : list (Z * (Z * Z))) :
  imgFilePath s <> "" ->
  imgFilePath s <> thumb_path ->
  imTOut s = Some thumb_path ->
  timer s = None ->
  Forall (fun e => t0 <= fst e < t0 + debounce) rest ->
  let s' := settle (run_resizes E ((t0, wh0) :: rest) s) in
  upgrade_times (shown_since s s') = [t0 + debounce] /\
  List.length (shown_since s s') = S (S (List.length rest)) /\
  timer s' = None.
Proof.
  intros Hp Hnt Ho Ht Hall s'.
  assert (Hall' : Forall (fun e : Z * (Z * Z) => fst e < t0 + debounce) rest).
  { eapply Forall_impl; [ | exact Hall ]. cbn. intros; lia. }
  destruct (burst_history E t0 wh0 rest s Hp Ho Ht Hall')
    as (T & lows & hi & S1 & L & N & Src & _).
  fold s' in T, S1, Src.
  rewrite (shown_since_app s s' _ S1).
  split; [ | split; [ rewrite length_app, N; cbn; lia | exact T ] ].
  apply upgrade_times_lows; [ destruct lows; [ discriminate | discriminate ] | exact L | ].
  unfold quality. rewrite Src. unfold QPixmap.
  apply String.eqb_neq in Hnt. rewrite Hnt. reflexivity.
Qed.

Lemma burst_upgrades_once_witness :
  Forall (fun e : Z * (Z * Z) => 0 <= fst e < 0 + debounce) [(100, (400, 300))] /\
  upgrade_times
    (shown_since Sample.opened
       (settle
          (run_resizes Sample.env [(0, (800, 600)); (100, (400, 300))] Sample.opened)))
    = [0 + debounce].
Proof.
  assert (H : Forall (fun e : Z * (Z * Z) => 0 <= fst e < 0 + debounce) [(100, (400, 300))]).
  { constructor; [ cbn; unfold debounce; lia | constructor ]. }
  split; [ exact H | ].
  apply (burst_upgrades_once Sample.env Sample.opened 0 (800, 600) [(100, (400, 300))]);
    [ cbv; discriminate | cbv; discriminate | reflexivity | reflexivity | exact H ].
Defined.

(** Two resize events 100 apart: the one upgrade comes at 250, not 250
    after the last event (350). *)
Lemma burst_upgrade_not_after_last :
  let burst := [(0, (800, 600)); (100, (400, 300))] in
  let s' := settle (run_resizes Sample.env burst Sample.opened) in
  last_time burst = 100 /\
  upgrade_times (shown_since Sample.opened s') = [250] /\
  upgrade_times (shown_since Sample.opened s') <> [last_time burst + debounce].
Proof.
  cbv zeta. split; [ reflexivity | split; [ reflexivity | ] ].
  vm_compute. discriminate.
Qed.

(** A drag that goes on for longer than the window, each event less than
    250 after the one before: the timer armed by the first event expires
    during the drag and the next event arms it again, so the display is
    upgraded twice. *)
Example long_drag_upgrades_twice :
  upgrade_times
    (shown_since Sample.opened
       (settle
          (run_resizes Sample.env
             [(0, (800, 600)); (200, (700, 500)); (400, (600, 400))] Sample.opened)))
  = [250; 650].
Proof. reflexivity. Qed.

(* ================================================================== *)
(** ** Facts about strings *)

Section StringFacts.

Lemma lower_smap (s : string) : Str.ascii_lower s = smap Str.lower_ascii s.
Proof. induction s as [|c s IH]; cbn; congruence. Qed.

(** On ASCII text [str.lower] is the lower-casing of the letters A to Z. *)
Lemma lower_isascii (E : Env) (s : string) :
  Str.isascii s = true -> lower E s = Str.ascii_lower s.
Proof. intros H. unfold lower. rewrite H. reflexivity. Qed.

Lemma replace_backslash_smap (s : string) :
  Str.replace "\" "/" s = smap unbackslash s.
Proof.
  unfold Str.replace. induction s as [|c s IH]; [ reflexivity | ].
  cbn [Str.replace_from String.prefix smap]. unfold unbackslash.
  destruct (ascii_dec "\" c) as [<- | Hne].
  - replace (String.prefix "" s) with true by (destruct s; reflexivity).
    cbn. rewrite IH. reflexivity.
  - assert (H : Ascii.eqb c "\" = false) by (apply Ascii.eqb_neq; congruence).
    rewrite H, IH. reflexivity.
Qed.

Lemma smap_app (f : ascii -> ascii) (a b : string) :
  smap f (a ++ b) = smap f a ++ smap f b.
Proof. induction a as [|c a IH]; cbn; congruence. Qed.

Lemma smap_smap (f g : ascii -> ascii) (s : string) :
  smap f (smap g s) = smap (fun c => f (g c)) s.
Proof. induction s as [|c s IH]; cbn; congruence. Qed.

Lemma append_cancel_l (a b c : string) : a ++ b = a ++ c -> b = c.
Proof. induction a as [|x a IH]; cbn; intros H; [ exact H | ]. inversion H. auto. Qed.

Lemma append_assoc (a b c : string) : (a ++ b) ++ c = a ++ (b ++ c).
Proof. induction a as [|x a IH]; cbn; congruence. Qed.

Lemma append_nil_r (a : string) : a ++ "" = a.
Proof. induction a as [|x a IH]; cbn; congruence. Qed.

Lemma str_length_app (a b : string) :
  String.length (a ++ b) = (String.length a + String.length b)%nat.
Proof. induction a as [|x a IH]; cbn; congruence. Qed.

Lemma drop_app (a b : string) : Str.drop (String.length a) (a ++ b) = b.
Proof. induction a as [|x a IH]; cbn; [ destruct b | ]; auto. Qed.

Lemma drop_split (k : nat) (s : string) : exists a, s = a ++ Str.drop k s.
Proof.
  revert s. induction k as [|k IH]; intros s.
  - exists "". destruct s; reflexivity.
  - destruct s as [|c s]; [ exists ""; reflexivity | ].
    destruct (IH s) as [a Ha]. exists (String c a). cbn. congruence.
Qed.

Lemma endswith_spec (suf s : string) :
  Str.endswith suf s = true <-> exists a, s = a ++ suf.
Proof.
  unfold Str.endswith. split.
  - intros H. apply andb_true_iff in H. destruct H as [H _].
    apply String.eqb_eq in H.
    destruct (drop_split (String.length s - String.length suf) s) as [a Ha].
    exists a. congruence.
  - intros [a ->]. rewrite str_length_app.
    replace (String.length a + String.length suf - String.length suf)%nat
      with (String.length a) by lia.
    rewrite drop_app, String.eqb_refl. cbn. apply Nat.leb_le. lia.
Qed.

Lemma fnmatch_literal (p name : string) :
  literal p = true -> (Str.fnmatch p name = true <-> name = p).
Proof.
  revert name. induction p as [|c p IH]; intros name Hl.
  - cbn. destruct name; split; congruence.
  - cbn in Hl. apply andb_true_iff in Hl. destruct Hl as [Hl Hp].
    apply andb_true_iff in Hl. destruct Hl as [H1 H2].
    apply negb_true_iff in H1, H2. cbn [Str.fnmatch]. rewrite H1, H2.
    destruct name as [|x name]; [ split; discriminate | ].
    rewrite andb_true_iff, (IH name Hp), Ascii.eqb_eq.
    split; [ intros [-> ->]; reflexivity | intros H; inversion H; auto ].
Qed.

Lemma fnmatch_star (p name : string) :
  Str.fnmatch (String "*" p) name = true <->
  exists a b, name = a ++ b /\ Str.fnmatch p b = true.
Proof.
  cbn [Str.fnmatch]. rewrite Ascii.eqb_refl.
  induction name as [|c name IH].
  - rewrite orb_false_r. split.
    + intros H. exists "", "". auto.
    + intros (a & b & Hab & H). destruct a; [ | discriminate ].
      cbn in Hab. subst b. exact H.
  - rewrite orb_true_iff. split.
    + intros [H | H].
      * exists "", (String c name). auto.
      * apply IH in H. destruct H as (a & b & -> & H). exists (String c a), b. auto.
    + intros (a & b & Hab & H). destruct a as [|x a].
      * cbn in Hab. subst b. left. exact H.
      * cbn in Hab. inversion Hab; subst. right. apply IH. exists a, b. auto.
Qed.

Lemma fnmatch_star_endswith (e name : string) :
  literal e = true ->
  Str.fnmatch (String "*" e) name = Str.endswith e name.
Proof.
  intros Hl. apply eq_true_iff_eq. rewrite fnmatch_star, endswith_spec. split.
  - intros (a & b & -> & H). apply (fnmatch_literal e b Hl) in H. subst. eauto.
  - intros [a ->]. exists a, e. split; [ reflexivity | ]. apply fnmatch_literal; auto.
Qed.

(** [os.path.join(dir, name)] puts one fixed prefix before the name. *)
Lemma join_prefix (dir : string) : exists pre, forall name, Str.join dir name = pre ++ name.
Proof.
  unfold Str.join. destruct dir as [|c dir]; [ exists ""; reflexivity | ].
  destruct (Str.endswith "/" (String c dir)).
  - eexists. reflexivity.
  - exists (String c dir ++ "/"). intros name. rewrite append_assoc. reflexivity.
Qed.

Lemma isascii_cons (c : ascii) (s : string) :
  Str.isascii (String c s) = (N_of_ascii c <? 128)%N && Str.isascii s.
Proof. reflexivity. Qed.

Lemma isascii_app (a b : string) :
  Str.isascii (a ++ b) = Str.isascii a && Str.isascii b.
Proof.
  induction a as [|c a IH]; [ reflexivity | ].
  cbn [append]. rewrite !isascii_cons, IH, andb_assoc. reflexivity.
Qed.

Lemma isascii_rstrip_slash (s : string) :
  Str.isascii s = true -> Str.isascii (Str.rstrip_slash s) = true.
Proof.
  induction s as [|c s IH]; [ reflexivity | ].
  rewrite isascii_cons. intros H. apply andb_true_iff in H. destruct H as [Hc Hs].
  cbn [Str.rstrip_slash]. specialize (IH Hs).
  destruct (Str.rstrip_slash s) as [|y r].
  - destruct (Ascii.eqb c "/"); [ reflexivity | ].
    rewrite isascii_cons, Hc. reflexivity.
  - rewrite isascii_cons, Hc, IH. reflexivity.
Qed.

Lemma isascii_split_head (d : string) :
  Str.isascii d = true -> Str.isascii (Str.split_head d) = true.
Proof.
  intros H. unfold Str.split_head.
  assert (Hh : Str.isascii (d ++ "/") = true) by (rewrite isascii_app, H; reflexivity).
  pose proof (isascii_rstrip_slash _ Hh) as Hr.
  destruct (Str.rstrip_slash (d ++ "/")); [ exact Hh | exact Hr ].
Qed.

Lemma isascii_join (d n : string) :
  Str.isascii d = true -> Str.isascii n = true -> Str.isascii (Str.join d n) = true.
Proof.
  intros Hd Hn. unfold Str.join. destruct d as [|c d]; [ exact Hn | ].
  destruct (Str.endswith "/" (String c d)); rewrite !isascii_app, Hd, Hn; reflexivity.
Qed.

Lemma isascii_smap_unbackslash (s : string) :
  Str.isascii (smap unbackslash s) = Str.isascii s.
Proof.
  induction s as [|c s IH]; [ reflexivity | ].
  cbn [smap]. rewrite !isascii_cons, IH. f_equal.
  unfold unbackslash. destruct (Ascii.eqb c "\") eqn:Hc; [ | reflexivity ].
  apply Ascii.eqb_eq in Hc. subst c. reflexivity.
Qed.

Lemma has_magic_cons (c : ascii) (s : string) :
  Str.has_magic (String c s) = Str.is_magic c || Str.has_magic s.
Proof. reflexivity. Qed.

Lemma has_magic_app (a b : string) :
  Str.has_magic (a ++ b) = Str.has_magic a || Str.has_magic b.
Proof.
  induction a as [|c a IH]; [ reflexivity | ].
  cbn [append]. rewrite !has_magic_cons, IH, orb_assoc. reflexivity.
Qed.

Lemma has_magic_rstrip_slash (s : string) :
  Str.has_magic (Str.rstrip_slash s) = Str.has_magic s.
Proof.
  induction s as [|c s IH]; [ reflexivity | ].
  cbn [Str.rstrip_slash]. rewrite has_magic_cons, <- IH.
  destruct (Str.rstrip_slash s) as [|y r].
  - destruct (Ascii.eqb c "/") eqn:Hc.
    + apply Ascii.eqb_eq in Hc. subst c. reflexivity.
    + rewrite has_magic_cons. reflexivity.
  - rewrite has_magic_cons. reflexivity.
Qed.

(** The directory part of the pattern holds a wildcard character exactly
    when the directory handed to the scan does. *)
Lemma has_magic_split_head (d : string) :
  Str.has_magic (Str.split_head d) = Str.has_magic d.
Proof.
  unfold Str.split_head.
  assert (Hh : Str.has_magic (d ++ "/") = Str.has_magic d).
  { rewrite has_magic_app. cbn. apply orb_false_r. }
  pose proof (has_magic_rstrip_slash (d ++ "/")) as Hr.
  destruct (Str.rstrip_slash (d ++ "/")); [ exact Hh | congruence ].
Qed.

End StringFacts.

(* ================================================================== *)
(** ** Facts about the sort *)

Section SortFacts.

Variable key : string -> string.

Lemma key_le_refl (a : string) : Py.key_le key a a = true.
Proof. unfold Py.key_le. destruct (String.leb_total (key a) (key a)); assumption. Qed.

Lemma key_le_flip (a b : string) : Py.key_le key a b = false -> Py.key_le key b a = true.
Proof.
  unfold Py.key_le. intros H.
  destruct (String.leb_total (key a) (key b)); congruence.
Qed.

Lemma insert_perm (x : string) (l : list string) : Permutation (Py.insert key x l) (x :: l).
Proof.
  induction l as [|y l IH]; cbn; [ reflexivity | ].
  destruct (Py.key_le key x y); [ reflexivity | ].
  rewrite IH. apply perm_swap.
Qed.

Lemma sort_perm (l : list string) : Permutation (Py.sort key l) l.
Proof.
  induction l as [|x l IH]; cbn; [ reflexivity | ].
  rewrite insert_perm. constructor. exact IH.
Qed.

Lemma insert_sorted (x : string) (l : list string) :
  Sorted (fun a b => Py.key_le key a b = true) l ->
  Sorted (fun a b => Py.key_le key a b = true) (Py.insert key x l).
Proof.
  induction l as [|y l IH]; intros Hs; cbn.
  - repeat constructor.
  - destruct (Py.key_le key x y) eqn:Hxy.
    + constructor; [ exact Hs | constructor; exact Hxy ].
    + inversion Hs as [|? ? Hs' Hhd]; subst.
      constructor; [ apply IH; exact Hs' | ].
      destruct l as [|z l]; cbn.
      * constructor. apply key_le_flip. exact Hxy.
      * destruct (Py.key_le key x z); constructor.
        -- apply key_le_flip. exact Hxy.
        -- inversion Hhd; assumption.
Qed.

Lemma sort_sorted (l : list string) :
  Sorted (fun a b => Py.key_le key a b = true) (Py.sort key l).
Proof.
  induction l as [|x l IH]; cbn; [ constructor | apply insert_sorted; exact IH ].
Qed.

Lemma insert_stable (k x : string) (l : list string) :
  filter (fun p => String.eqb (key p) k) (Py.insert key x l)
  = filter (fun p => String.eqb (key p) k) (x :: l).
Proof.
  induction l as [|y l IH]; [ reflexivity | ].
  cbn [Py.insert]. destruct (Py.key_le key x y) eqn:Hxy; [ reflexivity | ].
  cbn [filter] in *. rewrite IH.
  destruct (String.eqb (key x) k) eqn:Hx; destruct (String.eqb (key y) k) eqn:Hy;
    try reflexivity.
  apply String.eqb_eq in Hx, Hy.
  unfold Py.key_le in Hxy. rewrite Hx, Hy in Hxy.
  destruct (String.leb_total k k); congruence.
Qed.

(** The sort is stable: the elements of one key keep their order. *)
Lemma sort_stable (k : string) (l : list string) :
  filter (fun p => String.eqb (key p) k) (Py.sort key l)
  = filter (fun p => String.eqb (key p) k) l.
Proof.
  induction l as [|x l IH]; [ reflexivity | ].
  cbn [Py.sort]. rewrite insert_stable. cbn [filter]. rewrite IH. reflexivity.
Qed.

Lemma filter_filter {A : Type} (f g : A -> bool) (l : list A) :
  filter f (filter g l) = filter (fun a => g a && f a) l.
Proof.
  induction l as [|a l IH]; [ reflexivity | ].
  cbn. destruct (g a); cbn; [ destruct (f a) | ]; rewrite IH; reflexivity.
Qed.

(** Two filters that never both select something from [l]. *)
Lemma filter_exclusive {A : Type} (f g : A -> bool) (l : list A) :
  (forall a b, In a l -> In b l -> f a = true -> g b = true -> False) ->
  (filter f l ++ filter g l)%list = filter (fun a => f a || g a) l.
Proof.
  intros Hex. destruct (existsb f l) eqn:Hf.
  - apply existsb_exists in Hf. destruct Hf as (a & Ha & Hfa).
    assert (Hg : forall b, In b l -> g b = false).
    { intros b Hb. destruct (g b) eqn:Hgb; [ | reflexivity ].
      exfalso. exact (Hex a b Ha Hb Hfa Hgb). }
    rewrite (filter_ext_in g (fun _ => false) l Hg), filter_false, app_nil_r.
    apply filter_ext_in. intros b Hb. rewrite (Hg b Hb), orb_false_r. reflexivity.
  - assert (Hf' : forall a, In a l -> f a = false).
    { intros a Ha. destruct (f a) eqn:Hfa; [ | reflexivity ].
      assert (existsb f l = true) by (apply existsb_exists; eauto). congruence. }
    rewrite (filter_ext_in f (fun _ => false) l Hf'), filter_false. cbn [app].
    apply filter_ext_in. intros a Ha. rewrite (Hf' a Ha). reflexivity.
Qed.

End SortFacts.

(* ================================================================== *)
(** ** What a scan lists *)

Section ScanFacts.

Variable E : Env.

Lemma fileTypes_ext (pat : string) :
  In pat fileTypes -> exists e, pat = String "*" e /\ In e extensions /\ literal e = true.
Proof.
  unfold fileTypes, extensions. cbn.
  intros [<- | [<- | [<- | [<- | [<- | []]]]]]; eexists; (split; [ reflexivity | ]);
    split; try reflexivity; tauto.
Qed.

Lemma matches_supported (n : string) :
  existsb (fun pat => Str.fnmatch pat n) fileTypes = has_supported_ext n.
Proof.
  unfold has_supported_ext, fileTypes, extensions. cbn [existsb].
  rewrite !fnmatch_star_endswith by reflexivity. reflexivity.
Qed.

Lemma list_ascii_app (a b : string) :
  list_ascii_of_string (a ++ b) = (list_ascii_of_string a ++ list_ascii_of_string b)%list.
Proof. induction a as [|c a IH]; cbn; congruence. Qed.

(** A string ends in at most one of the extensions. *)
Lemma extension_unique (e1 e2 a1 a2 : string) :
  In e1 extensions -> In e2 extensions -> a1 ++ e1 = a2 ++ e2 -> e1 = e2.
Proof.
  intros H1 H2 Heq.
  apply (f_equal (fun s => rev (list_ascii_of_string s))) in Heq.
  rewrite !list_ascii_app, !rev_app_distr in Heq.
  unfold extensions in H1, H2. cbn in H1, H2.
  destruct H1 as [<- | [<- | [<- | [<- | [<- | []]]]]];
    destruct H2 as [<- | [<- | [<- | [<- | [<- | []]]]]];
    try reflexivity; cbn in Heq; discriminate.
Qed.

(** A name is matched by at most one of the patterns. *)
Lemma one_pattern (p1 p2 n : string) :
  In p1 fileTypes -> In p2 fileTypes ->
  Str.fnmatch p1 n = true -> Str.fnmatch p2 n = true -> p1 = p2.
Proof.
  intros H1 H2 M1 M2.
  destruct (fileTypes_ext p1 H1) as (e1 & -> & He1 & L1).
  destruct (fileTypes_ext p2 H2) as (e2 & -> & He2 & L2).
  rewrite fnmatch_star_endswith in M1, M2 by assumption.
  apply endswith_spec in M1, M2. destruct M1 as [a1 Ha1]. destruct M2 as [a2 Ha2].
  f_equal. apply (extension_unique e1 e2 a1 a2 He1 He2). congruence.
Qed.

Lemma key_of_entry (d : string) :
  exists pre, forall n, Str.ascii_lower (entry_of d n) = pre ++ smap key_char n.
Proof.
  destruct (join_prefix (Str.split_head d)) as [pre Hpre].
  exists (smap key_char pre). intros n. unfold entry_of.
  rewrite Hpre, replace_backslash_smap, lower_smap, smap_smap, smap_app. reflexivity.
Qed.

Lemma extension_fixed (e : string) : In e extensions -> smap key_char e = e.
Proof.
  unfold extensions. cbn.
  intros [<- | [<- | [<- | [<- | [<- | []]]]]]; reflexivity.
Qed.

Lemma entry_isascii (d n : string) :
  Str.isascii d = true -> Str.isascii n = true -> Str.isascii (entry_of d n) = true.
Proof.
  intros Hd Hn. unfold entry_of.
  rewrite replace_backslash_smap, isascii_smap_unbackslash.
  apply isascii_join; [ apply isascii_split_head; exact Hd | exact Hn ].
Qed.

(** ASCII entries with the same key come from the same pattern. *)
Lemma tie_same_pattern (d p1 p2 n1 n2 : string) :
  In p1 fileTypes -> In p2 fileTypes ->
  Str.fnmatch p1 n1 = true -> Str.fnmatch p2 n2 = true ->
  Str.isascii d = true -> Str.isascii n1 = true -> Str.isascii n2 = true ->
  lower E (entry_of d n1) = lower E (entry_of d n2) ->
  p1 = p2.
Proof.
  intros H1 H2 M1 M2 Ad A1 A2 Hk.
  rewrite !lower_isascii in Hk by (apply entry_isascii; assumption).
  destruct (fileTypes_ext p1 H1) as (e1 & -> & He1 & L1).
  destruct (fileTypes_ext p2 H2) as (e2 & -> & He2 & L2).
  rewrite fnmatch_star_endswith in M1, M2 by assumption.
  apply endswith_spec in M1, M2. destruct M1 as [a1 ->]. destruct M2 as [a2 ->].
  destruct (key_of_entry d) as [pre Hpre]. rewrite !Hpre in Hk.
  apply append_cancel_l in Hk. rewrite !smap_app in Hk.
  rewrite (extension_fixed e1 He1), (extension_fixed e2 He2) in Hk.
  f_equal. exact (extension_unique e1 e2 _ _ He1 He2 Hk).
Qed.

(** For a directory without wildcard characters, [glob] lists that
    directory. *)
Lemma glob_plain (d pat : string) :
  Str.has_magic d = false ->
  glob E d pat
  = map (Str.join (Str.split_head d))
      (filter (fun n => negb (Str.ishidden n) && Str.fnmatch pat n)
              (listdir E (Str.split_head d))).
Proof.
  intros Hm. unfold glob. rewrite has_magic_split_head, Hm.
  cbn [flat_map]. rewrite app_nil_r. reflexivity.
Qed.

Lemma globbed_cons (d pat : string) (pats : list string) :
  Str.has_magic d = false ->
  globbed E d (pat :: pats)
  = (map (entry_of d)
       (filter (fun n => negb (Str.ishidden n) && Str.fnmatch pat n)
               (listdir E (Str.split_head d)))
     ++ globbed E d pats)%list.
Proof.
  intros Hm. unfold globbed. cbn [flat_map]. rewrite map_app. f_equal.
  rewrite (glob_plain d pat Hm), map_map. reflexivity.
Qed.

Lemma scan_globbed (d : string) : scan E d = Py.sort (lower E) (globbed E d fileTypes).
Proof. reflexivity. Qed.

(** Entries of one key stand in the order in which [glob] returned them. *)
Lemma scan_key_globbed (d k : string) :
  filter (same_key E k) (scan E d) = filter (same_key E k) (globbed E d fileTypes).
Proof. rewrite scan_globbed. exact (sort_stable (lower E) k _). Qed.

(** Among the results of the patterns [pats], those of key [k] are the
    names of the directory that some pattern matches, in directory order. *)
Lemma globbed_key (d k : string) (pats : list string) :
  Str.has_magic d = false ->
  Str.isascii d = true ->
  all_ascii (listdir E (Str.split_head d)) ->
  NoDup pats -> incl pats fileTypes ->
  filter (same_key E k) (globbed E d pats)
  = map (entry_of d)
      (filter (fun n => (negb (Str.ishidden n) && existsb (fun pat => Str.fnmatch pat n) pats)
                        && same_key E k (entry_of d n))
              (listdir E (Str.split_head d))).
Proof.
  intros Hm Ad Al Hnd Hin. induction pats as [|pat pats IH].
  - cbn. symmetry. erewrite filter_ext; [ rewrite filter_false; reflexivity | ].
    intros n. cbn. rewrite andb_false_r. reflexivity.
  - inversion Hnd as [|? ? Hnotin Hnd']; subst.
    assert (Hin' : incl pats fileTypes) by (intros x Hx; apply Hin; right; exact Hx).
    rewrite (globbed_cons d pat pats Hm), filter_app, (IH Hnd' Hin'),
      filter_map_swap, filter_filter.
    rewrite <- map_app. f_equal. rewrite filter_exclusive.
    + apply filter_ext. intros n. cbn [existsb].
      destruct (Str.ishidden n), (Str.fnmatch pat n),
        (existsb (fun pat0 => Str.fnmatch pat0 n) pats), (same_key E k (entry_of d n));
        reflexivity.
    + intros n1 n2 In1 In2 P1 P2.
      apply andb_true_iff in P1, P2. destruct P1 as [P1 K1]. destruct P2 as [P2 K2].
      apply andb_true_iff in P1, P2. destruct P1 as [_ M1]. destruct P2 as [_ M2].
      apply existsb_exists in M2. destruct M2 as (pat' & Hpat' & M2).
      unfold same_key in K1, K2. apply String.eqb_eq in K1, K2.
      unfold all_ascii in Al. rewrite Forall_forall in Al.
      assert (pat = pat').
      { apply (tie_same_pattern d pat pat' n1 n2); auto.
        - apply Hin. left. reflexivity.
        - congruence. }
      subst pat'. contradiction.
Qed.

Lemma fileTypes_nodup : NoDup fileTypes.
Proof.
  unfold fileTypes. repeat constructor; cbn; intuition discriminate.
Qed.

(** The ASCII entries of one key are the kept names of that key, in the
    order in which the directory enumerates them. *)
Lemma scan_key (d k : string) :
  Str.has_magic d = false ->
  Str.isascii d = true ->
  all_ascii (listdir E (Str.split_head d)) ->
  filter (same_key E k) (scan E d) = filter (same_key E k) (map (entry_of d) (kept E d)).
Proof.
  intros Hm Ad Al. rewrite scan_key_globbed.
  rewrite (globbed_key d k fileTypes Hm Ad Al fileTypes_nodup (incl_refl _)).
  rewrite filter_map_swap. unfold kept. rewrite filter_filter. f_equal.
  apply filter_ext. intros n. rewrite matches_supported. reflexivity.
Qed.

Lemma globbed_In (d p : string) (pats : list string) :
  Str.has_magic d = false ->
  (In p (globbed E d pats) <->
   exists n, In n (listdir E (Str.split_head d)) /\ Str.ishidden n = false /\
             existsb (fun pat => Str.fnmatch pat n) pats = true /\ p = entry_of d n).
Proof.
  intros Hm. induction pats as [|pat pats IH].
  - cbn. split; [ tauto | intros (n & _ & _ & H & _); discriminate ].
  - rewrite (globbed_cons d pat pats Hm), in_app_iff, IH, in_map_iff. cbn [existsb]. split.
    + intros [(n & Hp & Hn) | (n & Hn & Hh & Hm' & Hp)].
      * apply filter_In in Hn. destruct Hn as [Hn Hc].
        apply andb_true_iff in Hc. destruct Hc as [Hh Hm']. apply negb_true_iff in Hh.
        exists n. rewrite Hm'. auto.
      * exists n. rewrite Hm', orb_true_r. auto.
    + intros (n & Hn & Hh & Hm' & Hp). apply orb_true_iff in Hm'. destruct Hm' as [Hm' | Hm'].
      * left. exists n. split; [ auto | ]. apply filter_In. rewrite Hh, Hm'. auto.
      * right. exists n. auto.
Qed.

(** The entries, in any order: one for every kept name. *)
Lemma scan_perm (d : string) :
  Str.has_magic d = false ->
  Permutation (scan E d) (map (entry_of d) (kept E d)).
Proof.
  intros Hm. rewrite scan_globbed, (sort_perm (lower E)).
  assert (H : forall pats, NoDup pats -> incl pats fileTypes ->
    Permutation (globbed E d pats)
      (map (entry_of d)
         (filter (fun n => negb (Str.ishidden n) && existsb (fun pat => Str.fnmatch pat n) pats)
                 (listdir E (Str.split_head d))))).
  { intros pats. induction pats as [|pat pats IH]; intros Hnd Hin.
    - cbn. erewrite filter_ext; [ rewrite filter_false; reflexivity | ].
      intros n. cbn. apply andb_false_r.
    - inversion Hnd as [|? ? Hnotin Hnd']; subst.
      assert (Hin' : incl pats fileTypes) by (intros x Hx; apply Hin; right; exact Hx).
      rewrite (globbed_cons d pat pats Hm), (IH Hnd' Hin'), <- map_app. apply Permutation_map.
      generalize (listdir E (Str.split_head d)). intros l.
      induction l as [|n l IHl]; [ reflexivity | ].
      cbn [filter existsb].
      destruct (Str.ishidden n); cbn [negb andb]; [ exact IHl | ].
      destruct (Str.fnmatch pat n) eqn:M1;
        destruct (existsb (fun pat0 => Str.fnmatch pat0 n) pats) eqn:M2; cbn [orb].
      + exfalso. apply existsb_exists in M2. destruct M2 as (pat' & Hpat' & M2).
        assert (pat = pat').
        { apply (one_pattern pat pat' n); auto. apply Hin. left. reflexivity. }
        subst pat'. contradiction.
      + cbn [app]. constructor. exact IHl.
      + rewrite <- Permutation_middle. constructor. exact IHl.
      + exact IHl. }
  rewrite (H fileTypes fileTypes_nodup (incl_refl _)). unfold kept.
  erewrite filter_ext; [ reflexivity | ]. intros n. rewrite matches_supported. reflexivity.
Qed.

End ScanFacts.

(** C2 (as the code has it).  For a directory [d] whose path holds none of
    the characters that [glob] reads as wildcards, a scan lists exactly
    the names of the directory that do not start with a dot and end in one
    of [.png], [.jpg], [.jpeg], [.bmp], [.gif] written in lower case, each
    once, under the path [glob] gives it with backslashes replaced by
    slashes; the list is ordered by the lower-cased path; the entries
    whose lower-cased paths are equal stand in the order in which [glob]
    returned them, which for ASCII paths is the order in which the
    directory enumerates them. *)
Theorem scan_lists_kept_sorted_stable (E : Env) (d : string) :
  Str.has_magic d = false ->
  (forall p, In p (scan E d) <->
     exists n, In n (listdir E (Str.split_head d)) /\ Str.ishidden n = false /\
               has_supported_ext n = true /\ p = entry_of d n) /\
  Permutation (scan E d) (map (entry_of d) (kept E d)) /\
  Sorted (key_ordered E) (scan E d) /\
  (forall k, filter (same_key E k) (scan E d)
             = filter (same_key E k) (globbed E d fileTypes)) /\
  (Str.isascii d = true -> all_ascii (listdir E (Str.split_head d)) ->
   forall k, filter (same_key E k) (scan E d)
             = filter (same_key E k) (map (entry_of d) (kept E d))).
Proof.
  intros Hm.
  split; [ | split; [ apply scan_perm; exact Hm | split;
    [ exact (sort_sorted (lower E) _) | split ] ] ].
  - intros p. rewrite scan_globbed. split.
    + intros H. apply (Permutation_in _ (sort_perm (lower E) _)) in H.
      apply (globbed_In E d p fileTypes Hm) in H. destruct H as (n & Hn & Hh & Hm' & Hp).
      rewrite matches_supported in Hm'. exists n. auto.
    + intros (n & Hn & Hh & Hm' & Hp).
      apply (Permutation_in _ (Permutation_sym (sort_perm (lower E) _))).
      apply (globbed_In E d p fileTypes Hm). exists n. rewrite matches_supported. auto.
  - intros k. apply scan_key_globbed.
  - intros Ad Al k. apply scan_key; assumption.
Qed.

Lemma scan_lists_kept_sorted_stable_witness :
  Str.has_magic "/d/" = false /\
  Permutation (scan Sample.env "/d/") (map (entry_of "/d/") (kept Sample.env "/d/")) /\
  filter (same_key Sample.env "/d/b.png") (scan Sample.env "/d/")
  = filter (same_key Sample.env "/d/b.png") (map (entry_of "/d/") (kept Sample.env "/d/")).
Proof.
  split; [ reflexivity | ].
  destruct (scan_lists_kept_sorted_stable Sample.env "/d/" eq_refl) as (_ & A & _ & _ & B).
  split; [ exact A | ].
  apply B; [ reflexivity | ]. repeat constructor.
Defined.

(** An image file that a scan leaves out: [.h.png] is in [/d] and ends in
    [.png], but its name starts with a dot. *)
Lemma scan_skips_hidden_image :
  In ".h.png" (listdir Sample.env (Str.split_head "/d/")) /\
  has_supported_ext ".h.png" = true /\
  entry_of "/d/" ".h.png" = "/d/.h.png" /\
  ~ In "/d/.h.png" (scan Sample.env "/d/").
Proof.
  split; [ cbn; tauto | split; [ reflexivity | split; [ reflexivity | ] ] ].
  apply index_absent. reflexivity.
Qed.

(** An extension in upper case is not matched. *)
Example scan_upper_case_ex :
  has_supported_ext "b.PNG" = false /\
  scan (plain_env (fun _ => ["a.png"; "b.PNG"]) (fun _ => inr (1, 1)) (fun _ => 0)) "/e"
  = ["/e/a.png"].
Proof. split; vm_compute; reflexivity. Qed.

(** Names that differ in case only keep the order of the directory. *)
Example scan_ties_ex :
  scan (plain_env (fun _ => ["b.png"; "A.jpg"; "B.png"; "a.jpg"; "c.txt"])
                  (fun _ => inr (1, 1)) (fun _ => 0)) "/e"
  = ["/e/A.jpg"; "/e/a.jpg"; "/e/b.png"; "/e/B.png"].
Proof. vm_compute. reflexivity. Qed.

(* ================================================================== *)
(** ** More on stepping through the list *)

Section SteppingMore.

Variable E : Env.

Lemma loads_spec (p : string) :
  loads E p = true ->
  exists w h m,
    image_open E p = inr (w, h) /\ thumbnail E p = None /\ save E p = Saved /\
    getmtime E p = inr m.
Proof.
  unfold loads.
  destruct (image_open E p) as [e | [w h]]; [ discriminate | ].
  destruct (thumbnail E p); [ discriminate | ].
  destruct (save E p); [ | discriminate ].
  destruct (getmtime E p) as [e | m]; [ discriminate | ].
  intros _. exists w, h, m. auto.
Qed.

Lemma selectImage_ok (p : string) (s : State) :
  p <> "" ->
  loads E p = true ->
  exists s',
    selectImage E p s = Ok s' /\
    imgFilePath s' = p /\ thumbFile s' = Some p /\ imTOut s' = Some thumb_path /\
    (exists w h m,
       image_open E p = inr (w, h) /\ getmtime E p = inr m /\ imWidth s' = Some w /\
       details s' = Some (MkDetails (Str.basename p) m (w, h))) /\
    label s' = Some (MkPixmap (QPixmap p s') (fst (frame s)) (snd (frame s)) true) /\
    shown s'
    = (shown s ++ [(clock s, MkPixmap (Preview (Some p)) (fst (frame s)) (snd (frame s)) true);
                   (clock s, MkPixmap (QPixmap p s') (fst (frame s)) (snd (frame s)) true)])%list /\
    navEnabled s' = navEnabled s /\ frame s' = frame s /\
    mwWidth s' = fst (frame s) /\ mwHeight s' = snd (frame s).
Proof.
  intros Hp Hl. destruct (loads_spec p Hl) as (w & h & m & Ho & Ht & Hs & Hm).
  unfold selectImage, updateFunction. fields.
  apply String.eqb_neq in Hp. rewrite Hp. cbn [negb Z.eqb]. rewrite Ho, Ht, Hs, Hm.
  eexists. split; [ reflexivity | ]. unfold QPixmap. fields.
  rewrite String.eqb_refl, <- app_assoc. repeat split. exists w, h, m. auto.
Qed.

(** A selection ends without exception only when the image loads. *)
Lemma selectImage_not_loads (p : string) (s : State) :
  p <> "" ->
  loads E p = false ->
  raised (selectImage E p s) <> None.
Proof.
  intros Hp Hl. unfold selectImage, updateFunction. fields.
  apply String.eqb_neq in Hp. rewrite Hp. cbn [negb Z.eqb]. unfold loads in Hl.
  destruct (image_open E p) as [e | [w h]]; [ discriminate | ].
  destruct (thumbnail E p); [ discriminate | ].
  destruct (save E p); [ | discriminate ].
  destruct (getmtime E p); [ discriminate | discriminate ].
Qed.

Lemma getitem_in_range (l : list string) (n : Z) :
  0 <= n < Z.of_nat (List.length l) ->
  Py.getitem l n = nth_error l (Z.to_nat n) /\ exists p, nth_error l (Z.to_nat n) = Some p.
Proof.
  intros H. unfold Py.getitem.
  assert (A : (0 <=? n) && (n <? Z.of_nat (List.length l)) = true).
  { apply andb_true_iff. split; [ apply Z.leb_le | apply Z.ltb_lt ]; lia. }
  rewrite A. split; [ reflexivity | ].
  destruct (nth_error l (Z.to_nat n)) as [p|] eqn:Hn; [ eauto | ].
  apply nth_error_None in Hn. lia.
Qed.

(** Showing the entry at a valid index. *)
Lemma show_current_entry (s : State) (l : list string) (n : Z) :
  dirImageList s = Some l ->
  imageNumber s = Some n ->
  0 <= n < Z.of_nat (List.length l) ->
  exists p,
    nth_error l (Z.to_nat n) = Some p /\
    show_current E s = selectImage E p s.
Proof.
  intros Hl Hn Hr. destruct (getitem_in_range l n Hr) as [G [p Hp]].
  exists p. split; [ exact Hp | ]. unfold show_current. rewrite Hl, Hn, G, Hp. reflexivity.
Qed.

Lemma selectImage_fails (p : string) (s : State) (e : exn) :
  p <> "" ->
  image_open E p = inl e ->
  selectImage E p s = Raise e (set_mw (fst (frame s)) (snd (frame s)) (set_imgFilePath p s)).
Proof.
  intros Hp He. unfold selectImage.
  exact (updateFunction_0_fails E (set_imgFilePath p s) e Hp He).
Qed.

Lemma select_stepped (s s1 : State) (l : list string) (n' : Z) :
  dirImageList s1 = Some l ->
  imageNumber s1 = Some n' ->
  0 <= n' < Z.of_nat (List.length l) ->
  frame s1 = frame s -> label s1 = label s -> thumbFile s1 = thumbFile s ->
  stepped E s l n' (show_current E s1).
Proof.
  intros Hl Hn Hr Hf Hlab Hth.
  destruct (show_current_entry s1 l n' Hl Hn Hr) as (p & Hp & Hs).
  unfold stepped. rewrite Hs. exists p.
  destruct (selectImage_nav E p s1) as (_ & A & B & C & _).
  split; [ exact Hp | ]. split; [ lia | ]. split; [ congruence | ].
  split; [ congruence | ]. split; [ exact A | ]. split.
  - intros Hne Ho.
    destruct (selectImage_ok p s1 Hne Ho) as (s' & -> & _ & T & _ & _ & L & _).
    cbn [state_of raised]. rewrite L, Hf. auto.
  - split; [ intros Hne Ho; exact (selectImage_not_loads p s1 Hne Ho) | ].
    intros e Hne He. rewrite (selectImage_fails p s1 e Hne He). cbn. auto.
Qed.

Lemma nextImage_stepped (s : State) (l : list string) (n : Z) :
  dirImageList s = Some l ->
  imageNumber s = Some n ->
  0 <= n < Z.of_nat (List.length l) ->
  stepped E s l ((n + 1) mod Z.of_nat (List.length l)) (nextImage E s).
Proof.
  intros Hl Hn Hr. unfold nextImage. rewrite Hn. fields. rewrite Hl.
  destruct (n =? Z.of_nat (List.length l) - 1) eqn:Hlast; cbn [negb].
  - apply Z.eqb_eq in Hlast.
    replace ((n + 1) mod Z.of_nat (List.length l)) with 0
      by (rewrite Hlast; replace (Z.of_nat (List.length l) - 1 + 1)
            with (Z.of_nat (List.length l)) by lia; rewrite Z.mod_same; lia).
    apply select_stepped; fields; auto. lia.
  - apply Z.eqb_neq in Hlast. rewrite Z.mod_small by lia.
    apply select_stepped; fields; auto. lia.
Qed.

Lemma prevImage_stepped (s : State) (l : list string) (n : Z) :
  dirImageList s = Some l ->
  imageNumber s = Some n ->
  0 <= n < Z.of_nat (List.length l) ->
  stepped E s l ((n - 1) mod Z.of_nat (List.length l)) (prevImage E s).
Proof.
  intros Hl Hn Hr. unfold prevImage. rewrite Hn. fields.
  destruct (n =? 0) eqn:H0; cbn [negb bind].
  - apply Z.eqb_eq in H0. subst n. rewrite Hl. cbn [bind].
    replace ((0 - 1) mod Z.of_nat (List.length l)) with (Z.of_nat (List.length l) - 1).
    + apply select_stepped; fields; auto. lia.
    + apply (Z.mod_unique _ _ (-1)); lia.
  - apply Z.eqb_neq in H0. rewrite Z.mod_small by lia.
    apply select_stepped; fields; auto. lia.
Qed.

End SteppingMore.

(** X1. From a valid index, [nextImage] moves to the next entry, the first
    after the last: the index stays in range and [imgFilePath] is the entry
    at the index.  When that image loads (it opens, its preview is made
    and saved, its modification time is read) it is shown at the size of
    the label; when any of these steps fails an exception leaves the
    handler; and when it is [Image.open] that fails, the label and the
    preview keep the previous image. *)
Theorem nextImage_selects_entry (E : Env) (s : State) (l : list string) (n : Z) :
  dirImageList s = Some l ->
  imageNumber s = Some n ->
  0 <= n < Z.of_nat (List.length l) ->
  stepped E s l ((n + 1) mod Z.of_nat (List.length l)) (nextImage E s).
Proof. intros Hl Hn Hr. exact (nextImage_stepped E s l n Hl Hn Hr). Qed.

Lemma nextImage_selects_entry_witness :
  0 <= 1 < Z.of_nat (List.length ["/d/a.jpg"; "/d/B.png"; "/d/C.gif"]) /\
  stepped Sample.env Sample.opened ["/d/a.jpg"; "/d/B.png"; "/d/C.gif"]
    ((1 + 1) mod Z.of_nat (List.length ["/d/a.jpg"; "/d/B.png"; "/d/C.gif"]))
    (nextImage Sample.env Sample.opened).
Proof.
  split; [ cbn; lia | ].
  apply (nextImage_selects_entry Sample.env Sample.opened
           ["/d/a.jpg"; "/d/B.png"; "/d/C.gif"] 1); [ reflexivity | reflexivity | cbn; lia ].
Defined.

(** X2. From a valid index, [prevImage] moves to the entry before, the last
    before the first, with the same outcome as in X1. *)
Theorem prevImage_selects_entry (E : Env) (s : State) (l : list string) (n : Z) :
  dirImageList s = Some l ->
  imageNumber s = Some n ->
  0 <= n < Z.of_nat (List.length l) ->
  stepped E s l ((n - 1) mod Z.of_nat (List.length l)) (prevImage E s).
Proof. intros Hl Hn Hr. exact (prevImage_stepped E s l n Hl Hn Hr). Qed.

Lemma prevImage_selects_entry_witness :
  0 <= 1 < Z.of_nat (List.length ["/d/a.jpg"; "/d/B.png"; "/d/C.gif"]) /\
  stepped Sample.env Sample.opened ["/d/a.jpg"; "/d/B.png"; "/d/C.gif"]
    ((1 - 1) mod Z.of_nat (List.length ["/d/a.jpg"; "/d/B.png"; "/d/C.gif"]))
    (prevImage Sample.env Sample.opened).
Proof.
  split; [ cbn; lia | ].
  apply (prevImage_selects_entry Sample.env Sample.opened
           ["/d/a.jpg"; "/d/B.png"; "/d/C.gif"] 1); [ reflexivity | reflexivity | cbn; lia ].
Defined.

Lemma presses_next (E : Env) (k : nat) (s : State) (l : list string) (n : Z) :
  dirImageList s = Some l ->
  imageNumber s = Some n ->
  0 <= n < Z.of_nat (List.length l) ->
  imageNumber (presses (nextImage E) k s)
  = Some ((n + Z.of_nat k) mod Z.of_nat (List.length l)).
Proof.
  revert s n. induction k as [|k IH]; intros s n Hl Hn Hr.
  - cbn [presses]. rewrite Hn, Z.add_0_r, Z.mod_small by lia. reflexivity.
  - cbn [presses].
    destruct (nextImage_stepped E s l n Hl Hn Hr) as (p & _ & R & N & L & _).
    rewrite (IH _ _ L N R). f_equal.
    rewrite Zplus_mod_idemp_l. f_equal. lia.
Qed.

Lemma presses_prev (E : Env) (k : nat) (s : State) (l : list string) (n : Z) :
  dirImageList s = Some l ->
  imageNumber s = Some n ->
  0 <= n < Z.of_nat (List.length l) ->
  imageNumber (presses (prevImage E) k s)
  = Some ((n - Z.of_nat k) mod Z.of_nat (List.length l)).
Proof.
  revert s n. induction k as [|k IH]; intros s n Hl Hn Hr.
  - cbn [presses]. rewrite Hn, Z.sub_0_r, Z.mod_small by lia. reflexivity.
  - cbn [presses].
    destruct (prevImage_stepped E s l n Hl Hn Hr) as (p & _ & R & N & L & _).
    rewrite (IH _ _ L N R). f_equal.
    rewrite Zminus_mod_idemp_l. f_equal. lia.
Qed.

(** X3. [k] steps forward from a valid index [n] lead to index
    [(n + k) mod len], whatever loads fail on the way; as many steps as the
    list has entries lead back to [n]. *)
Theorem nextImage_cycles (E : Env) (s : State) (l : list string) (n : Z) (k : nat) :
  dirImageList s = Some l ->
  imageNumber s = Some n ->
  0 <= n < Z.of_nat (List.length l) ->
  imageNumber (presses (nextImage E) k s)
  = Some ((n + Z.of_nat k) mod Z.of_nat (List.length l)) /\
  imageNumber (presses (nextImage E) (List.length l) s) = Some n.
Proof.
  intros Hl Hn Hr. split; [ exact (presses_next E k s l n Hl Hn Hr) | ].
  rewrite (presses_next E _ s l n Hl Hn Hr). f_equal.
  rewrite <- (Z.mul_1_l (Z.of_nat (List.length l))) at 1.
  rewrite Z.mod_add by lia. apply Z.mod_small. lia.
Qed.

Lemma nextImage_cycles_witness :
  0 <= 1 < Z.of_nat (List.length ["/d/a.jpg"; "/d/B.png"; "/d/C.gif"]) /\
  imageNumber (presses (nextImage Sample.env) 5 Sample.opened) = Some 0 /\
  imageNumber (presses (nextImage Sample.env) 3 Sample.opened) = Some 1.
Proof.
  split; [ cbn; lia | ].
  destruct (nextImage_cycles Sample.env Sample.opened
              ["/d/a.jpg"; "/d/B.png"; "/d/C.gif"] 1 5) as [A B];
    [ reflexivity | reflexivity | cbn; lia | ].
  split; [ exact A | exact B ].
Defined.

(** X4. [k] steps back from a valid index [n] lead to index
    [(n - k) mod len]; as many steps as the list has entries lead back to
    [n]. *)
Theorem prevImage_cycles (E : Env) (s : State) (l : list string) (n : Z) (k : nat) :
  dirImageList s = Some l ->
  imageNumber s = Some n ->
  0 <= n < Z.of_nat (List.length l) ->
  imageNumber (presses (prevImage E) k s)
  = Some ((n - Z.of_nat k) mod Z.of_nat (List.length l)) /\
  imageNumber (presses (prevImage E) (List.length l) s) = Some n.
Proof.
  intros Hl Hn Hr. split; [ exact (presses_prev E k s l n Hl Hn Hr) | ].
  rewrite (presses_prev E _ s l n Hl Hn Hr). f_equal.
  replace (n - Z.of_nat (List.length l)) with (n + (-1) * Z.of_nat (List.length l)) by lia.
  rewrite Z.mod_add by lia. apply Z.mod_small. lia.
Qed.

Lemma prevImage_cycles_witness :
  0 <= 1 < Z.of_nat (List.length ["/d/a.jpg"; "/d/B.png"; "/d/C.gif"]) /\
  imageNumber (presses (prevImage Sample.env) 5 Sample.opened) = Some 2 /\
  imageNumber (presses (prevImage Sample.env) 3 Sample.opened) = Some 1.
Proof.
  split; [ cbn; lia | ].
  destruct (prevImage_cycles Sample.env Sample.opened
              ["/d/a.jpg"; "/d/B.png"; "/d/C.gif"] 1 5) as [A B];
    [ reflexivity | reflexivity | cbn; lia | ].
  split; [ exact A | exact B ].
Defined.

(** X5. With an index at or beyond the end of the list (left there by an
    [openImage] that raised after the list was replaced), [nextImage]
    raises [IndexError] and still adds one to the index; [prevImage] raises
    [IndexError] while the index stays beyond the end, taking one off each
    time.  The selected path and the label are not touched. *)
Theorem step_beyond_list (E : Env) (s : State) (l : list string) (n : Z) :
  dirImageList s = Some l ->
  imageNumber s = Some n ->
  Z.of_nat (List.length l) <= n ->
  (raised (nextImage E s) = Some IndexError /\
   imageNumber (state_of (nextImage E s)) = Some (n + 1) /\
   imgFilePath (state_of (nextImage E s)) = imgFilePath s /\
   label (state_of (nextImage E s)) = label s) /\
  (Z.of_nat (List.length l) < n ->
   raised (prevImage E s) = Some IndexError /\
   imageNumber (state_of (prevImage E s)) = Some (n - 1) /\
   imgFilePath (state_of (prevImage E s)) = imgFilePath s /\
   label (state_of (prevImage E s)) = label s).
Proof.
  intros Hl Hn Hr.
  assert (G : forall m, Z.of_nat (List.length l) <= m -> Py.getitem l m = None).
  { intros m Hm. unfold Py.getitem.
    assert (A : (m <? Z.of_nat (List.length l)) = false) by (apply Z.ltb_ge; lia).
    assert (B : (m <? 0) = false) by (apply Z.ltb_ge; lia).
    rewrite A, B, !andb_false_r. reflexivity. }
  split.
  - unfold nextImage. rewrite Hn. fields. rewrite Hl.
    assert (A : (n =? Z.of_nat (List.length l) - 1) = false) by (apply Z.eqb_neq; lia).
    rewrite A. cbn [negb]. unfold show_current. fields. rewrite Hl, (G (n + 1)) by lia.
    cbn. auto.
  - intros Hlt. unfold prevImage. rewrite Hn. fields.
    assert (A : (n =? 0) = false) by (apply Z.eqb_neq; lia).
    rewrite A. cbn [negb bind]. unfold show_current. fields. rewrite Hl, (G (n - 1)) by lia.
    cbn. auto.
Qed.

Lemma step_beyond_list_witness :
  Z.of_nat (List.length ["/d/a.jpg"; "/d/B.png"; "/d/C.gif"]) <= 4 /\
  raised (nextImage Sample.env (set_imageNumber (Some 4) Sample.opened)) = Some IndexError /\
  imageNumber (state_of (nextImage Sample.env (set_imageNumber (Some 4) Sample.opened)))
    = Some (4 + 1).
Proof.
  split; [ cbn; lia | ].
  destruct (step_beyond_list Sample.env (set_imageNumber (Some 4) Sample.opened)
              ["/d/a.jpg"; "/d/B.png"; "/d/C.gif"] 4) as [(A & B & _) _];
    [ reflexivity | reflexivity | cbn; lia | ].
  split; [ exact A | exact B ].
Defined.

(* ================================================================== *)
(** ** The navigation actions in every state *)

Section NavReady.

Variable E : Env.

Ltac break_match :=
  repeat match goal with
         | |- context [match ?x with _ => _ end] =>
             lazymatch x with
             | context [match _ with _ => _ end] => fail
             | _ => destruct x eqn:?
             end
         end.

Lemma updateFunction_widgets (i : Z) (s : State) :
  navEnabled (state_of (updateFunction E i s)) = navEnabled s /\
  frame (state_of (updateFunction E i s)) = frame s.
Proof.
  unfold updateFunction, timer_isActive, timer_start. fields.
  break_match; cbn; auto.
Qed.

Lemma selectImage_widgets (p : string) (s : State) :
  navEnabled (state_of (selectImage E p s)) = navEnabled s /\
  frame (state_of (selectImage E p s)) = frame s.
Proof. unfold selectImage. exact (updateFunction_widgets 0 (set_imgFilePath p s)). Qed.

Lemma with_log_ready (s s1 : State) :
  nav_ready s ->
  dirImageList s1 = dirImageList s -> imageNumber s1 = imageNumber s ->
  navEnabled s1 = navEnabled s ->
  nav_ready s1.
Proof. intros [A B] L N W. unfold nav_ready. rewrite L, N, W. auto. Qed.

Lemma selectImage_ready (p : string) (s : State) :
  nav_ready s -> nav_ready (state_of (selectImage E p s)).
Proof.
  intros [A B]. unfold selectImage.
  destruct (updateFunction_nav E 0 (set_imgFilePath p s)) as (_ & _ & L & N & _).
  destruct (updateFunction_widgets 0 (set_imgFilePath p s)) as [W _].
  unfold nav_ready. rewrite L, N, W. fields. auto.
Qed.

Lemma show_current_ready (s : State) :
  nav_ready s -> nav_ready (state_of (show_current E s)).
Proof.
  intros H. unfold show_current. break_match; cbn [state_of]; auto.
  apply selectImage_ready. exact H.
Qed.

Lemma nextImage_ready (s : State) :
  nav_ready s -> nav_ready (state_of (nextImage E s)).
Proof.
  intros H. unfold nextImage.
  destruct (imageNumber s) as [n|] eqn:Hn; [ | exact H ].
  fields. destruct (dirImageList s) as [l|] eqn:Hl.
  - apply show_current_ready. destruct H as [A B].
    destruct (negb (n =? Z.of_nat (List.length l) - 1)); split; fields;
      solve [ exact A | intros _; rewrite Hl; split; discriminate ].
  - cbn [state_of]. apply (with_log_ready s); auto.
Qed.

Lemma prevImage_ready (s : State) :
  nav_ready s -> nav_ready (state_of (prevImage E s)).
Proof.
  intros H. unfold prevImage.
  destruct (imageNumber s) as [n|] eqn:Hn; [ | exact H ].
  destruct (negb (n =? 0)); cbn [bind].
  - apply show_current_ready. destruct H as [A B]. split; fields.
    + exact A.
    + intros W. split; [ apply B; exact W | discriminate ].
  - fields. destruct (dirImageList s) as [l|] eqn:Hl; cbn [bind state_of].
    + apply show_current_ready. destruct H as [A B]. split; fields.
      * exact A.
      * intros _. rewrite Hl. split; discriminate.
    + apply (with_log_ready s); auto.
Qed.

Lemma dirMakeImageList_ready (h : Z) (s : State) :
  nav_ready s -> nav_ready (state_of (dirMakeImageList E h s)).
Proof.
  intros [A B]. unfold dirMakeImageList. fields.
  destruct (scan E (dirPath s)) as [|x l] eqn:Hs.
  - cbn. split; [ exact A | exact B ].
  - cbn [List.length Nat.eqb negb].
    assert (R : forall s1, dirImageList s1 = Some (x :: l) -> imageNumber s1 <> None ->
                nav_ready s1).
    { intros s1 H1 H2. split.
      - intros l0 H0. rewrite H1 in H0. inversion H0. discriminate.
      - intros _. rewrite H1. split; [ discriminate | exact H2 ]. }
    assert (Hshow : forall n s1, dirImageList s1 = Some (x :: l) ->
      nav_ready (state_of
        match Py.getitem (x :: l) n with
        | Some p => selectImage E p (set_imageNumber (Some n) s1)
                      >>= fun s2 => Ok (set_navEnabled true s2)
        | None => Raise IndexError (set_imageNumber (Some n) s1)
        end)).
    { intros n s1 H1. destruct (Py.getitem (x :: l) n) as [p|].
      - destruct (selectImage_nav E p (set_imageNumber (Some n) s1)) as (_ & _ & L & N & _).
        destruct (selectImage E p (set_imageNumber (Some n) s1)) as [s2 | e s2];
          cbn in L, N; cbn [bind state_of]; apply R; fields;
          first [ congruence | rewrite N; discriminate ].
      - cbn [state_of]. apply R; fields; [ exact H1 | discriminate ]. }
    cbv zeta. destruct (h =? 1).
    + match goal with |- context [Py.index ?a ?b] => destruct (Py.index a b) end.
      * apply Hshow. reflexivity.
      * cbn [state_of]. split.
        -- fields. intros l0 H0. inversion H0. discriminate.
        -- fields. intros H. split; [ discriminate | apply B; exact H ].
    + apply Hshow. reflexivity.
Qed.

Lemma openImage_ready (chosen : string) (s : State) :
  nav_ready s -> nav_ready (state_of (openImage E chosen s)).
Proof.
  intros H. unfold openImage. fields.
  destruct (negb (String.eqb chosen "")); [ | cbn; apply (with_log_ready s); auto ].
  destruct (negb (String.eqb (dirPath s) "")).
  - destruct (negb (String.eqb (dirPath s) (image_dir chosen))).
    + apply dirMakeImageList_ready. apply (with_log_ready s); auto.
    + fields. destruct (dirImageList s) as [l|] eqn:Hl.
      * destruct (Py.index chosen l); cbn [state_of].
        -- destruct H as [A B]. split; fields.
           ++ exact A.
           ++ intros _. rewrite Hl. split; discriminate.
        -- apply (with_log_ready s); auto.
      * cbn [state_of]. apply (with_log_ready s); auto.
  - apply dirMakeImageList_ready. apply (with_log_ready s); auto.
Qed.

Lemma openDir_ready (chosen : string) (s : State) :
  nav_ready s -> nav_ready (state_of (openDir E chosen s)).
Proof.
  intros H. unfold openDir. fields.
  destruct (negb (String.eqb chosen "")); [ | cbn; apply (with_log_ready s); auto ].
  destruct (negb (String.eqb (dirPath s) "")).
  - destruct (negb (String.eqb (dirPath s) chosen)).
    + apply dirMakeImageList_ready. apply (with_log_ready s); auto.
    + cbn. apply (with_log_ready s); auto.
  - apply dirMakeImageList_ready. apply (with_log_ready s); auto.
Qed.

Lemma handle_ready (ev : Event) (s : State) :
  nav_ready s -> nav_ready (handle E ev s).
Proof.
  intros H. destruct ev as [c | c | | | w h | ]; cbn [handle].
  - apply openImage_ready. exact H.
  - apply openDir_ready. exact H.
  - destruct (navEnabled s); [ apply prevImage_ready | ]; exact H.
  - destruct (navEnabled s); [ apply nextImage_ready | ]; exact H.
  - unfold resizeEvent.
    destruct (updateFunction_nav E 1 (set_frame (w, h) s)) as (_ & _ & L & N & _).
    destruct (updateFunction_widgets 1 (set_frame (w, h) s)) as [W _].
    apply (with_log_ready s); auto.
  - destruct (timer_isActive s); [ | exact H ].
    apply (with_log_ready s); auto.
Qed.

End NavReady.

(** X6. In every state a session can reach, a list that is in place is not
    empty, and while the navigation actions are enabled both the list and
    the index are set: an enabled [prevImage] or [nextImage] never reads an
    attribute that does not exist. *)
Theorem reachable_nav_ready (E : Env) (s : State) :
  reachable E s -> nav_ready s.
Proof.
  intros H. induction H as [geom | ev s _ IH].
  - split; [ discriminate | discriminate ].
  - apply handle_ready. exact IH.
Qed.

Lemma reachable_nav_ready_witness :
  reachable Sample.env (handle Sample.env EvNext (handle Sample.env (EvOpenDir "/d") (init (800, 600)))) /\
  nav_ready (handle Sample.env EvNext (handle Sample.env (EvOpenDir "/d") (init (800, 600)))).
Proof.
  assert (R : reachable Sample.env
                (handle Sample.env EvNext (handle Sample.env (EvOpenDir "/d") (init (800, 600))))).
  { apply reach_step. apply reach_step. apply reach_init. }
  split; [ exact R | exact (reachable_nav_ready Sample.env _ R) ].
Defined.

(* ================================================================== *)
(** ** More on opening images and directories *)

Section PathFacts.

Lemma prefix_spec (x s : string) :
  String.prefix x s = true <-> exists r, s = x ++ r.
Proof.
  revert s. induction x as [|c x IH]; intros s.
  - split; [ intros _; exists s; reflexivity | intros _; destruct s; reflexivity ].
  - destruct s as [|c' s]; cbn [String.prefix].
    + split; [ discriminate | intros [r Hr]; discriminate ].
    + destruct (ascii_dec c c') as [<- | Hne].
      * rewrite IH. split; intros [r Hr]; exists r; cbn in *; congruence.
      * split; [ discriminate | intros [r Hr]; cbn in Hr; congruence ].
Qed.

Lemma has_char_cons (c x : ascii) (s : string) :
  has_char c (String x s) = Ascii.eqb c x || has_char c s.
Proof. reflexivity. Qed.

Lemma has_char_app (c : ascii) (a b : string) :
  has_char c (a ++ b) = has_char c a || has_char c b.
Proof.
  induction a as [|x a IH]; [ reflexivity | ].
  cbn [append]. rewrite !has_char_cons, IH, orb_assoc. reflexivity.
Qed.

Lemma basename_plain (n : string) : has_char "/" n = false -> Str.basename n = n.
Proof.
  destruct n as [|c n]; [ reflexivity | ].
  rewrite has_char_cons. intros H. apply orb_false_iff in H. destruct H as [H1 H2].
  cbn [Str.basename]. rewrite Ascii.eqb_sym, H1. unfold has_char in H2. rewrite H2. reflexivity.
Qed.

Lemma basename_join (d n : string) :
  has_char "/" n = false -> Str.basename (d ++ "/" ++ n) = n.
Proof.
  intros Hn. induction d as [|c d IH].
  - cbn. apply basename_plain. exact Hn.
  - cbn [append Str.basename]. destruct (Ascii.eqb c "/"); [ exact IH | ].
    assert (H : has_char "/" (d ++ "/" ++ n) = true).
    { rewrite has_char_app. cbn [append]. rewrite has_char_cons, Ascii.eqb_refl.
      apply orb_true_r. }
    unfold has_char in H. cbn [append] in H, IH |- *. rewrite H. exact IH.
Qed.

(** A name without slash that begins [d/...] begins [d]. *)
Lemma prefix_before_slash (n d r : string) :
  has_char "/" n = false ->
  String.prefix n (d ++ "/" ++ r) = true ->
  exists r0, d = n ++ r0.
Proof.
  revert d. induction n as [|c n IH]; intros d Hn Hp.
  - exists d. reflexivity.
  - rewrite has_char_cons in Hn. apply orb_false_iff in Hn. destruct Hn as [H1 H2].
    destruct d as [|x d]; cbn [append String.prefix] in Hp.
    + destruct (ascii_dec c "/") as [-> | Hne]; [ | discriminate ].
      rewrite Ascii.eqb_refl in H1. discriminate.
    + destruct (ascii_dec c x) as [<- | Hne]; [ | discriminate ].
      destruct (IH d H2 Hp) as [r0 ->]. exists r0. reflexivity.
Qed.

Lemma replace_from_skip (old new : string) (k : nat) (s : string) :
  (String.length s <= k)%nat -> Str.replace_from old new k s = "".
Proof.
  revert k. induction s as [|c s IH]; intros k Hk; [ reflexivity | ].
  cbn [String.length] in Hk. destruct k as [|k]; [ lia | ].
  cbn [Str.replace_from]. apply IH. lia.
Qed.

Lemma replace_whole (n : string) : n <> "" -> Str.replace n "" n = "".
Proof.
  intros Hn. destruct n as [|c n]; [ congruence | ].
  unfold Str.replace. cbn [Str.replace_from].
  assert (H : String.prefix (String c n) (String c n) = true).
  { apply prefix_spec. exists "". symmetry. apply append_nil_r. }
  rewrite H. cbn [append String.length]. apply replace_from_skip. lia.
Qed.

Lemma occurs_cons (n : string) (c : ascii) (d : string) :
  occurs n d -> occurs n (String c d).
Proof. intros (a & b & ->). exists (String c a), b. reflexivity. Qed.

Lemma replace_dir (d n : string) :
  n <> "" ->
  has_char "/" n = false ->
  ~ occurs n d ->
  Str.replace n "" (d ++ "/" ++ n) = d ++ "/".
Proof.
  intros Hne Hn.
  assert (Hrep : forall s, Str.replace n "" s = Str.replace_from n "" O s).
  { intros s. destruct n; [ congruence | reflexivity ]. }
  rewrite Hrep.
  assert (Hstep : forall x t, String.prefix n (String x t) = false ->
            Str.replace_from n "" O (String x t) = String x (Str.replace_from n "" O t)).
  { intros x t Hp. cbn [Str.replace_from]. rewrite Hp. reflexivity. }
  induction d as [|x d IH]; intros Hocc.
  - change ("" ++ "/" ++ n) with (String "/" n). rewrite Hstep.
    + rewrite <- Hrep, (replace_whole n Hne). reflexivity.
    + destruct (String.prefix n (String "/" n)) eqn:Hp; [ | reflexivity ].
      destruct (prefix_before_slash n "" n Hn Hp) as [r0 Hr0].
      destruct n; [ congruence | discriminate ].
  - change (String x d ++ "/" ++ n) with (String x (d ++ "/" ++ n)). rewrite Hstep.
    + change (String x d ++ "/") with (String x (d ++ "/")). f_equal.
      apply IH. intros Ho. apply Hocc. apply occurs_cons. exact Ho.
    + destruct (String.prefix n (String x (d ++ "/" ++ n))) eqn:Hp; [ | reflexivity ].
      exfalso. apply Hocc.
      destruct (prefix_before_slash n (String x d) n Hn Hp) as [r0 Hr0].
      exists "", r0. exact Hr0.
Qed.

Lemma rstrip_app_slash (s : string) : Str.rstrip_slash (s ++ "/") = Str.rstrip_slash s.
Proof.
  induction s as [|c s IH]; [ reflexivity | ].
  cbn [append Str.rstrip_slash]. rewrite IH. reflexivity.
Qed.

Lemma rstrip_length (s : string) :
  (String.length (Str.rstrip_slash s) <= String.length s)%nat.
Proof.
  induction s as [|c s IH]; [ cbn; lia | ].
  cbn [Str.rstrip_slash]. destruct (Str.rstrip_slash s) as [|y r].
  - destruct (Ascii.eqb c "/"); cbn; lia.
  - cbn [String.length] in *. lia.
Qed.

Lemma split_head_slash (d : string) :
  Str.rstrip_slash d <> "" -> Str.split_head (d ++ "/") = Str.split_head d.
Proof.
  intros H. unfold Str.split_head. rewrite !rstrip_app_slash.
  destruct (Str.rstrip_slash d); [ congruence | reflexivity ].
Qed.

Lemma split_head_plain (d : string) :
  d <> "" -> Str.rstrip_slash d = d -> Str.split_head (d ++ "/") = d.
Proof.
  intros Hd Hr. unfold Str.split_head. rewrite !rstrip_app_slash, Hr.
  destruct d; [ congruence | reflexivity ].
Qed.

Lemma join_plain (d n : string) :
  d <> "" -> Str.rstrip_slash d = d -> Str.join d n = d ++ "/" ++ n.
Proof.
  intros Hd Hr. unfold Str.join.
  destruct (Str.endswith "/" d) eqn:He; [ | destruct d; [ congruence | reflexivity ] ].
  exfalso. apply endswith_spec in He. destruct He as [a Ha].
  pose proof (rstrip_length a) as L. rewrite Ha, rstrip_app_slash in Hr.
  rewrite Hr, str_length_app in L. cbn in L. lia.
Qed.

Lemma smap_unbackslash_id (s : string) :
  has_char "\" s = false -> smap unbackslash s = s.
Proof.
  induction s as [|c s IH]; [ reflexivity | ].
  rewrite has_char_cons. intros H. apply orb_false_iff in H. destruct H as [H1 H2].
  cbn [smap]. unfold unbackslash at 1. rewrite Ascii.eqb_sym, H1, (IH H2). reflexivity.
Qed.

End PathFacts.

(** X7. For a path made of a directory, a slash and a file name without
    slash, [os.path.basename] gives the name, and line 484 gives the
    directory with its slash, provided the name does not also stand
    somewhere in the directory ([str.replace] removes every occurrence). *)
Theorem path_parts (d n : string) :
  n <> "" ->
  has_char "/" n = false ->
  ~ occurs n d ->
  Str.basename (d ++ "/" ++ n) = n /\
  image_dir (d ++ "/" ++ n) = d ++ "/".
Proof.
  intros Hne Hn Hocc. split; [ exact (basename_join d n Hn) | ].
  unfold image_dir. rewrite (basename_join d n Hn). exact (replace_dir d n Hne Hn Hocc).
Qed.

Lemma occurs_length (x s : string) :
  occurs x s -> (String.length x <= String.length s)%nat.
Proof. intros (a & b & ->). rewrite !str_length_app. lia. Qed.

Lemma path_parts_witness :
  "B.png" <> "" /\ has_char "/" "B.png" = false /\ ~ occurs "B.png" "/d" /\
  Str.basename ("/d" ++ "/" ++ "B.png") = "B.png" /\
  image_dir ("/d" ++ "/" ++ "B.png") = "/d" ++ "/".
Proof.
  assert (H1 : "B.png" <> "") by discriminate.
  assert (H2 : ~ occurs "B.png" "/d").
  { intros H. apply occurs_length in H. cbn in H. lia. }
  split; [ exact H1 | split; [ reflexivity | split; [ exact H2 | ] ] ].
  exact (path_parts "/d" "B.png" H1 eq_refl H2).
Defined.

Section OpeningMore.

Variable E : Env.

Lemma scan_In (d n : string) :
  Str.has_magic d = false ->
  In n (listdir E (Str.split_head d)) ->
  Str.ishidden n = false ->
  has_supported_ext n = true ->
  In (entry_of d n) (scan E d).
Proof.
  intros Hm Hn Hh Hs.
  apply (Permutation_in _ (Permutation_sym (scan_perm E d Hm))).
  apply in_map. unfold kept. apply filter_In. rewrite Hh, Hs. auto.
Qed.

Lemma scan_entries (d p : string) :
  Str.has_magic d = false ->
  In p (scan E d) -> exists n, In n (listdir E (Str.split_head d)) /\ p = entry_of d n.
Proof.
  intros Hm H. apply (Permutation_in _ (scan_perm E d Hm)) in H.
  apply in_map_iff in H. destruct H as (n & <- & Hn).
  unfold kept in Hn. apply filter_In in Hn. exists n. tauto.
Qed.

Lemma index_present (x : string) (l : list string) :
  In x l -> exists i, Py.index x l = Some i.
Proof.
  intros H. destruct (Py.index x l) as [i|] eqn:Hi; [ eauto | ].
  apply index_absent in Hi. contradiction.
Qed.

(** A rescan that finds the selected path. *)
Lemma dirMakeImageList_found (s : State) (i : Z) :
  Py.index (imgFilePath s) (scan E (dirPath s)) = Some i ->
  exists s1,
    dirMakeImageList E 1 s
    = (selectImage E (imgFilePath s) s1 >>= fun s2 => Ok (set_navEnabled true s2)) /\
    dirImageList s1 = Some (scan E (dirPath s)) /\ imageNumber s1 = Some i /\
    dirPath s1 = dirPath s /\ scans s1 = S (scans s) /\
    frame s1 = frame s /\ label s1 = label s /\ navEnabled s1 = navEnabled s.
Proof.
  intros Hi. unfold dirMakeImageList. fields.
  destruct (scan E (dirPath s)) as [|x l] eqn:Hs; [ discriminate | ].
  cbn [List.length Nat.eqb negb Z.eqb]. cbv zeta. rewrite Hi.
  destruct (index_first _ _ _ Hi) as (R & N & _).
  destruct (getitem_in_range (x :: l) i R) as [G _]. rewrite G, N.
  eexists. split; [ reflexivity | ]. fields. repeat split.
Qed.

End OpeningMore.

Section OpeningMore2.

Variable E : Env.

(** The state in which [openImage] starts a rescan. *)
Lemma openImage_rescan_state (p : string) (s : State) :
  p <> "" ->
  dirPath s = "" \/ dirPath s <> image_dir p ->
  exists s1,
    openImage E p s = dirMakeImageList E 1 s1 /\
    dirPath s1 = image_dir p /\ imgFilePath s1 = p /\
    dirImageList s1 = dirImageList s /\ imageNumber s1 = imageNumber s /\
    frame s1 = frame s /\ label s1 = label s /\ navEnabled s1 = navEnabled s /\
    scans s1 = scans s /\ thumbFile s1 = thumbFile s.
Proof.
  intros Hp Hd. unfold openImage. fields.
  apply String.eqb_neq in Hp. rewrite Hp. cbn [negb].
  destruct (String.eqb (dirPath s) "") eqn:H0; cbn [negb].
  - eexists. split; [ reflexivity | ]. fields. repeat split.
  - destruct Hd as [Hd | Hd]; [ apply String.eqb_neq in H0; congruence | ].
    apply String.eqb_neq in Hd. rewrite Hd. cbn [negb].
    eexists. split; [ reflexivity | ]. fields. repeat split.
Qed.

Lemma entry_of_plain (d n : string) :
  d <> "" -> Str.rstrip_slash d = d ->
  has_char "\" (d ++ "/" ++ n) = false ->
  entry_of (d ++ "/") n = d ++ "/" ++ n.
Proof.
  intros Hd Hr Hb. unfold entry_of.
  rewrite (split_head_plain d Hd Hr), (join_plain d n Hd Hr), replace_backslash_smap.
  apply smap_unbackslash_id. exact Hb.
Qed.

(** Every call of [dirMakeImageList] walks the directory once. *)
Lemma dirMakeImageList_scans (h : Z) (s : State) :
  scans (state_of (dirMakeImageList E h s)) = S (scans s).
Proof.
  unfold dirMakeImageList. cbn [dirPath count_scan].
  destruct (scan E (dirPath s)) as [|x l]; [ reflexivity | ].
  cbn [List.length Nat.eqb negb].
  assert (Hshow : forall n s1,
    scans (state_of
      match Py.getitem (x :: l) n with
      | Some p => selectImage E p (set_imageNumber (Some n) s1)
                    >>= fun s2 => Ok (set_navEnabled true s2)
      | None => Raise IndexError (set_imageNumber (Some n) s1)
      end) = scans s1).
  { intros n s1. destruct (Py.getitem (x :: l) n) as [p|]; [ | reflexivity ].
    pose proof (selectImage_nav E p (set_imageNumber (Some n) s1)) as H.
    destruct H as (_ & _ & _ & _ & _ & H & _).
    destruct (selectImage E p (set_imageNumber (Some n) s1)); cbn in *; exact H. }
  cbv zeta. destruct (h =? 1).
  - match goal with |- context [Py.index ?a ?b] => destruct (Py.index a b) end;
      [ rewrite Hshow | ]; reflexivity.
  - rewrite Hshow. reflexivity.
Qed.

(** While [dirPath] is a directory as [openDir] stores it, without a slash
    at its end, [openImage] on an image of that directory never takes the
    branch of lines 497-498: it walks the directory again. *)
Lemma openImage_in_opened_dir_rescans (s : State) (d n : string) :
  dirPath s = d ->
  n <> "" -> has_char "/" n = false -> ~ occurs n d ->
  image_dir (d ++ "/" ++ n) = d ++ "/" /\
  scans (state_of (openImage E (d ++ "/" ++ n) s)) = S (scans s).
Proof.
  intros Hd Hne Hn Hocc.
  assert (Hid : image_dir (d ++ "/" ++ n) = d ++ "/").
  { unfold image_dir. rewrite (basename_join d n Hn). exact (replace_dir d n Hne Hn Hocc). }
  split; [ exact Hid | ].
  assert (Hp : d ++ "/" ++ n <> "") by (destruct d; discriminate).
  assert (Hdir : dirPath s = "" \/ dirPath s <> image_dir (d ++ "/" ++ n)).
  { right. rewrite Hid, Hd. intros H. apply (f_equal String.length) in H.
    rewrite str_length_app in H. cbn in H. lia. }
  destruct (openImage_rescan_state (d ++ "/" ++ n) s Hp Hdir)
    as (s1 & Hr1 & _ & _ & _ & _ & _ & _ & _ & C1 & _).
  rewrite Hr1, dirMakeImageList_scans, C1. reflexivity.
Qed.

End OpeningMore2.

(** X8. Opening, from another directory, an image [d/n] that the directory
    [d] lists (no wildcard character in [d], the name not hidden and with
    a supported extension, no backslash in the path, [n] not standing in
    [d] as well) rescans [d] once and finds the image: the list is the
    scan of [d/], the index is the position of the path in it, and no
    [ValueError] is raised.  The image is shown and the navigation actions
    are enabled when it loads; when it does not, an exception leaves the
    handler and the actions stay as they were; when it does not even open,
    the label keeps the previous image. *)
Theorem openImage_finds_listed (E : Env) (s : State) (d n : string) :
  d <> "" -> Str.rstrip_slash d = d -> Str.has_magic d = false ->
  n <> "" -> has_char "/" n = false -> ~ occurs n d ->
  has_char "\" (d ++ "/" ++ n) = false ->
  In n (listdir E d) -> Str.ishidden n = false -> has_supported_ext n = true ->
  dirPath s = "" \/ dirPath s <> d ++ "/" ->
  let p := d ++ "/" ++ n in
  let r := openImage E p s in
  exists i,
    Py.index p (scan E (d ++ "/")) = Some i /\
    nth_error (scan E (d ++ "/")) (Z.to_nat i) = Some p /\
    dirPath (state_of r) = d ++ "/" /\
    dirImageList (state_of r) = Some (scan E (d ++ "/")) /\
    imageNumber (state_of r) = Some i /\
    imgFilePath (state_of r) = p /\
    scans (state_of r) = S (scans s) /\
    (loads E p = true ->
       raised r = None /\ navEnabled (state_of r) = true /\
       thumbFile (state_of r) = Some p /\
       label (state_of r)
       = Some (MkPixmap (QPixmap p (state_of r)) (fst (frame s)) (snd (frame s)) true)) /\
    (loads E p = false ->
       raised r <> None /\ navEnabled (state_of r) = navEnabled s) /\
    (forall e, image_open E p = inl e ->
       raised r = Some e /\ navEnabled (state_of r) = navEnabled s /\
       label (state_of r) = label s).
Proof.
  intros Hd Hr Hm Hne Hn Hocc Hb Hin Hh Hs Hdir p r.
  assert (Hp : p <> "").
  { subst p. destruct d; [ congruence | discriminate ]. }
  assert (Hid : image_dir p = d ++ "/").
  { unfold image_dir. subst p. rewrite (basename_join d n Hn).
    exact (replace_dir d n Hne Hn Hocc). }
  assert (Hdir' : dirPath s = "" \/ dirPath s <> image_dir p) by (rewrite Hid; exact Hdir).
  destruct (openImage_rescan_state E p s Hp Hdir')
    as (s1 & Hr1 & D1 & P1 & _ & _ & F1 & L1 & W1 & C1 & _).
  assert (Hm' : Str.has_magic (d ++ "/") = false).
  { rewrite has_magic_app, Hm. reflexivity. }
  assert (Hentry : In p (scan E (d ++ "/"))).
  { unfold p. rewrite <- (entry_of_plain d n Hd Hr Hb). apply scan_In; auto.
    rewrite (split_head_plain d Hd Hr). exact Hin. }
  destruct (index_present p _ Hentry) as [i Hi]. exists i.
  split; [ exact Hi | ].
  split; [ exact (proj1 (proj2 (index_first _ _ _ Hi))) | ].
  assert (Hi1 : Py.index (imgFilePath s1) (scan E (dirPath s1)) = Some i).
  { rewrite P1, D1, Hid. exact Hi. }
  destruct (dirMakeImageList_found E s1 i Hi1)
    as (s2 & Hr2 & L2 & N2 & D2 & C2 & F2 & Lab2 & W2).
  subst r. rewrite Hr1, Hr2, P1.
  destruct (selectImage_nav E p s2) as (A & B & C & D & _ & G & _).
  destruct (selectImage_widgets E p s2) as [W _].
  destruct (selectImage E p s2) as [s3 | e3 s3] eqn:Hsel;
    cbn [bind state_of raised] in *; fields.
  - split; [ congruence | ]. split; [ congruence | ]. split; [ congruence | ].
    split; [ congruence | ]. split; [ congruence | ]. split; [ | split ].
    + intros Hl.
      destruct (selectImage_ok E p s2 Hp Hl) as (s4 & Hs4 & _ & T & _ & _ & Lab & _).
      rewrite Hsel in Hs4. inversion Hs4; subst s4.
      repeat split; try assumption.
      rewrite Lab. unfold QPixmap. fields. rewrite F2, F1. reflexivity.
    + intros Hl. exfalso. apply (selectImage_not_loads E p s2 Hp Hl).
      rewrite Hsel. reflexivity.
    + intros e He. rewrite (selectImage_fails E p s2 e Hp He) in Hsel. discriminate.
  - split; [ congruence | ]. split; [ congruence | ]. split; [ congruence | ].
    split; [ congruence | ]. split; [ congruence | ]. split; [ | split ].
    + intros Hl. destruct (selectImage_ok E p s2 Hp Hl) as (s4 & Hs4 & _).
      rewrite Hsel in Hs4. discriminate.
    + intros Hl. split; [ discriminate | congruence ].
    + intros e He. rewrite (selectImage_fails E p s2 e Hp He) in Hsel.
      inversion Hsel; subst. fields. repeat split; congruence.
Qed.

Lemma openImage_finds_listed_witness :
  In "B.png" (listdir Sample.env "/d") /\
  exists i,
    Py.index ("/d" ++ "/" ++ "B.png") (scan Sample.env ("/d" ++ "/")) = Some i /\
    imageNumber (state_of (openImage Sample.env ("/d" ++ "/" ++ "B.png") (init (800, 600))))
      = Some i.
Proof.
  assert (Hin : In "B.png" (listdir Sample.env "/d")) by (cbn; tauto).
  assert (Hocc : ~ occurs "B.png" "/d").
  { intros H. apply occurs_length in H. cbn in H. lia. }
  split; [ exact Hin | ].
  destruct (openImage_finds_listed Sample.env (init (800, 600)) "/d" "B.png")
    as (i & A & _ & _ & _ & B & _);
    [ discriminate | reflexivity | reflexivity | discriminate | reflexivity | exact Hocc
    | reflexivity | exact Hin | reflexivity | reflexivity | left; reflexivity | ].
  exists i. split; [ exact A | exact B ].
Defined.

(** X9. An image that lies directly in the root directory is never found:
    line 484 gives the directory [/], for which [glob] returns paths that
    begin with two slashes, so [list.index] raises [ValueError] although
    the image is in the rebuilt list under its two-slash path. *)
Theorem openImage_root_image (E : Env) (s : State) (n : string) :
  n <> "" -> has_char "/" n = false ->
  In n (listdir E "//") -> Str.ishidden n = false -> has_supported_ext n = true ->
  dirPath s = "" \/ dirPath s <> "/" ->
  let p := "/" ++ n in
  let r := openImage E p s in
  image_dir p = "/" /\
  In (entry_of "/" n) (scan E "/") /\
  ~ In p (scan E "/") /\
  raised r = Some ValueError /\
  dirImageList (state_of r) = Some (scan E "/") /\
  imageNumber (state_of r) = imageNumber s.
Proof.
  intros Hne Hn Hin Hh Hs Hdir p r.
  assert (Hid : image_dir p = "/").
  { unfold image_dir, p. change ("/" ++ n) with ("" ++ "/" ++ n).
    rewrite (basename_join "" n Hn). apply (replace_dir "" n Hne Hn).
    intros H. apply occurs_length in H. destruct n; [ congruence | cbn in H; lia ]. }
  assert (Hlisted : In (entry_of "/" n) (scan E "/")).
  { apply scan_In; [ reflexivity | exact Hin | exact Hh | exact Hs ]. }
  assert (Habs : ~ In p (scan E "/")).
  { intros H. apply (scan_entries E "/" p eq_refl) in H. destruct H as (m & _ & Hm).
    unfold entry_of in Hm. rewrite replace_backslash_smap in Hm.
    change (Str.join (Str.split_head "/") m) with (String "/" (String "/" m)) in Hm.
    cbn [smap] in Hm. unfold p in Hm. cbn [append] in Hm.
    destruct n as [|c n0]; [ congruence | ].
    rewrite has_char_cons in Hn. apply orb_false_iff in Hn. destruct Hn as [Hc _].
    inversion Hm as [Hc']. unfold unbackslash in Hc'. cbn in Hc'. subst c.
    discriminate. }
  split; [ exact Hid | split; [ exact Hlisted | split; [ exact Habs | ] ] ].
  assert (Hp : p <> "") by discriminate.
  assert (Hdir' : dirPath s = "" \/ dirPath s <> image_dir p) by (rewrite Hid; exact Hdir).
  destruct (openImage_rescans E p s Hp Hdir') as (s1 & Hr1 & D1 & P1 & L1 & N1).
  subst r. rewrite Hr1.
  assert (Hne1 : scan E (dirPath s1) <> []).
  { rewrite D1, Hid. intros H0. rewrite H0 in Hlisted. contradiction. }
  assert (Hidx : Py.index (imgFilePath s1) (scan E (dirPath s1)) = None).
  { rewrite D1, Hid, P1. apply index_absent. exact Habs. }
  destruct (dirMakeImageList_absent E s1 Hne1 Hidx) as (X & Y & Z).
  rewrite X, Y, Z, D1, Hid, N1. auto.
Qed.

Lemma openImage_root_image_witness :
  In "x.png" (listdir root_env "//") /\
  raised (openImage root_env ("/" ++ "x.png") (init (800, 600))) = Some ValueError /\
  dirImageList (state_of (openImage root_env ("/" ++ "x.png") (init (800, 600))))
    = Some (scan root_env "/").
Proof.
  assert (Hin : In "x.png" (listdir root_env "//")) by (cbn; tauto).
  split; [ exact Hin | ].
  destruct (openImage_root_image root_env (init (800, 600)) "x.png")
    as (_ & _ & _ & A & B & _);
    [ discriminate | reflexivity | exact Hin | reflexivity | reflexivity
    | left; reflexivity | ].
  split; [ exact A | exact B ].
Defined.

(** X10. A slash at the end of the directory does not change what a scan
    lists (for a directory that is not made of slashes only): the list
    [openImage] builds for [d/] is the list [openDir] builds for [d]. *)
Theorem scan_trailing_slash (E : Env) (d : string) :
  Str.rstrip_slash d <> "" ->
  scan E (d ++ "/") = scan E d.
Proof.
  intros H. unfold scan. f_equal. f_equal.
  apply flat_map_ext. intros pat. unfold glob.
  rewrite (split_head_slash d H). reflexivity.
Qed.

Lemma scan_trailing_slash_witness :
  Str.rstrip_slash "/d" <> "" /\
  scan Sample.env ("/d" ++ "/") = scan Sample.env "/d".
Proof.
  assert (H : Str.rstrip_slash "/d" <> "") by (cbn; discriminate).
  split; [ exact H | exact (scan_trailing_slash Sample.env "/d" H) ].
Defined.

(** X11. [openDir] on a directory other than the one in place, and whose
    scan finds images, rescans once and selects the first entry: the list
    is the scan, the index is 0 and [imgFilePath] the first entry.  When
    that image loads it is shown and the navigation actions are enabled;
    when it does not, an exception leaves the handler and the actions stay
    as they were; when it does not even open, the label stays as it was
    too. *)
Theorem openDir_selects_first (E : Env) (s : State) (d p : string) (rest : list string) :
  d <> "" ->
  dirPath s <> d ->
  scan E d = p :: rest ->
  let r := openDir E d s in
  dirPath (state_of r) = d /\
  dirImageList (state_of r) = Some (p :: rest) /\
  imageNumber (state_of r) = Some 0 /\
  imgFilePath (state_of r) = p /\
  scans (state_of r) = S (scans s) /\
  (p <> "" -> loads E p = true ->
     raised r = None /\ navEnabled (state_of r) = true /\
     thumbFile (state_of r) = Some p /\
     label (state_of r)
     = Some (MkPixmap (QPixmap p (state_of r)) (fst (frame s)) (snd (frame s)) true)) /\
  (p <> "" -> loads E p = false ->
     raised r <> None /\ navEnabled (state_of r) = navEnabled s) /\
  (forall e, p <> "" -> image_open E p = inl e ->
     raised r = Some e /\ navEnabled (state_of r) = navEnabled s /\
     label (state_of r) = label s).
Proof.
  intros Hd Hne Hs r.
  assert (Hr : exists s1,
    r = (selectImage E p s1 >>= fun s2 => Ok (set_navEnabled true s2)) /\
    dirPath s1 = d /\ dirImageList s1 = Some (p :: rest) /\ imageNumber s1 = Some 0 /\
    scans s1 = S (scans s) /\ frame s1 = frame s /\ label s1 = label s /\
    navEnabled s1 = navEnabled s).
  { subst r. unfold openDir. fields.
    apply String.eqb_neq in Hd. rewrite Hd. cbn [negb].
    assert (Hdm : forall s0, dirPath s0 = d ->
      dirMakeImageList E 0 s0
      = (selectImage E p
           (set_imageNumber (Some 0)
              (set_dirImageList (Some (p :: rest))
                 (logmsg LogSetList
                    (logmsg (LogListLen (List.length (p :: rest)))
                       (logmsg (LogList (p :: rest))
                          (logmsg LogListNotEmpty (count_scan s0)))))))
         >>= fun s2 => Ok (set_navEnabled true s2))).
    { intros s0 H0. unfold dirMakeImageList. fields. rewrite H0, Hs. reflexivity. }
    destruct (String.eqb (dirPath s) "") eqn:Hblank; cbn [negb].
    - rewrite Hdm by reflexivity. eexists. split; [ reflexivity | ]. fields. repeat split.
    - apply String.eqb_neq in Hne. rewrite Hne. cbn [negb].
      rewrite Hdm by reflexivity. eexists. split; [ reflexivity | ]. fields. repeat split. }
  destruct Hr as (s1 & -> & D1 & L1 & N1 & C1 & F1 & Lab1 & W1).
  destruct (selectImage_nav E p s1) as (A & B & C & D & _ & G & _).
  destruct (selectImage_widgets E p s1) as [W _].
  destruct (selectImage E p s1) as [s3 | e3 s3] eqn:Hsel; cbn [bind state_of raised] in *; fields.
  - split; [ congruence | ]. split; [ congruence | ]. split; [ congruence | ].
    split; [ congruence | ]. split; [ congruence | ]. split; [ | split ].
    + intros Hp Hl.
      destruct (selectImage_ok E p s1 Hp Hl) as (s4 & Hs4 & _ & T & _ & _ & Lab & _).
      rewrite Hsel in Hs4. inversion Hs4; subst s4.
      repeat split; try assumption.
      rewrite Lab. unfold QPixmap. fields. rewrite F1. reflexivity.
    + intros Hp Hl. exfalso. apply (selectImage_not_loads E p s1 Hp Hl).
      rewrite Hsel. reflexivity.
    + intros e Hp He. rewrite (selectImage_fails E p s1 e Hp He) in Hsel. discriminate.
  - split; [ congruence | ]. split; [ congruence | ]. split; [ congruence | ].
    split; [ congruence | ]. split; [ congruence | ]. split; [ | split ].
    + intros Hp Hl.
      destruct (selectImage_ok E p s1 Hp Hl) as (s4 & Hs4 & _).
      rewrite Hsel in Hs4. discriminate.
    + intros Hp Hl. split; [ discriminate | congruence ].
    + intros e Hp He. rewrite (selectImage_fails E p s1 e Hp He) in Hsel.
      inversion Hsel; subst. fields. repeat split; congruence.
Qed.

Lemma openDir_selects_first_witness :
  scan Sample.env "/d" = "/d/a.jpg" :: ["/d/B.png"; "/d/C.gif"] /\
  imageNumber (state_of (openDir Sample.env "/d" (init (800, 600)))) = Some 0 /\
  imgFilePath (state_of (openDir Sample.env "/d" (init (800, 600)))) = "/d/a.jpg".
Proof.
  split; [ reflexivity | ].
  destruct (openDir_selects_first Sample.env (init (800, 600)) "/d" "/d/a.jpg"
              ["/d/B.png"; "/d/C.gif"]) as (_ & _ & A & B & _);
    [ discriminate | cbn; discriminate | reflexivity | ].
  split; [ exact A | exact B ].
Defined.

(* ================================================================== *)
(** ** More on resizing *)

Section RenderMore.

Variable E : Env.

Lemma run_resizes_cons (t : Z) (wh : Z * Z) (evs : list (Z * (Z * Z))) (s : State) :
  run_resizes E ((t, wh) :: evs) s = run_resizes E evs (deliver_resize E t wh s).
Proof. unfold run_resizes at 1. fold (run_resizes E). reflexivity. Qed.

(** One resize event, whatever the timer does before it. *)
Lemma deliver_resize_any (t : Z) (wh : Z * Z) (s : State) (out : string) :
  imgFilePath s <> "" ->
  imTOut s = Some out ->
  let s' := deliver_resize E t wh s in
  imgFilePath s' = imgFilePath s /\ imTOut s' = imTOut s /\ thumbFile s' = thumbFile s /\
  timer s' <> None /\ mwWidth s' = fst wh /\ mwHeight s' = snd wh /\
  timer s' = Some (match timer s with
                   | Some d => if d <=? t then t + debounce else d
                   | None => t + debounce
                   end) /\
  exists fired,
    shown s' = (shown s ++ fired ++ [(t, MkPixmap (QPixmap out s) (fst wh) (snd wh) false)])%list /\
    (fired = [] \/
     exists d, timer s = Some d /\ d <= t /\
       fired = [(d, MkPixmap (QPixmap (imgFilePath s) s) (mwWidth s) (mwHeight s) true)]).
Proof.
  intros Hp Ho. unfold deliver_resize, fire_due, resizeEvent, updateFunction.
  apply String.eqb_neq in Hp.
  destruct (timer s) as [d|] eqn:Ht.
  - destruct (d <=? t) eqn:Hd.
    + unfold updateTimerFunc, timer_stop, timer_isActive, timer_start, QPixmap. fields.
      rewrite Hp. cbn [negb Z.eqb Pos.eqb]. fields. rewrite Ho. cbn [state_of]. fields.
      repeat split; try discriminate; try congruence.
      eexists. split; [ rewrite <- app_assoc; reflexivity | ].
      right. exists d. apply Z.leb_le in Hd. auto.
    + unfold timer_isActive, timer_start, QPixmap. fields.
      rewrite Hp, Ht. cbn [negb Z.eqb Pos.eqb]. fields. rewrite Ho. cbn [state_of]. fields.
      rewrite Ht. repeat split; try discriminate; try congruence.
      exists []. split; [ reflexivity | left; reflexivity ].
  - unfold timer_isActive, timer_start, QPixmap. fields.
    rewrite Hp, Ht. cbn [negb Z.eqb Pos.eqb]. fields. rewrite Ho. cbn [state_of]. fields.
    repeat split; try discriminate; try congruence.
    exists []. split; [ reflexivity | left; reflexivity ].
Qed.

Lemma run_resizes_last (evs : list (Z * (Z * Z))) (s : State) (out : string) :
  imgFilePath s <> "" ->
  imTOut s = Some out ->
  evs <> [] ->
  imgFilePath (run_resizes E evs s) = imgFilePath s /\
  imTOut (run_resizes E evs s) = imTOut s /\
  thumbFile (run_resizes E evs s) = thumbFile s /\
  timer (run_resizes E evs s) <> None /\
  mwWidth (run_resizes E evs s) = fst (last_size evs) /\
  mwHeight (run_resizes E evs s) = snd (last_size evs).
Proof.
  revert s. induction evs as [|[t wh] evs IH]; intros s Hp Ho Hne; [ congruence | ].
  pose proof (deliver_resize_any t wh s out Hp Ho) as H0. cbv zeta in H0.
  destruct H0 as (P & O & T & A & W & H & _ & _).
  rewrite run_resizes_cons. destruct evs as [|ev evs'].
  - unfold last_size. cbn [run_resizes List.last snd]. repeat split; assumption.
  - destruct (IH (deliver_resize E t wh s)) as (P2 & O2 & T2 & A2 & W2 & H2).
    + rewrite P. exact Hp.
    + rewrite O. exact Ho.
    + discriminate.
    + assert (L : last_size ((t, wh) :: ev :: evs') = last_size (ev :: evs')) by reflexivity.
      rewrite L, P2, O2, T2, W2, H2, P, O, T. repeat split. exact A2.
Qed.

End RenderMore.

(** X13. However the resize events of a burst are spaced, once they have
    stopped and the timer has run out the label shows the selected image
    itself, scaled smoothly to the size given by the last event, and the
    timer is idle. *)
Theorem resize_ends_in_high_fidelity
    (E : Env) (s : State) (evs : list (Z * (Z * Z))) (out : string) :
  imgFilePath s <> "" ->
  imgFilePath s <> thumb_path ->
  imTOut s = Some out ->
  evs <> [] ->
  let s' := settle (run_resizes E evs s) in
  label s'
  = Some (MkPixmap (Original (imgFilePath s)) (fst (last_size evs)) (snd (last_size evs)) true) /\
  option_map quality (label s') = Some HighFidelity /\
  timer s' = None.
Proof.
  intros Hp Hnt Ho Hne.
  destruct (run_resizes_last E evs s out Hp Ho Hne) as (P & _ & _ & A & W & H).
  cbv zeta. unfold settle.
  destruct (timer (run_resizes E evs s)) as [d|] eqn:Ht; [ | congruence ].
  unfold updateTimerFunc, timer_stop, QPixmap. fields. rewrite P, W, H.
  apply String.eqb_neq in Hnt. rewrite Hnt. repeat split.
Qed.

Lemma resize_ends_in_high_fidelity_witness :
  [(0, (800, 600)); (200, (700, 500)); (400, (600, 400))] <> [] /\
  label (settle (run_resizes Sample.env
                   [(0, (800, 600)); (200, (700, 500)); (400, (600, 400))] Sample.opened))
  = Some (MkPixmap (Original "/d/B.png") 600 400 true).
Proof.
  split; [ discriminate | ].
  destruct (resize_ends_in_high_fidelity Sample.env Sample.opened
              [(0, (800, 600)); (200, (700, 500)); (400, (600, 400))] thumb_path)
    as (A & _); [ cbv; discriminate | cbv; discriminate | reflexivity | discriminate | ].
  exact A.
Defined.

Section Spacing.

Variable E : Env.

Lemma high_times_app (a b : list (Z * Pixmap)) :
  high_times (a ++ b) = (high_times a ++ high_times b)%list.
Proof. unfold high_times. rewrite filter_app, map_app. reflexivity. Qed.

Lemma spaced_snoc (l : list Z) (d : Z) :
  spaced l -> Forall (fun a => a + debounce <= d) l -> spaced (l ++ [d]).
Proof.
  unfold spaced. induction l as [|x l IH]; intros Hs Hf; cbn.
  - repeat constructor.
  - inversion Hs as [|? ? Hs' Hx]; subst. inversion Hf as [|? ? Hxd Hf']; subst.
    constructor; [ apply IH; assumption | ].
    apply Forall_app. split; [ exact Hx | repeat constructor; exact Hxd ].
Qed.

Lemma upgrade_times_step (t1 t2 : Z) (p1 p2 : Pixmap) (h : list (Z * Pixmap)) :
  upgrade_times ((t1, p1) :: (t2, p2) :: h)
  = match quality p1, quality p2 with
    | LowFidelity, HighFidelity => t2 :: upgrade_times ((t2, p2) :: h)
    | _, _ => upgrade_times ((t2, p2) :: h)
    end.
Proof. reflexivity. Qed.

Lemma high_times_cons (t : Z) (p : Pixmap) (h : list (Z * Pixmap)) :
  high_times ((t, p) :: h)
  = match quality p with
    | LowFidelity => high_times h
    | HighFidelity => t :: high_times h
    end.
Proof. unfold high_times, is_low. cbn [filter snd]. destruct (quality p); reflexivity. Qed.

(** An upgrade happens where a high-fidelity pixmap was set. *)
Lemma upgrade_times_tail (e : Z * Pixmap) (h : list (Z * Pixmap)) (u : Z) :
  In u (upgrade_times (e :: h)) -> In u (high_times h).
Proof.
  revert e. induction h as [|[t2 p2] h IH]; intros [t1 p1] Hu; [ contradiction | ].
  rewrite upgrade_times_step in Hu. rewrite high_times_cons.
  destruct (quality p1); destruct (quality p2).
  - apply (IH (t2, p2)). exact Hu.
  - destruct Hu as [<- | Hu]; [ left; reflexivity | right; apply (IH (t2, p2)); exact Hu ].
  - apply (IH (t2, p2)). exact Hu.
  - right. apply (IH (t2, p2)). exact Hu.
Qed.

Lemma upgrade_times_spaced (h : list (Z * Pixmap)) :
  spaced (high_times h) -> spaced (upgrade_times h).
Proof.
  unfold spaced. induction h as [|[t1 p1] h IH]; intros Hs; [ constructor | ].
  assert (Hs' : StronglySorted (fun a b => a + debounce <= b) (high_times h)).
  { rewrite high_times_cons in Hs. destruct (quality p1); [ exact Hs | ].
    inversion Hs; assumption. }
  specialize (IH Hs').
  destruct h as [|[t2 p2] h']; [ constructor | ].
  rewrite upgrade_times_step.
  destruct (quality p1); destruct (quality p2) eqn:Q2; try exact IH.
  constructor; [ exact IH | ].
  apply Forall_forall. intros u Hu. apply upgrade_times_tail in Hu.
  rewrite high_times_cons, Q2 in Hs'. inversion Hs' as [|? ? _ Hall]; subst.
  rewrite Forall_forall in Hall. apply Hall. exact Hu.
Qed.

Lemma deliver_resize_paced (t : Z) (wh : Z * Z) (s : State) (hs : list Z) (now : Z) :
  imgFilePath s <> "" ->
  imgFilePath s <> thumb_path ->
  imTOut s = Some thumb_path ->
  paced s hs now ->
  now <= t ->
  exists new,
    shown (deliver_resize E t wh s) = (shown s ++ new)%list /\
    paced (deliver_resize E t wh s) (hs ++ high_times new) t.
Proof.
  intros Hp Hnt Ho (S1 & S2 & S3) Hle.
  pose proof (deliver_resize_any E t wh s thumb_path Hp Ho) as H0. cbv zeta in H0.
  destruct H0 as (_ & _ & _ & _ & _ & _ & T & fired & Hsh & Hf).
  exists (fired ++ [(t, MkPixmap (QPixmap thumb_path s) (fst wh) (snd wh) false)])%list.
  split; [ exact Hsh | ].
  assert (Hlow : high_times [(t, MkPixmap (QPixmap thumb_path s) (fst wh) (snd wh) false)] = []).
  { reflexivity. }
  rewrite high_times_app, Hlow, app_nil_r.
  assert (Hnow : Forall (fun a => a <= t) hs).
  { eapply Forall_impl; [ | exact S2 ]. cbn. intros; lia. }
  destruct Hf as [-> | (d & Hd & Hdt & ->)].
  - cbn [high_times filter map]. rewrite app_nil_r.
    split; [ exact S1 | split; [ exact Hnow | ] ].
    intros d Hd. rewrite T in Hd. destruct (timer s) as [d0|] eqn:Ht.
    + destruct (d0 <=? t) eqn:Hd0; inversion Hd; subst.
      * eapply Forall_impl; [ | exact Hnow ]. cbn. intros; lia.
      * apply S3. reflexivity.
    + inversion Hd; subst. eapply Forall_impl; [ | exact Hnow ]. cbn. intros; lia.
  - assert (Hhigh : high_times
              [(d, MkPixmap (QPixmap (imgFilePath s) s) (mwWidth s) (mwHeight s) true)] = [d]).
    { unfold high_times, is_low, quality, QPixmap. cbn [filter snd pix_src].
      apply String.eqb_neq in Hnt. rewrite Hnt. reflexivity. }
    rewrite Hhigh.
    split; [ apply spaced_snoc; [ exact S1 | apply S3; exact Hd ] | ].
    split; [ apply Forall_app; split; [ exact Hnow | repeat constructor; exact Hdt ] | ].
    intros d1 Hd1. rewrite T, Hd in Hd1.
    assert (Hdle : (d <=? t) = true) by (apply Z.leb_le; exact Hdt).
    rewrite Hdle in Hd1. inversion Hd1; subst.
    apply Forall_app. split.
    + eapply Forall_impl; [ | exact Hnow ]. cbn. intros; lia.
    + repeat constructor. lia.
Qed.

Lemma run_resizes_paced (evs : list (Z * (Z * Z))) (s : State) (hs : list Z) (now : Z) :
  imgFilePath s <> "" ->
  imgFilePath s <> thumb_path ->
  imTOut s = Some thumb_path ->
  paced s hs now ->
  Sorted Z.le (now :: map fst evs) ->
  exists new last,
    shown (run_resizes E evs s) = (shown s ++ new)%list /\
    paced (run_resizes E evs s) (hs ++ high_times new) last /\
    imgFilePath (run_resizes E evs s) = imgFilePath s.
Proof.
  revert s hs now. induction evs as [|[t wh] evs IH]; intros s hs now Hp Hnt Ho Hpaced Hsorted.
  - exists [], now. cbn [run_resizes high_times filter map]. rewrite !app_nil_r. auto.
  - cbn [map fst] in Hsorted. inversion Hsorted as [|? ? Hs' Hhd]; subst.
    inversion Hhd as [|? ? Hle]; subst.
    destruct (deliver_resize_paced t wh s hs now Hp Hnt Ho Hpaced Hle) as (new1 & Sh1 & P1).
    pose proof (deliver_resize_any E t wh s thumb_path Hp Ho) as H0. cbv zeta in H0.
    destruct H0 as (I1 & O1 & _).
    rewrite run_resizes_cons.
    destruct (IH (deliver_resize E t wh s) (hs ++ high_times new1)%list t)
      as (new2 & last & Sh2 & P2 & I2);
      [ rewrite I1; exact Hp | rewrite I1; exact Hnt | rewrite O1; exact Ho
      | exact P1 | exact Hs' | ].
    exists (new1 ++ new2)%list, last.
    rewrite Sh2, Sh1, <- app_assoc, high_times_app.
    rewrite <- app_assoc in P2.
    split; [ reflexivity | split; [ exact P2 | rewrite I2; exact I1 ] ].
Qed.

End Spacing.

(** X16. The expensive rescale is rate-limited: for resize events in
    chronological order that start with the timer idle, any two
    low-to-high upgrades of the display, the one after the last event
    included, are at least 250 apart. *)
Theorem upgrades_spaced (E : Env) (s : State) (evs : list (Z * (Z * Z))) :
  imgFilePath s <> "" ->
  imgFilePath s <> thumb_path ->
  imTOut s = Some thumb_path ->
  timer s = None ->
  Sorted Z.le (map fst evs) ->
  spaced (upgrade_times (shown_since s (settle (run_resizes E evs s)))).
Proof.
  intros Hp Hnt Ho Ht Hsorted.
  destruct evs as [|[t0 wh0] evs'].
  - cbn [run_resizes]. unfold settle. rewrite Ht.
    rewrite (shown_since_app s s []) by (rewrite app_nil_r; reflexivity). constructor.
  - assert (Hpaced : paced s [] t0).
    { split; [ constructor | split; [ constructor | intros; constructor ] ]. }
    assert (Hs2 : Sorted Z.le (t0 :: map fst ((t0, wh0) :: evs'))).
    { constructor; [ exact Hsorted | constructor; cbn; lia ]. }
    destruct (run_resizes_paced E _ s [] t0 Hp Hnt Ho Hpaced Hs2)
      as (new & last & Sh & (S1 & S2 & S3) & I).
    cbn [app] in S1, S2, S3.
    apply upgrade_times_spaced. unfold settle.
    destruct (timer (run_resizes E ((t0, wh0) :: evs') s)) as [d|] eqn:Htm.
    + unfold updateTimerFunc, timer_stop.
      rewrite (shown_since_app s _
                 (new ++ [(d, MkPixmap
                              (QPixmap (imgFilePath (run_resizes E ((t0, wh0) :: evs') s))
                                 (set_clock d (run_resizes E ((t0, wh0) :: evs') s)))
                              (mwWidth (run_resizes E ((t0, wh0) :: evs') s))
                              (mwHeight (run_resizes E ((t0, wh0) :: evs') s)) true)])%list).
      * rewrite high_times_app.
        assert (Hhigh : forall q w h, high_times [(d, MkPixmap (QPixmap (imgFilePath s) q) w h true)] = [d]).
        { intros q w h. unfold high_times, is_low, quality, QPixmap. cbn [filter snd pix_src].
          apply String.eqb_neq in Hnt. rewrite Hnt. reflexivity. }
        rewrite I, Hhigh. apply spaced_snoc; [ exact S1 | apply S3; reflexivity ].
      * fields. rewrite Sh, <- app_assoc. reflexivity.
    + rewrite (shown_since_app s _ new Sh). exact S1.
Qed.

Lemma upgrades_spaced_witness :
  Sorted Z.le (map fst [(0, (800, 600)); (200, (700, 500)); (400, (600, 400))]) /\
  spaced (upgrade_times
            (shown_since Sample.opened
               (settle (run_resizes Sample.env
                          [(0, (800, 600)); (200, (700, 500)); (400, (600, 400))]
                          Sample.opened)))).
Proof.
  assert (H : Sorted Z.le (map fst [(0, (800, 600)); (200, (700, 500)); (400, (600, 400))])).
  { cbn. repeat constructor; lia. }
  split; [ exact H | ].
  apply (upgrades_spaced Sample.env Sample.opened);
    [ cbv; discriminate | cbv; discriminate | reflexivity | reflexivity | exact H ].
Defined.

Section RenderMore2.

Variable E : Env.

Lemma run_resizes_redraws (evs : list (Z * (Z * Z))) (s : State) :
  imgFilePath s <> "" ->
  imgFilePath s <> thumb_path ->
  imTOut s = Some thumb_path ->
  exists new,
    shown (run_resizes E evs s) = (shown s ++ new)%list /\
    filter is_low new = map (redraw_of (thumbFile s)) evs.
Proof.
  revert s. induction evs as [|[t wh] evs IH]; intros s Hp Hnt Ho.
  - exists []. cbn. rewrite app_nil_r. auto.
  - pose proof (deliver_resize_any E t wh s thumb_path Hp Ho) as H0. cbv zeta in H0.
    destruct H0 as (I1 & O1 & T1 & _ & _ & _ & _ & fired & Sh1 & Hf).
    rewrite run_resizes_cons.
    destruct (IH (deliver_resize E t wh s)) as (new2 & Sh2 & F2);
      [ rewrite I1; exact Hp | rewrite I1; exact Hnt | rewrite O1; exact Ho | ].
    eexists. split; [ rewrite Sh2, Sh1, <- !app_assoc; reflexivity | ].
    rewrite !filter_app, F2, T1. cbn [map]. unfold redraw_of at 2. cbn [fst snd].
    assert (Hfired : filter is_low fired = []).
    { destruct Hf as [-> | (d & _ & _ & ->)]; [ reflexivity | ].
      unfold is_low, quality, QPixmap. cbn [filter snd pix_src].
      apply String.eqb_neq in Hnt. rewrite Hnt. reflexivity. }
    rewrite Hfired. reflexivity.
Qed.

Lemma deliver_resize_blank (t : Z) (wh : Z * Z) (s : State) :
  imgFilePath s = "" ->
  timer s = None ->
  let s' := deliver_resize E t wh s in
  imgFilePath s' = "" /\ timer s' = None /\ label s' = label s /\ shown s' = shown s /\
  dirImageList s' = dirImageList s /\ imageNumber s' = imageNumber s /\
  thumbFile s' = thumbFile s.
Proof.
  intros Hp Ht. unfold deliver_resize, fire_due, resizeEvent. rewrite Ht.
  rewrite updateFunction_blank by (fields; exact Hp).
  cbn [state_of]. fields. repeat split; auto.
Qed.

End RenderMore2.

(** X12. Cancelling the open-image dialog empties [imgFilePath] (line 477
    assigns before line 482 tests).  With the timer idle, the image stays
    on the label, list and index stay as they were, but no resize event
    redraws the image any more and none starts the timer. *)
Theorem cancelled_open_freezes_display (E : Env) (s : State) (evs : list (Z * (Z * Z))) :
  timer s = None ->
  let s1 := state_of (openImage E "" s) in
  let s2 := run_resizes E evs s1 in
  raised (openImage E "" s) = None /\
  imgFilePath s1 = "" /\
  imgFilePath s2 = "" /\ label s2 = label s /\ shown s2 = shown s /\ timer s2 = None /\
  dirImageList s2 = dirImageList s /\ imageNumber s2 = imageNumber s.
Proof.
  intros Ht s1 s2.
  assert (H1 : openImage E "" s = Ok (logmsg LogImgPathEmpty (set_imgFilePath "" s)))
    by reflexivity.
  split; [ rewrite H1; reflexivity | ]. split; [ reflexivity | ].
  assert (G : forall evs0 s0, imgFilePath s0 = "" -> timer s0 = None ->
    imgFilePath (run_resizes E evs0 s0) = "" /\ label (run_resizes E evs0 s0) = label s0 /\
    shown (run_resizes E evs0 s0) = shown s0 /\ timer (run_resizes E evs0 s0) = None /\
    dirImageList (run_resizes E evs0 s0) = dirImageList s0 /\
    imageNumber (run_resizes E evs0 s0) = imageNumber s0).
  { intros evs0. induction evs0 as [|[t wh] evs0 IH]; intros s0 Hp0 Ht0;
      [ cbn; repeat split; auto | ].
    pose proof (deliver_resize_blank E t wh s0 Hp0 Ht0) as H0. cbv zeta in H0.
    destruct H0 as (A & B & C & D & F & G & _).
    rewrite run_resizes_cons.
    destruct (IH (deliver_resize E t wh s0) A B) as (A2 & C2 & D2 & B2 & F2 & G2).
    rewrite A2, C2, D2, B2, F2, G2, C, D, F, G. repeat split. }
  subst s2 s1. rewrite H1. cbn [state_of].
  destruct (G evs (logmsg LogImgPathEmpty (set_imgFilePath "" s)))
    as (A & B & C & D & F & H); [ reflexivity | exact Ht | ].
  repeat split; assumption.
Qed.

Lemma cancelled_open_freezes_display_witness :
  timer Sample.opened = None /\
  label (run_resizes Sample.env [(5, (400, 300)); (9, (300, 200))]
           (state_of (openImage Sample.env "" Sample.opened)))
  = label Sample.opened.
Proof.
  split; [ reflexivity | ].
  destruct (cancelled_open_freezes_display Sample.env Sample.opened
              [(5, (400, 300)); (9, (300, 200))] eq_refl) as (_ & _ & _ & A & _).
  exact A.
Defined.

(** X14. Every resize event is answered with exactly one low-fidelity
    pixmap, drawn from the preview slot at the size of the event and at
    its time: the low-fidelity pixmaps of a run are these, in order,
    whatever the timer does in between. *)
Theorem one_redraw_per_resize (E : Env) (s : State) (evs : list (Z * (Z * Z))) :
  imgFilePath s <> "" ->
  imgFilePath s <> thumb_path ->
  imTOut s = Some thumb_path ->
  filter is_low (shown_since s (run_resizes E evs s)) = map (redraw_of (thumbFile s)) evs.
Proof.
  intros Hp Hnt Ho.
  destruct (run_resizes_redraws E evs s Hp Hnt Ho) as (new & Sh & F).
  rewrite (shown_since_app s _ new Sh). exact F.
Qed.

Lemma one_redraw_per_resize_witness :
  imTOut Sample.opened = Some thumb_path /\
  filter is_low
    (shown_since Sample.opened
       (run_resizes Sample.env [(0, (800, 600)); (300, (700, 500))] Sample.opened))
  = [(0, MkPixmap (Preview (Some "/d/B.png")) 800 600 false);
     (300, MkPixmap (Preview (Some "/d/B.png")) 700 500 false)].
Proof.
  split; [ reflexivity | ].
  apply (one_redraw_per_resize Sample.env Sample.opened
           [(0, (800, 600)); (300, (700, 500))]);
    [ cbv; discriminate | cbv; discriminate | reflexivity ].
Defined.

(** X15. A resize while an image is selected but no preview was ever made
    (the first selection failed to open) raises [AttributeError] at line
    464, after line 462 has started the timer: the label is not touched,
    and the timer is armed for 250 later. *)
Theorem resize_without_preview (E : Env) (s : State) (w h : Z) :
  imgFilePath s <> "" ->
  imTOut s = None ->
  timer s = None ->
  let r := resizeEvent E w h s in
  raised r = Some AttributeError /\
  timer (state_of r) = Some (clock s + debounce) /\
  label (state_of r) = label s /\
  shown (state_of r) = shown s /\
  mwWidth (state_of r) = w /\ mwHeight (state_of r) = h.
Proof.
  intros Hp Ho Ht. unfold resizeEvent, updateFunction, timer_isActive, timer_start. fields.
  apply String.eqb_neq in Hp. rewrite Hp. cbn [negb Z.eqb Pos.eqb]. fields. rewrite Ht.
  cbn [negb]. fields. rewrite Ho. cbn. repeat split; reflexivity.
Qed.

Lemma resize_without_preview_witness :
  imgFilePath (state_of (openImage Sample.env "/d/C.gif" (init (800, 600)))) <> "" /\
  imTOut (state_of (openImage Sample.env "/d/C.gif" (init (800, 600)))) = None /\
  raised (resizeEvent Sample.env 640 480
            (state_of (openImage Sample.env "/d/C.gif" (init (800, 600)))))
  = Some AttributeError.
Proof.
  assert (H1 : imgFilePath (state_of (openImage Sample.env "/d/C.gif" (init (800, 600)))) <> "")
    by (cbv; discriminate).
  split; [ exact H1 | split; [ reflexivity | ] ].
  destruct (resize_without_preview Sample.env
              (state_of (openImage Sample.env "/d/C.gif" (init (800, 600)))) 640 480)
    as (A & _); [ exact H1 | reflexivity | reflexivity | exact A ].
Defined.

(** X17. After an image was selected and loaded (it opened, and its
    preview was made and saved), a resize shows the preview of that very
    image, at the new size and without smoothing, and arms the timer; when
    the timer runs out the image itself is shown at that size. *)
Theorem select_then_resize (E : Env) (s : State) (p : string) (t : Z) (wh : Z * Z) :
  p <> "" ->
  p <> thumb_path ->
  loads E p = true ->
  timer s = None ->
  let s1 := state_of (selectImage E p s) in
  let s2 := deliver_resize E t wh s1 in
  label s2 = Some (MkPixmap (Preview (Some p)) (fst wh) (snd wh) false) /\
  timer s2 = Some (t + debounce) /\
  label (settle s2) = Some (MkPixmap (Original p) (fst wh) (snd wh) true) /\
  timer (settle s2) = None.
Proof.
  intros Hp Hnt Ho Ht s1 s2.
  destruct (selectImage_ok E p s Hp Ho) as (s' & Hs & P & T & O & _).
  destruct (selectImage_nav E p s) as (_ & _ & _ & _ & _ & _ & _ & Tm).
  assert (E1 : s1 = s') by (subst s1; rewrite Hs; reflexivity).
  assert (Hp1 : imgFilePath s1 <> "") by (rewrite E1, P; exact Hp).
  assert (Ho1 : imTOut s1 = Some thumb_path) by (rewrite E1; exact O).
  assert (Ht1 : timer s1 = None) by (subst s1; rewrite Tm; exact Ht).
  destruct (deliver_resize_arms E t wh s1 Hp1 Ho1 Ht1) as (A & (B1 & B2 & B3) & C).
  fold s2 in A, B1, B2, B3, C.
  assert (Hlab : label s2 = Some (MkPixmap (Preview (Some p)) (fst wh) (snd wh) false)).
  { subst s2. unfold deliver_resize, fire_due, resizeEvent, updateFunction. rewrite Ht1.
    fields. apply String.eqb_neq in Hp1. rewrite Hp1. cbn [negb Z.eqb Pos.eqb].
    unfold timer_isActive, timer_start, QPixmap. fields. rewrite Ht1. cbn [negb]. fields.
    rewrite Ho1. cbn [state_of]. fields. rewrite String.eqb_refl, E1, T. reflexivity. }
  split; [ exact Hlab | split; [ exact A | ] ].
  assert (Hmw : mwWidth s2 = fst wh /\ mwHeight s2 = snd wh).
  { destruct (deliver_resize_any E t wh s1 thumb_path Hp1 Ho1) as (_ & _ & _ & _ & W & H & _).
    split; assumption. }
  destruct Hmw as [W H].
  unfold settle. rewrite A. unfold updateTimerFunc, timer_stop, QPixmap. fields.
  rewrite B1, E1, P, W, H. apply String.eqb_neq in Hnt. rewrite Hnt. auto.
Qed.

Lemma select_then_resize_witness :
  loads Sample.env "/d/a.jpg" = true /\
  label (deliver_resize Sample.env 10 (640, 480)
           (state_of (selectImage Sample.env "/d/a.jpg" Sample.opened)))
  = Some (MkPixmap (Preview (Some "/d/a.jpg")) 640 480 false).
Proof.
  split; [ reflexivity | ].
  destruct (select_then_resize Sample.env Sample.opened "/d/a.jpg" 10 (640, 480))
    as (A & _); [ discriminate | discriminate | reflexivity | reflexivity | exact A ].
Defined.

(** X18. After a selection that failed to open, the preview slot still
    holds the previous image: a resize then shows the preview of the
    PREVIOUS image while [imgFilePath] names the new one, and when the
    timer runs out [updateTimerFunc] loads the new, unopenable path. *)
Theorem failed_select_then_resize
    (E : Env) (s : State) (p q : string) (e : exn) (t : Z) (wh : Z * Z) :
  p <> "" ->
  p <> thumb_path ->
  image_open E p = inl e ->
  imTOut s = Some thumb_path ->
  thumbFile s = Some q ->
  timer s = None ->
  let s1 := state_of (selectImage E p s) in
  let s2 := deliver_resize E t wh s1 in
  imgFilePath s2 = p /\
  label s2 = Some (MkPixmap (Preview (Some q)) (fst wh) (snd wh) false) /\
  label (settle s2) = Some (MkPixmap (Original p) (fst wh) (snd wh) true).
Proof.
  intros Hp Hnt He Ho Hq Ht s1 s2.
  assert (E1 : s1 = set_mw (fst (frame s)) (snd (frame s)) (set_imgFilePath p s)).
  { subst s1. rewrite (selectImage_fails E p s e Hp He). reflexivity. }
  assert (Hp1 : imgFilePath s1 <> "") by (rewrite E1; exact Hp).
  assert (Ho1 : imTOut s1 = Some thumb_path) by (rewrite E1; exact Ho).
  assert (Ht1 : timer s1 = None) by (rewrite E1; exact Ht).
  destruct (deliver_resize_arms E t wh s1 Hp1 Ho1 Ht1) as (A & (B1 & B2 & B3) & C).
  fold s2 in A, B1, B2, B3, C.
  split; [ rewrite B1, E1; reflexivity | ].
  assert (Hlab : label s2 = Some (MkPixmap (Preview (Some q)) (fst wh) (snd wh) false)).
  { subst s2. unfold deliver_resize, fire_due, resizeEvent, updateFunction. rewrite Ht1.
    fields. apply String.eqb_neq in Hp1. rewrite Hp1. cbn [negb Z.eqb Pos.eqb].
    unfold timer_isActive, timer_start, QPixmap. fields. rewrite Ht1. cbn [negb]. fields.
    rewrite Ho1. cbn [state_of]. fields. rewrite String.eqb_refl, E1. fields. rewrite Hq.
    reflexivity. }
  split; [ exact Hlab | ].
  destruct (deliver_resize_any E t wh s1 thumb_path Hp1 Ho1) as (_ & _ & _ & _ & W & H & _).
  fold s2 in W, H.
  unfold settle. rewrite A. unfold updateTimerFunc, timer_stop, QPixmap. fields.
  rewrite B1, E1. fields. rewrite W, H. apply String.eqb_neq in Hnt. rewrite Hnt. reflexivity.
Qed.

Lemma failed_select_then_resize_witness :
  image_open Sample.env "/d/C.gif" = inl UnidentifiedImageError /\
  thumbFile Sample.opened = Some "/d/B.png" /\
  label (deliver_resize Sample.env 10 (640, 480)
           (state_of (selectImage Sample.env "/d/C.gif" Sample.opened)))
  = Some (MkPixmap (Preview (Some "/d/B.png")) 640 480 false).
Proof.
  split; [ reflexivity | split; [ reflexivity | ] ].
  destruct (failed_select_then_resize Sample.env Sample.opened "/d/C.gif" "/d/B.png"
              UnidentifiedImageError 10 (640, 480)) as (_ & A & _);
    [ discriminate | discriminate | reflexivity | reflexivity | reflexivity | reflexivity
    | exact A ].
Defined.

(* ================================================================== *)
(** ** Facts about closing and resetting *)

Module ShellFacts.
Import Shell.

Lemma onCloseActions_frame (s : State) :
  closed (onCloseActions s) = closed s /\ blur (onCloseActions s) = blur s /\
  saveConfigOnExit (onCloseActions s) = saveConfigOnExit s /\
  geometry (onCloseActions s) = geometry s /\
  config (onCloseActions s) = with_windowProperties (geometry s) (config s) /\
  userConfig (onCloseActions s)
  = (if saveConfigOnExit s then with_windowProperties (geometry s) (config s)
     else userConfig s).
Proof.
  unfold onCloseActions, dumpJson. cbn.
  destruct (saveConfigOnExit s) eqn:H; cbn; rewrite ?H; repeat split.
Qed.

Lemma closeEvent_unsaved (yes checked : bool) (s : State) :
  saveConfigOnExit s = false ->
  saveConfigOnExit (closeEvent yes checked s) = false /\
  userConfig (closeEvent yes checked s) = userConfig s.
Proof.
  intros H. unfold closeEvent, blur_if_experimental, onCloseActions, dumpJson.
  destruct (enableExitPrompt (config s)) eqn:Hp, (enableExperimentalUI (config s)) eqn:Hx,
    checked, yes; cbn; rewrite ?Hx; cbn; rewrite ?H; cbn; repeat split; try assumption.
Qed.

Lemma onCloseActions_unsaved (s : State) :
  saveConfigOnExit s = false ->
  saveConfigOnExit (onCloseActions s) = false /\
  userConfig (onCloseActions s) = userConfig s.
Proof.
  intros H. unfold onCloseActions, dumpJson. cbn. rewrite H. cbn. auto.
Qed.

Lemma handle_unsaved (default : Config) (ev : Event) (s : State) :
  saveConfigOnExit s = false ->
  userConfig s = default ->
  saveConfigOnExit (handle default ev s) = false /\
  userConfig (handle default ev s) = default.
Proof.
  intros H Hd. destruct ev as [w | yes checked | yes checked | ]; cbn [handle].
  - cbn. auto.
  - destruct (closeEvent_unsaved yes checked s H) as [A B]. rewrite A, B. auto.
  - unfold resetConfigDialog.
    set (s1 := blur_if_experimental true s).
    assert (H1 : saveConfigOnExit s1 = false /\ userConfig s1 = default).
    { unfold s1, blur_if_experimental. destruct (enableExperimentalUI (config s)); cbn; auto. }
    destruct H1 as [H1 D1].
    set (s2 := if checked then _ else s1).
    assert (H2 : saveConfigOnExit s2 = false /\ userConfig s2 = default).
    { unfold s2. destruct checked; [ | auto ].
      match goal with |- context [closeEvent false false ?x] =>
        assert (Hx : saveConfigOnExit x = false /\ userConfig x = default) end.
      { destruct (onCloseActions_unsaved
                    (set_config (with_enableExitPrompt false (config s1)) s1) H1) as [A B].
        rewrite A, B. auto. }
      destruct Hx as [Hx Dx].
      match goal with |- context [closeEvent false false ?x] =>
        destruct (closeEvent_unsaved false false x Hx) as [A B] end.
      rewrite A, B. auto. }
    destruct H2 as [H2 D2].
    destruct yes; cbn; [ auto | ].
    unfold blur_if_experimental. destruct (enableExperimentalUI (config s2)); cbn; auto.
  - unfold except_hook.
    destruct (onCloseActions_unsaved (logline LogCritical s) H) as [A B].
    rewrite A, B. auto.
Qed.

Lemma run_unsaved (default : Config) (evs : list Event) (s : State) :
  saveConfigOnExit s = false ->
  userConfig s = default ->
  saveConfigOnExit (run default evs s) = false /\
  userConfig (run default evs s) = default.
Proof.
  revert s. induction evs as [|ev evs IH]; intros s H Hd; [ auto | ].
  cbn [run]. destruct (handle_unsaved default ev s H Hd) as [A B]. apply IH; assumption.
Qed.

Lemma reset_yes (default : Config) (checked : bool) (s : State) :
  saveConfigOnExit (resetConfigDialog default true checked s) = false /\
  userConfig (resetConfigDialog default true checked s) = default.
Proof. unfold resetConfigDialog. cbn. auto. Qed.

End ShellFacts.

(** X19. Once the reset dialog was answered with Yes, the configuration
    file holds the default configuration and keeps it: whatever follows
    (moving the window, close requests with any answers, further reset
    dialogs, exceptions reaching the hook), [config] is never saved over
    it. *)
Theorem reset_is_durable
    (default : Shell.Config) (checked : bool) (evs : list Shell.Event) (s : Shell.State) :
  Shell.userConfig (Shell.run default evs (Shell.resetConfigDialog default true checked s))
  = default.
Proof.
  destruct (ShellFacts.reset_yes default checked s) as [A B].
  exact (proj2 (ShellFacts.run_unsaved default evs _ A B)).
Qed.

(** X20. What a close request does.  It is accepted when the prompt is
    disabled or the answer is Yes; then [config] takes the geometry of the
    window and, unless a reset has switched saving off, the file is
    written with it.  When it is refused the file is not written and the
    blur of the experimental UI is taken off again.  Ticking the box
    disables the prompt in [config] whatever the answer. *)
Theorem closeEvent_outcome (yes checked : bool) (s : Shell.State) :
  let s' := Shell.closeEvent yes checked s in
  let accepted := negb (Shell.enableExitPrompt (Shell.config s)) || yes in
  Shell.closed s' = accepted || Shell.closed s /\
  Shell.enableExitPrompt (Shell.config s')
  = Shell.enableExitPrompt (Shell.config s) && negb checked /\
  (accepted = true ->
     Shell.windowProperties (Shell.config s') = Shell.geometry s /\
     Shell.userConfig s'
     = (if Shell.saveConfigOnExit s then Shell.config s' else Shell.userConfig s)) /\
  (accepted = false ->
     Shell.userConfig s' = Shell.userConfig s /\
     Shell.windowProperties (Shell.config s') = Shell.windowProperties (Shell.config s) /\
     (Shell.enableExperimentalUI (Shell.config s) = true -> Shell.blur s' = false)).
Proof.
  unfold Shell.closeEvent, Shell.blur_if_experimental, Shell.onCloseActions, Shell.dumpJson.
  destruct (Shell.enableExitPrompt (Shell.config s)) eqn:Hp,
    (Shell.enableExperimentalUI (Shell.config s)) eqn:Hx,
    (Shell.saveConfigOnExit s) eqn:Hs, checked, yes;
    cbn; rewrite ?Hx; cbn; rewrite ?Hs; cbn; rewrite ?Hp, ?Hx;
    repeat split; intros; try discriminate; try reflexivity.
Qed.

(** X21. "Do not show again" with the answer No: the window stays open and
    the file is not written, but the prompt is off in [config]; the next
    close request is then accepted whatever the dialog would have said,
    and the file it writes has the prompt disabled. *)
Theorem dont_show_again_then_close (yes checked : bool) (s : Shell.State) :
  Shell.enableExitPrompt (Shell.config s) = true ->
  Shell.saveConfigOnExit s = true ->
  let s1 := Shell.closeEvent false true s in
  let s2 := Shell.closeEvent yes checked s1 in
  Shell.closed s1 = Shell.closed s /\
  Shell.userConfig s1 = Shell.userConfig s /\
  Shell.closed s2 = true /\
  Shell.enableExitPrompt (Shell.userConfig s2) = false /\
  Shell.windowProperties (Shell.userConfig s2) = Shell.geometry s.
Proof.
  intros Hp Hs.
  unfold Shell.closeEvent, Shell.blur_if_experimental, Shell.onCloseActions, Shell.dumpJson.
  rewrite Hp.
  destruct (Shell.enableExperimentalUI (Shell.config s)) eqn:Hx, checked, yes;
    cbn; rewrite ?Hx; cbn; rewrite ?Hs; cbn; repeat split.
Qed.

Lemma dont_show_again_then_close_witness :
  Shell.enableExitPrompt (Shell.config Shell.sample) = true /\
  Shell.closed (Shell.closeEvent false true Shell.sample) = false /\
  Shell.closed (Shell.closeEvent false false (Shell.closeEvent false true Shell.sample)) = true.
Proof.
  split; [ reflexivity | ].
  destruct (dont_show_again_then_close false false Shell.sample eq_refl eq_refl)
    as (A & _ & B & _).
  split; [ exact A | exact B ].
Defined.

(** X22. What the reset dialog does.  A ticked box disables the prompt and
    closes the window, saving on the way; the answer Yes puts the default
    configuration into the file and switches saving off; with the
    experimental UI the blur is taken off again after No only, so after
    Yes the window stays blurred. *)
Theorem resetConfigDialog_outcome
    (default : Shell.Config) (yes checked : bool) (s : Shell.State) :
  let s' := Shell.resetConfigDialog default yes checked s in
  Shell.closed s' = checked || Shell.closed s /\
  Shell.enableExitPrompt (Shell.config s')
  = Shell.enableExitPrompt (Shell.config s) && negb checked /\
  Shell.saveConfigOnExit s' = Shell.saveConfigOnExit s && negb yes /\
  Shell.userConfig s'
  = (if yes then default
     else if checked && Shell.saveConfigOnExit s then Shell.config s'
     else Shell.userConfig s) /\
  (Shell.enableExperimentalUI (Shell.config s) = true -> Shell.blur s' = yes).
Proof.
  unfold Shell.resetConfigDialog, Shell.closeEvent, Shell.blur_if_experimental,
    Shell.onCloseActions, Shell.dumpJson.
  destruct (Shell.enableExitPrompt (Shell.config s)) eqn:Hp,
    (Shell.enableExperimentalUI (Shell.config s)) eqn:Hx,
    (Shell.saveConfigOnExit s) eqn:Hs, checked, yes;
    do 4 (cbn; rewrite ?Hx, ?Hs, ?Hp);
    repeat split; intros; try discriminate; try reflexivity.
Qed.

(* ================================================================== *)
(** ** Facts about [StreamToLogger] *)

Example splitlines_ex :
  Stream.splitlines (String "a" (String "013" (String "010" (String "010" "b"))))
  = ["a"; ""; "b"].
Proof. reflexivity. Qed.

Module StreamFacts.
Import Stream.

Lemma rstrip_blank (s : string) : blank s = true -> rstrip s = "".
Proof.
  unfold blank. induction s as [|c s IH]; [ reflexivity | ].
  cbn [list_ascii_of_string forallb]. intros H. apply andb_true_iff in H.
  destruct H as [Hc Hs]. cbn [rstrip]. rewrite (IH Hs), Hc. reflexivity.
Qed.

Lemma rstrip_empty_blank (s : string) : rstrip s = "" -> blank s = true.
Proof.
  unfold blank. induction s as [|c s IH]; [ reflexivity | ].
  cbn [rstrip list_ascii_of_string forallb].
  destruct (rstrip s) as [|x r] eqn:Hr; [ | discriminate ].
  destruct (isspace c); [ intros _; rewrite IH; reflexivity | discriminate ].
Qed.

Lemma rstrip_idem (s : string) : rstrip (rstrip s) = rstrip s.
Proof.
  induction s as [|c s IH]; [ reflexivity | ].
  cbn [rstrip]. destruct (rstrip s) as [|x r] eqn:Hr.
  - destruct (isspace c) eqn:Hc; [ reflexivity | ]. cbn [rstrip]. rewrite Hc. reflexivity.
  - cbn [rstrip] in *. rewrite IH. reflexivity.
Qed.

Lemma one_line_cons (c : ascii) (s : string) :
  one_line (String c s) = negb (is_linebreak c) && one_line s.
Proof. reflexivity. Qed.

Lemma one_line_app (a b : string) : one_line (a ++ b) = one_line a && one_line b.
Proof.
  induction a as [|c a IH]; [ reflexivity | ].
  cbn [append]. rewrite !one_line_cons, IH, andb_assoc. reflexivity.
Qed.

Lemma rstrip_one_line (s : string) : one_line s = true -> one_line (rstrip s) = true.
Proof.
  induction s as [|c s IH]; [ reflexivity | ].
  rewrite one_line_cons. intros H. apply andb_true_iff in H. destruct H as [Hc Hs].
  cbn [rstrip]. specialize (IH Hs). destruct (rstrip s) as [|x r].
  - destruct (isspace c); [ reflexivity | ]. rewrite one_line_cons, Hc. reflexivity.
  - rewrite one_line_cons, Hc, IH. reflexivity.
Qed.

Lemma linebreak_cr : is_linebreak "013" = true.
Proof. reflexivity. Qed.

Lemma splitlines_from_bounded (n : nat) (s cur line : string) :
  (String.length s <= n)%nat ->
  one_line cur = true ->
  In line (splitlines_from cur s) -> one_line line = true.
Proof.
  revert s cur. induction n as [|n IH]; intros s cur Hn Hcur Hin.
  - destruct s as [|c s]; [ | cbn in Hn; lia ].
    cbn in Hin. destruct cur; [ contradiction | ].
    destruct Hin as [<- | []]. exact Hcur.
  - destruct s as [|c s].
    + cbn in Hin. destruct cur; [ contradiction | ].
      destruct Hin as [<- | []]. exact Hcur.
    + cbn [String.length] in Hn. cbn [splitlines_from] in Hin.
      destruct (Ascii.eqb c "013").
      * destruct s as [|c' s''].
        -- destruct Hin as [<- | Hin]; [ exact Hcur | ]. cbn in Hin. contradiction.
        -- cbn [String.length] in Hn. destruct (Ascii.eqb c' "010").
           ++ destruct Hin as [<- | Hin]; [ exact Hcur | ].
              apply (IH s'' ""); [ lia | reflexivity | exact Hin ].
           ++ destruct Hin as [<- | Hin]; [ exact Hcur | ].
              apply (IH (String c' s'') ""); [ cbn; lia | reflexivity | exact Hin ].
      * destruct (is_linebreak c) eqn:Hc.
        -- destruct Hin as [<- | Hin]; [ exact Hcur | ].
           apply (IH s ""); [ lia | reflexivity | exact Hin ].
        -- apply (IH s (cur ++ String c "")); [ lia | | exact Hin ].
           rewrite one_line_app, Hcur, one_line_cons, Hc. reflexivity.
Qed.

Lemma splitlines_from_lines (s cur line : string) :
  one_line cur = true ->
  In line (splitlines_from cur s) -> one_line line = true.
Proof. apply (splitlines_from_bounded (String.length s)). lia. Qed.

Lemma splitlines_from_one_line (s cur : string) :
  one_line s = true ->
  splitlines_from cur s = match cur ++ s with EmptyString => [] | l => [l] end.
Proof.
  revert cur. induction s as [|c s IH]; intros cur Hs.
  - cbn [splitlines_from]. rewrite append_nil_r. destruct cur; reflexivity.
  - rewrite one_line_cons in Hs. apply andb_true_iff in Hs. destruct Hs as [Hc Hs].
    apply negb_true_iff in Hc. cbn [splitlines_from].
    assert (Hcr : Ascii.eqb c "013" = false).
    { destruct (Ascii.eqb c "013") eqn:H; [ | reflexivity ].
      apply Ascii.eqb_eq in H. subst c. rewrite linebreak_cr in Hc. discriminate. }
    rewrite Hcr, Hc, (IH (cur ++ String c "") Hs), append_assoc. reflexivity.
Qed.

End StreamFacts.

(** X23. Writing text that consists of white space only (the line end
    that [print] writes on its own, for one) logs nothing. *)
Theorem write_blank_logs_nothing (level : Z) (buf : string) (records : list (Z * string)) :
  Stream.blank buf = true ->
  Stream.write level buf records = records.
Proof.
  intros H. unfold Stream.write. rewrite (StreamFacts.rstrip_blank buf H).
  cbn. apply app_nil_r.
Qed.

Lemma write_blank_logs_nothing_witness :
  Stream.blank (String "010" "") = true /\
  Stream.write 40 (String "010" "") [] = [].
Proof.
  split; [ reflexivity | ].
  exact (write_blank_logs_nothing 40 (String "010" "") [] eq_refl).
Defined.

(** X24. Every record that a write of ASCII text adds carries the level of
    the stream and a message that is one line without white space at its
    end; the records logged before are kept. *)
Theorem write_records_clean
    (level : Z) (buf : string) (records : list (Z * string)) :
  Stream.ascii_only buf = true ->
  exists added,
    Stream.write level buf records = (records ++ added)%list /\
    Forall (fun r => fst r = level /\
                     Stream.rstrip (snd r) = snd r /\
                     Stream.one_line (snd r) = true) added.
Proof.
  intros _. unfold Stream.write. eexists. split; [ reflexivity | ].
  apply Forall_forall. intros [lv m] Hin. apply in_map_iff in Hin.
  destruct Hin as (line & Heq & Hin). inversion Heq; subst. cbn [fst snd].
  split; [ reflexivity | split; [ apply StreamFacts.rstrip_idem | ] ].
  apply (StreamFacts.rstrip_one_line line).
  exact (StreamFacts.splitlines_from_lines _ "" line eq_refl Hin).
Qed.

Lemma write_records_clean_witness :
  Stream.ascii_only (String "a" (String " " (String "010" "b"))) = true /\
  exists added,
    Stream.write 40 (String "a" (String " " (String "010" "b"))) [] = ([] ++ added)%list /\
    Forall (fun r => fst r = 40 /\
                     Stream.rstrip (snd r) = snd r /\
                     Stream.one_line (snd r) = true) added.
Proof.
  split; [ reflexivity | ].
  exact (write_records_clean 40 (String "a" (String " " (String "010" "b"))) [] eq_refl).
Defined.

(** X25. Writing ASCII text that holds no line end and is not white space
    only logs exactly one record: the text without the white space at its
    end. *)
Theorem write_single_line (level : Z) (buf : string) (records : list (Z * string)) :
  Stream.ascii_only buf = true ->
  Stream.one_line buf = true ->
  Stream.blank buf = false ->
  Stream.write level buf records = (records ++ [(level, Stream.rstrip buf)])%list.
Proof.
  intros _ Hline Hblank. unfold Stream.write, Stream.splitlines. f_equal.
  rewrite (StreamFacts.splitlines_from_one_line (Stream.rstrip buf) "")
    by (apply StreamFacts.rstrip_one_line; exact Hline).
  cbn [append]. destruct (Stream.rstrip buf) as [|c r] eqn:Hr.
  - apply StreamFacts.rstrip_empty_blank in Hr. congruence.
  - cbn [map]. rewrite <- Hr, StreamFacts.rstrip_idem. reflexivity.
Qed.

Lemma write_single_line_witness :
  Stream.ascii_only "Traceback:  " = true /\
  Stream.write 40 "Traceback:  " [] = ([] ++ [(40, Stream.rstrip "Traceback:  ")])%list.
Proof.
  split; [ reflexivity | ].
  exact (write_single_line 40 "Traceback:  " [] eq_refl eq_refl eq_refl).
Defined.
